(** * AIMMee: topology, registration, ports and power models

    A shallow embedding of [AIMMee/AIMMee.py]: the [Sim] container
    (topology dictionary and GUID map), the [SimObject] base class and its
    subclasses, together with the properties stated about them.

    Python objects are modelled as they are at run time: an instance is a
    class name plus an attribute dictionary, instances live in a store
    addressed by [id(obj)], and a method is a computation in a state and
    exception monad.  A raised exception keeps the mutations performed
    before it, exactly as in Python. *)

From Stdlib Require Import ZArith Lia Floats.PrimFloat Floats.FloatOps.
From Stdlib Require Import Numbers.Cyclic.Int63.Uint63.
From stdpp Require Import base option list gmap strings pretty.

#[local] Set Warnings "-inexact-float,-clear-no-such-hyp".

Local Open Scope Z_scope.
Local Open Scope string_scope.

(** ** Values, objects and exceptions *)

(** Python values that occur in the modelled code. *)
Inductive pyval : Type :=
| VNone
| VBool (b : bool)
| VInt (z : Z)
| VFloat (f : float)
| VStr (s : string)
| VObj (a : Z)          (* a SimObject instance, named by [id(obj)] *)
| VDict (d : N)         (* a dict object, named by its identity *)
| VSim                  (* the Sim instance *)
| VCallable (name : string)
| VExt (tag : string).  (* a value owned by an external package (numpy, AIMM_simulator) *)

Inductive exn : Type :=
| AttributeError (attr : string)
| KeyError
| ValueError (msg : string)
| TypeError
| AssertionError
| ZeroDivisionError
| OverflowError
| Exception_ (msg : string).

(** An instance: its run-time class and its [__dict__]. *)
Record pyobj : Type := PyObj {
  cls : string;
  attrs : gmap string pyval
}.

(** The process state seen by the code: the fields of the one [Sim]
    instance, the object store, the class-level counter
    [SimObject.id_iter] and the lines printed so far. *)
Record State : Type := MkState {
  topology : gmap string (gmap Z (list Z));  (* sim.topology *)
  guid_map : gmap Z Z;  (* sim.guid_map: guid to object *)
  cells : list Z;  (* sim.cells *)
  UEs : list Z;  (* sim.UEs *)
  raps : list Z;  (* sim.raps *)
  rus : list Z;  (* sim.rus *)
  rrhs : list Z;  (* sim.rrhs *)
  objects : gmap Z pyobj;  (* instances by id *)
  dicts : gmap N (list (string * pyval));  (* dict objects, insertion ordered *)
  next_dict : N;  (* identity given to the next dict object *)
  id_iter : N;  (* SimObject.id_iter *)
  stdout : list (list pyval)  (* print() calls, one fragment list each *)
}.

Definition set_topology (f : gmap string (gmap Z (list Z)) → gmap string (gmap Z (list Z))) (s : State) : State :=
  MkState (f (topology s)) (guid_map s) (cells s) (UEs s) (raps s) (rus s) (rrhs s) (objects s) (dicts s) (next_dict s) (id_iter s) (stdout s).

Definition set_guid_map (f : gmap Z Z → gmap Z Z) (s : State) : State :=
  MkState (topology s) (f (guid_map s)) (cells s) (UEs s) (raps s) (rus s) (rrhs s) (objects s) (dicts s) (next_dict s) (id_iter s) (stdout s).

Definition set_cells (f : list Z → list Z) (s : State) : State :=
  MkState (topology s) (guid_map s) (f (cells s)) (UEs s) (raps s) (rus s) (rrhs s) (objects s) (dicts s) (next_dict s) (id_iter s) (stdout s).

Definition set_UEs (f : list Z → list Z) (s : State) : State :=
  MkState (topology s) (guid_map s) (cells s) (f (UEs s)) (raps s) (rus s) (rrhs s) (objects s) (dicts s) (next_dict s) (id_iter s) (stdout s).

Definition set_raps (f : list Z → list Z) (s : State) : State :=
  MkState (topology s) (guid_map s) (cells s) (UEs s) (f (raps s)) (rus s) (rrhs s) (objects s) (dicts s) (next_dict s) (id_iter s) (stdout s).

Definition set_rus (f : list Z → list Z) (s : State) : State :=
  MkState (topology s) (guid_map s) (cells s) (UEs s) (raps s) (f (rus s)) (rrhs s) (objects s) (dicts s) (next_dict s) (id_iter s) (stdout s).

Definition set_rrhs (f : list Z → list Z) (s : State) : State :=
  MkState (topology s) (guid_map s) (cells s) (UEs s) (raps s) (rus s) (f (rrhs s)) (objects s) (dicts s) (next_dict s) (id_iter s) (stdout s).

Definition set_objects (f : gmap Z pyobj → gmap Z pyobj) (s : State) : State :=
  MkState (topology s) (guid_map s) (cells s) (UEs s) (raps s) (rus s) (rrhs s) (f (objects s)) (dicts s) (next_dict s) (id_iter s) (stdout s).

Definition set_dicts (f : gmap N (list (string * pyval)) → gmap N (list (string * pyval))) (s : State) : State :=
  MkState (topology s) (guid_map s) (cells s) (UEs s) (raps s) (rus s) (rrhs s) (objects s) (f (dicts s)) (next_dict s) (id_iter s) (stdout s).

Definition set_next_dict (f : N → N) (s : State) : State :=
  MkState (topology s) (guid_map s) (cells s) (UEs s) (raps s) (rus s) (rrhs s) (objects s) (dicts s) (f (next_dict s)) (id_iter s) (stdout s).

Definition set_id_iter (f : N → N) (s : State) : State :=
  MkState (topology s) (guid_map s) (cells s) (UEs s) (raps s) (rus s) (rrhs s) (objects s) (dicts s) (next_dict s) (f (id_iter s)) (stdout s).

Definition set_stdout (f : list (list pyval) → list (list pyval)) (s : State) : State :=
  MkState (topology s) (guid_map s) (cells s) (UEs s) (raps s) (rus s) (rrhs s) (objects s) (dicts s) (next_dict s) (id_iter s) (f (stdout s)).

(** [Sim.__init__] up to the call of the external base initialiser:
    [set_sim_topology], [set_guid_map] and the empty node lists. *)
Definition Sim__init__ : State :=
  MkState ∅ ∅ [] [] [] [] [] ∅ ∅ 0%N 0%N [].

(** ** The state and exception monad *)

Inductive result (A : Type) : Type :=
| Ok (a : A)
| Raise (e : exn).
Arguments Ok {A} a.
Arguments Raise {A} e.

Definition M (A : Type) : Type := State → result A * State.

Definition ret {A} (a : A) : M A := fun s => (Ok a, s).
Definition raise {A} (e : exn) : M A := fun s => (Raise e, s).
Definition bind {A B} (m : M A) (k : A → M B) : M B :=
  fun s => match m s with
           | (Ok a, s') => k a s'
           | (Raise e, s') => (Raise e, s')
           end.
Definition gets {A} (f : State → A) : M A := fun s => (Ok (f s), s).
Definition modify (f : State → State) : M unit := fun s => (Ok tt, f s).

Notation "x <- m ;; k" := (bind m (fun x => k))
  (at level 100, m at next level, right associativity).
Notation "m ;;; k" := (bind m (fun _ => k))
  (at level 100, right associativity).

Definition exec {A} (m : M A) (s : State) : State := snd (m s).
Definition outcome {A} (m : M A) (s : State) : result A := fst (m s).

(** ** Primitive operations of the object model *)

(** [print(...)]: the printed line is recorded as its fragments. *)
Definition print (line : list pyval) : M unit :=
  modify (set_stdout (fun out => (out ++ [line])%list)).

(** [next(SimObject.id_iter)]; every subclass shares the one counter,
    since none of them rebinds [id_iter]. *)
Definition next_id_iter : M N :=
  n <- gets id_iter ;;
  modify (set_id_iter N.succ) ;;;
  ret n.

(** Creation of an (attribute-less) instance of class [c] whose [id] is [a]. *)
Definition alloc (c : string) (a : Z) : M unit :=
  modify (set_objects (insert a (PyObj c ∅))).

(** [obj.name] *)
Definition getattr (o : pyval) (name : string) : M pyval :=
  fun s =>
    match o with
    | VObj a =>
        match objects s !! a with
        | Some ob =>
            match attrs ob !! name with
            | Some v => (Ok v, s)
            | None => (Raise (AttributeError name), s)
            end
        | None => (Raise (AttributeError name), s)
        end
    | _ => (Raise (AttributeError name), s)
    end.

(** [self.name = v] *)
Definition setattr (a : Z) (name : string) (v : pyval) : M unit :=
  modify (set_objects (fun h =>
    match h !! a with
    | Some ob => <[a := PyObj (cls ob) (<[name := v]> (attrs ob))]> h
    | None => h
    end)).

(** [hasattr(self, name)] *)
Definition hasattr (a : Z) (name : string) : M bool :=
  gets (fun s => match objects s !! a with
                 | Some ob => bool_decide (is_Some (attrs ob !! name))
                 | None => false
                 end).

(** [self.__class__.__name__] *)
Definition class_of (a : Z) : M string :=
  fun s => match objects s !! a with
           | Some ob => (Ok (cls ob), s)
           | None => (Raise (AttributeError "__class__"), s)
           end.

Definition as_str (v : pyval) : M string :=
  match v with VStr x => ret x | _ => raise TypeError end.

(** The class hierarchy of the module: every stored instance is a
    [SimObject]; [Sim] is the container. *)
Definition isinstance_SimObject (v : pyval) : bool :=
  match v with VObj _ => true | _ => false end.

Definition isinstance_Sim (v : pyval) : bool :=
  match v with VSim => true | _ => false end.

Definition is_None (v : pyval) : bool :=
  match v with VNone => true | _ => false end.

(** [topology[c][g]] on the dictionary of dictionaries. *)
Definition topo_get (t : gmap string (gmap Z (list Z))) (c : string) (g : Z)
    : option (list Z) :=
  t !! c ≫= (fun m => m !! g).

(** The list object at [topology[c][g]] mutated by [f]. *)
Definition topo_upd (t : gmap string (gmap Z (list Z))) (c : string) (g : Z)
    (f : list Z → list Z) : gmap string (gmap Z (list Z)) :=
  match t !! c with
  | Some m =>
      match m !! g with
      | Some l => <[c := <[g := f l]> m]> t
      | None => t
      end
  | None => t
  end.

(** [topology.setdefault(c, {}).setdefault(g, [])] *)
Definition topo_setdefault (t : gmap string (gmap Z (list Z))) (c : string) (g : Z)
    : gmap string (gmap Z (list Z)) :=
  let m := match t !! c with Some m => m | None => ∅ end in
  let m' := match m !! g with Some _ => m | None => <[g := []]> m end in
  <[c := m']> t.

(** [sim.topology[class_name][guid]]: the adjacency list, [KeyError]
    when either key is missing.  GUIDs are [id(obj)] integers; any other
    key is in no dictionary of the topology. *)
Definition topology_lookup (t : gmap string (gmap Z (list Z))) (c : string) (g : pyval)
    : option (list Z) :=
  match g with
  | VInt z => topo_get t c z
  | _ => None
  end.

Definition topology_get (simv : pyval) (c : string) (g : pyval) : M (list Z) :=
  if isinstance_Sim simv then
    fun s => match topology_lookup (topology s) c g with
             | Some l => (Ok l, s)
             | None => (Raise KeyError, s)
             end
  else raise (AttributeError "topology").

(** In-place mutation of the list object stored at [topology[c][g]]. *)
Definition topology_update (c : string) (g : Z) (f : list Z → list Z) : M unit :=
  modify (set_topology (fun t => topo_upd t c g f)).

(** [x in l] for a list of GUIDs. *)
Definition py_in (x : pyval) (l : list Z) : bool :=
  match x with
  | VInt z => bool_decide (z ∈ l)
  | _ => false
  end.

Definition as_int (v : pyval) : M Z :=
  match v with VInt z => ret z | _ => raise TypeError end.

(** [l.remove(x)] once the caller has tested [x in l]: the first
    occurrence goes. *)
Fixpoint list_remove (x : Z) (l : list Z) : list Z :=
  match l with
  | [] => []
  | y :: l' => if decide (x = y) then l' else y :: list_remove x l'
  end.

(** The f-string [f'{class_name}[{idx}]']. *)
Definition make_label (c : string) (i : N) : string :=
  c +:+ "[" +:+ pretty i +:+ "]".

(** ** class SimObject *)

(** [SimObject.add_to_sim]: both dictionaries are filled with
    [setdefault], so an entry that exists is left as it is. *)
Definition add_to_sim (self : Z) (sim : pyval) : M unit :=
  if negb (isinstance_Sim sim) then
    raise (ValueError "`sim` argument MUST be a Sim() object")
  else
    cn <- (v <- getattr (VObj self) "class_name" ;; as_str v) ;;
    g <- (v <- getattr (VObj self) "guid" ;; as_int v) ;;
    modify (set_topology (fun t => topo_setdefault t cn g)) ;;;
    modify (set_guid_map (fun gm =>
      match gm !! g with Some _ => gm | None => <[g := self]> gm end)) ;;;
    lbl <- getattr (VObj self) "label" ;;
    print [VStr "Sim["; VExt "sim.idx"; VStr "]: Added "; lbl; VStr " to ";
           VExt "sim.label"; VStr "."].

(** [SimObject.__init__(self, sim)]; [id(self)] is [self]. *)
Definition SimObject__init__ (self : Z) (sim : pyval) : M unit :=
  setattr self "guid" (VInt self) ;;;
  c <- class_of self ;;
  setattr self "class_name" (VStr c) ;;;
  i <- next_id_iter ;;
  setattr self "idx" (VInt (Z.of_N i)) ;;;
  setattr self "label" (VStr (make_label c i)) ;;;
  setattr self "sim" sim ;;;
  add_to_sim self sim ;;;
  has <- hasattr self "interval" ;;
  if has then ret tt
  else setattr self "interval" (VFloat 0.0).

(** [SimObject.register_link(self, other)].  The two adjacency lists are
    fetched before either is changed; they are references into the
    topology, so the second membership test sees the first append when
    both names denote the same list. *)
Definition register_link (self : Z) (other : pyval) : M unit :=
  if negb (isinstance_SimObject other) then
    raise (ValueError "`other` argument MUST be a SimObject() object")
  else
    self_sim <- getattr (VObj self) "sim" ;;
    if negb (isinstance_Sim self_sim) then
      raise (ValueError "`self.sim` MUST be a Sim() object")
    else
      self_cn <- (v <- getattr (VObj self) "class_name" ;; as_str v) ;;
      self_guid <- getattr (VObj self) "guid" ;;
      self_links_list <- topology_get self_sim self_cn self_guid ;;
      other_sim <- getattr other "sim" ;;
      other_cn <- (v <- getattr other "class_name" ;; as_str v) ;;
      other_guid <- getattr other "guid" ;;
      _ <- topology_get other_sim other_cn other_guid ;;
      sg <- as_int self_guid ;;
      og <- as_int other_guid ;;
      (if negb (py_in other_guid self_links_list) then
         topology_update self_cn sg (fun l => l ++ [og])%list
       else
         sl <- getattr (VObj self) "label" ;;
         ol <- getattr other "label" ;;
         print [sl; VStr ": "; ol; VStr " already exists in "; sl;
                VStr " topology list."]) ;;;
      other_links_list <- topology_get other_sim other_cn other_guid ;;
      (if negb (py_in self_guid other_links_list) then
         topology_update other_cn og (fun l => l ++ [sg])%list
       else
         sl <- getattr (VObj self) "label" ;;
         ol <- getattr other "label" ;;
         print [sl; VStr ": "; sl; VStr " already exists in "; ol;
                VStr " topology list."]).

(** [SimObject.deregister_link(self, other)], attribute for attribute:
    the method reads [self._sim], [other._sim] and [self._guid]. *)
Definition deregister_link (self : Z) (other : pyval) : M unit :=
  if negb (isinstance_SimObject other) then raise AssertionError
  else
    self_sim <- getattr (VObj self) "_sim" ;;
    self_cn <- (v <- getattr (VObj self) "class_name" ;; as_str v) ;;
    self_guid <- getattr (VObj self) "guid" ;;
    self_links <- topology_get self_sim self_cn self_guid ;;
    other_sim <- getattr other "_sim" ;;
    other_cn <- (v <- getattr other "class_name" ;; as_str v) ;;
    other_guid <- getattr other "guid" ;;
    _ <- topology_get other_sim other_cn other_guid ;;
    sg <- as_int self_guid ;;
    og <- as_int other_guid ;;
    (if py_in other_guid self_links then
       topology_update self_cn sg (list_remove og)
     else
       sl <- getattr (VObj self) "label" ;;
       ol <- getattr other "label" ;;
       print [sl; VStr ": "; ol; VStr " does not exist in "; sl;
              VStr " topology list."]) ;;;
    self_guid' <- getattr (VObj self) "_guid" ;;
    other_links <- topology_get other_sim other_cn other_guid ;;
    (if py_in self_guid' other_links then
       topology_update other_cn og (list_remove sg)
     else
       sl <- getattr (VObj self) "label" ;;
       ol <- getattr other "label" ;;
       print [sl; VStr ": "; sl; VStr " does not exist in "; ol;
              VStr " topology list."]).

(** The [power_model] property, getter. *)
Definition power_model (self : Z) : M pyval :=
  pm <- getattr (VObj self) "_power_model" ;;
  if is_None pm then
    c <- class_of self ;;
    i <- getattr (VObj self) "idx" ;;
    print [VStr c; VStr "["; i; VStr "]: No energy model found."] ;;;
    ret VNone
  else ret pm.

(** [isinstance(v, (int, float, Callable))]; a [bool] is an [int]. *)
Definition is_power_model_value (v : pyval) : bool :=
  match v with
  | VBool _ | VInt _ | VFloat _ | VCallable _ => true
  | _ => false
  end.

(** The [power_model] property, setter. *)
Definition set_power_model (self : Z) (new_power_model : pyval) : M unit :=
  if negb (is_power_model_value new_power_model) then
    raise (ValueError "power_model must be a constant or a function")
  else
    setattr self "_power_model" new_power_model ;;;
    c <- class_of self ;;
    i <- getattr (VObj self) "idx" ;;
    pm <- power_model self ;;
    print [VStr c; VStr "["; i; VStr "]: Power model set to "; pm].

(** ** Control flow and dict objects *)

Inductive flow : Type := Continue | Break.

(** A [for] loop whose body may [break]. *)
Fixpoint py_for {A} (xs : list A) (body : A → M flow) : M unit :=
  match xs with
  | [] => ret tt
  | x :: xs' =>
      f <- body x ;;
      match f with
      | Continue => py_for xs' body
      | Break => ret tt
      end
  end.

(** A [while] loop run for at most [fuel] tests of its condition. *)
Fixpoint py_while (fuel : nat) (cond : M bool) (body : M unit) : M unit :=
  match fuel with
  | O => ret tt
  | S n =>
      c <- cond ;;
      if c then body ;;; py_while n cond body else ret tt
  end.

(** [range(n)] *)
Definition range (n : Z) : list Z :=
  map Z.of_nat (seq 0 (Z.to_nat n)).

(** A new dict object with the given items. *)
Definition new_dict (items : list (string * pyval)) : M pyval :=
  d <- gets next_dict ;;
  modify (set_next_dict N.succ) ;;;
  modify (set_dicts (insert d items)) ;;;
  ret (VDict d).

Fixpoint assoc_get (k : string) (items : list (string * pyval)) : option pyval :=
  match items with
  | [] => None
  | (k', v) :: rest => if decide (k = k') then Some v else assoc_get k rest
  end.

(** Assignment keeps the position of a key that is present and
    appends a new one. *)
Fixpoint assoc_set (k : string) (v : pyval) (items : list (string * pyval))
    : list (string * pyval) :=
  match items with
  | [] => [(k, v)]
  | (k', v') :: rest =>
      if decide (k = k') then (k, v) :: rest else (k', v') :: assoc_set k v rest
  end.

(** [d[k]] *)
Definition dict_getitem (d : pyval) (k : string) : M pyval :=
  fun s =>
    match d with
    | VDict n =>
        match dicts s !! n ≫= assoc_get k with
        | Some v => (Ok v, s)
        | None => (Raise KeyError, s)
        end
    | _ => (Raise TypeError, s)
    end.

(** [d[k] = v] *)
Definition dict_setitem (d : pyval) (k : string) (v : pyval) : M unit :=
  match d with
  | VDict n => modify (set_dicts (fun h =>
      match h !! n with
      | Some items => <[n := assoc_set k v items]> h
      | None => h
      end))
  | _ => raise TypeError
  end.

(** The keys of [d] in iteration order. *)
Definition dict_keys (d : pyval) : M (list string) :=
  fun s =>
    match d with
    | VDict n =>
        match dicts s !! n with
        | Some items => (Ok (map fst items), s)
        | None => (Raise TypeError, s)
        end
    | _ => (Raise TypeError, s)
    end.

(** The comprehension [{key(i): value(i) for i in xs}]. *)
Definition dict_comprehension (xs : list Z) (key : Z → string) (value : Z → M pyval)
    : M pyval :=
  d <- new_dict [] ;;
  py_for xs (fun i => v <- value i ;; dict_setitem d (key i) v ;;; ret Continue) ;;;
  ret d.

(** [isinstance(v, C)] for a leaf class [C] of the module. *)
Definition isinstance_cls (v : pyval) (c : string) : M bool :=
  gets (fun s => match v with
                 | VObj a => match objects s !! a with
                             | Some ob => bool_decide (cls ob = c)
                             | None => false
                             end
                 | _ => false
                 end).

(** [==] on the values the code compares: GUID attributes, which hold
    [None] or an [id] integer. *)
Definition py_eq (x y : pyval) : bool :=
  match x, y with
  | VNone, VNone => true
  | VInt a, VInt b => bool_decide (a = b)
  | _, _ => false
  end.

(** Conversion of a natural number to the nearest float, ties to even.
    Below 2^63 the machine conversion does it.  Above, the top 62 bits
    are kept and one more bit records whether any lower bit is set, so
    that rounding the 63-bit number to the 53 bits of a float decides
    as it would for the whole number; the result is then scaled by the
    power of two that was shifted out, which is exact.  [None] stands
    for a result of 2^1024 or more, that no float holds. *)
Definition float_of_natural (a : Z) : option float :=
  if (a <? 2 ^ 63)%Z then Some (of_uint63 (Uint63.of_Z a))
  else
    let sh := (Z.log2 a - 61)%Z in
    let top := Z.shiftr a sh in
    let sticky := if (Z.land a (Z.ones sh) =? 0)%Z then 0%Z else 1%Z in
    let f := FloatOps.Z.ldexp (of_uint63 (Uint63.of_Z (2 * top + sticky))) (sh - 1) in
    if is_infinity f then None else Some f.

(** Conversion of a Python [int] operand in mixed arithmetic: ints are
    unbounded, the conversion rounds to the nearest float and raises
    [OverflowError] ([None] here) when the int is too large. *)
Definition float_of_int (z : Z) : option float :=
  if (z <? 0)%Z then PrimFloat.opp <$> float_of_natural (- z)
  else float_of_natural z.

(** One iteration of the loop [while True: yield self.sim.env.timeout(
    self.interval)] shared by the passive classes: it yields the timeout
    request and does nothing else.  The clock [env] belongs to the
    external scheduler, so the request is represented by its delay. *)
Definition default_loop_body (self : Z) : M pyval :=
  simv <- getattr (VObj self) "sim" ;;
  if isinstance_Sim simv then getattr (VObj self) "interval"
  else raise (AttributeError "env").

(** The first [n] resumptions of a generator with the given loop body:
    the values it yields. *)
Fixpoint run_loop {A} (n : nat) (body : M A) : M (list A) :=
  match n with
  | O => ret []
  | S k => y <- body ;; ys <- run_loop k body ;; ret (y :: ys)
  end.

(** ** class AIMMeeCell(AIMM_Cell, SimObject) *)

(** [AIMMeeCell.__init__].  The closing call of the initialiser of
    [AIMM_Cell] belongs to the external AIMM_simulator package; it does
    not touch the topology, the GUID map or the attributes set here. *)
Definition AIMMeeCell__init__ (self : Z) (sim : pyval) : M unit :=
  print [VStr "INIT of Cell(AIMMee)"] ;;;
  i <- next_id_iter ;;
  setattr self "idx" (VInt (Z.of_N i)) ;;;
  setattr self "sim" sim ;;;
  c <- class_of self ;;
  setattr self "label" (VStr (make_label c i)) ;;;
  setattr self "radius" (VFloat 0.0) ;;;
  self_sim <- getattr (VObj self) "sim" ;;
  SimObject__init__ self self_sim.

Definition new_AIMMeeCell (a : Z) (sim : pyval) : M pyval :=
  alloc "AIMMeeCell" a ;;;
  AIMMeeCell__init__ a sim ;;;
  ret (VObj a).

(** [cell.get_xyz()]: a method of the external [AIMM_Cell]; only cells
    have it. *)
Definition get_xyz (cell : pyval) : M pyval :=
  b <- isinstance_cls cell "AIMMeeCell" ;;
  if b then ret (VExt "xyz") else raise (AttributeError "get_xyz").

(** ** class RadioAccessPoint(SimObject) *)

(** [RadioAccessPoint.__init__] with [verbosity = 0] and no extra
    keyword arguments.  The position is a numpy value and is kept
    opaque. *)
Definition RadioAccessPoint__init__ (self : Z) (sim cell : pyval)
    (at_cell_centre : bool) (interval : float) : M unit :=
  print [VStr "INIT of RadioAccessPoint"] ;;;
  i <- next_id_iter ;;
  setattr self "idx" (VInt (Z.of_N i)) ;;;
  setattr self "sim" sim ;;;
  setattr self "cell" cell ;;;
  setattr self "interval" (VFloat interval) ;;;
  setattr self "at_cell_centre" (VBool at_cell_centre) ;;;
  self_sim <- getattr (VObj self) "sim" ;;
  SimObject__init__ self self_sim ;;;
  self_cell <- getattr (VObj self) "cell" ;;
  (if negb (is_None self_cell) then register_link self cell else ret tt) ;;;
  (if at_cell_centre then
     xyz <- get_xyz self_cell ;; setattr self "xyz" xyz
   else ret tt) ;;;
  xyz <- get_xyz self_cell ;;
  _ <- getattr self_cell "radius" ;;
  setattr self "xyz" xyz ;;;
  setattr self "verbosity" (VInt 0).

Definition new_RadioAccessPoint (a : Z) (sim cell : pyval)
    (at_cell_centre : bool) (interval : float) : M pyval :=
  alloc "RadioAccessPoint" a ;;;
  RadioAccessPoint__init__ a sim cell at_cell_centre interval ;;;
  ret (VObj a).

(** ** class RadioUnit(SimObject) *)

(** [RadioUnit.__init__] with [verbosity = 0]; the attribute [du] is
    set to [None] whatever the argument. *)
Definition RadioUnit__init__ (self : Z) (sim cell rap du : pyval) (interval : float)
    : M unit :=
  print [VStr "INIT of RadioUnit"] ;;;
  i <- next_id_iter ;;
  setattr self "idx" (VInt (Z.of_N i)) ;;;
  setattr self "sim" sim ;;;
  setattr self "cell" cell ;;;
  setattr self "verbosity" (VInt 0) ;;;
  setattr self "rap" rap ;;;
  setattr self "du" VNone ;;;
  setattr self "interval" (VFloat interval) ;;;
  self_sim <- getattr (VObj self) "sim" ;;
  SimObject__init__ self self_sim ;;;
  self_cell <- getattr (VObj self) "cell" ;;
  (if negb (is_None self_cell) then register_link self cell else ret tt) ;;;
  self_rap <- getattr (VObj self) "rap" ;;
  (if negb (is_None self_rap) then register_link self rap else ret tt) ;;;
  self_du <- getattr (VObj self) "du" ;;
  (if negb (is_None self_du) then register_link self du else ret tt).

Definition new_RadioUnit (a : Z) (sim cell rap du : pyval) (interval : float)
    : M pyval :=
  alloc "RadioUnit" a ;;;
  RadioUnit__init__ a sim cell rap du interval ;;;
  ret (VObj a).

(** [RadioAccessPoint.make_RadioUnit] *)
Definition RadioAccessPoint_make_RadioUnit (self : Z) (a : Z) (rap du : pyval)
    (interval : float) : M pyval :=
  self_sim <- getattr (VObj self) "sim" ;;
  self_cell <- getattr (VObj self) "cell" ;;
  new_object <- new_RadioUnit a self_sim self_cell rap du interval ;;
  register_link self new_object ;;;
  ret new_object.

(** ** class DistributedUnit(SimObject) *)

(** The keyword parameters of [example_DU_power_model]. *)
Record DU_power_params : Type := {
  P_supply_max : Z;
  n_cpu : Z;      P_cpu : float;
  ram_GB : Z;     P_ram_GB : float;
  n_gpu : Z;      P_gpu : float;
  n_accel : Z;    P_accel : float;
  n_asic : Z;     P_asic : float;
  n_nic : Z;      P_nic : float
}.

(** Their default values. *)
Definition DU_power_defaults : DU_power_params :=
  {| P_supply_max := 2100;
     n_cpu := 2;     P_cpu := 90.0;
     ram_GB := 384;  P_ram_GB := 0.375;
     n_gpu := 0;     P_gpu := 0.0;
     n_accel := 1;   P_accel := 52.0;
     n_asic := 1;    P_asic := 23.0;
     n_nic := 3;     P_nic := 75.0 |}.

(** The sum of products of [example_DU_power_model]; [None] when one
    of the counts is too large to convert. *)
Definition DU_power_consumption (p : DU_power_params) : option float :=
  cpu ← float_of_int (n_cpu p);
  ram ← float_of_int (ram_GB p);
  gpu ← float_of_int (n_gpu p);
  accel ← float_of_int (n_accel p);
  asic ← float_of_int (n_asic p);
  nic ← float_of_int (n_nic p);
  Some (cpu * P_cpu p + ram * P_ram_GB p + gpu * P_gpu p + accel * P_accel p
        + asic * P_asic p + nic * P_nic p)%float.

(** [DistributedUnit.example_DU_power_model].  The division converts
    its int operand before it tests it for zero. *)
Definition example_DU_power_model (self : Z) (p : DU_power_params) : M pyval :=
  match DU_power_consumption p with
  | None => raise OverflowError
  | Some power_consumption =>
      setattr self "power_consumption" (VFloat power_consumption) ;;;
      match float_of_int (P_supply_max p) with
      | None => raise OverflowError
      | Some supply =>
          if (P_supply_max p =? 0)%Z then raise ZeroDivisionError
          else
            setattr self "p_load" (VFloat (power_consumption / supply)) ;;;
            getattr (VObj self) "power_consumption"
      end
  end.

(** [DistributedUnit.__init__] *)
Definition DistributedUnit__init__ (self : Z) (sim : pyval) : M unit :=
  print [VStr "INIT of DistributedUnit"] ;;;
  i <- next_id_iter ;;
  setattr self "idx" (VInt (Z.of_N i)) ;;;
  setattr self "sim" sim ;;;
  self_sim <- getattr (VObj self) "sim" ;;
  SimObject__init__ self self_sim ;;;
  pm <- example_DU_power_model self DU_power_defaults ;;
  set_power_model self pm.

Definition new_DistributedUnit (a : Z) (sim : pyval) : M pyval :=
  alloc "DistributedUnit" a ;;;
  DistributedUnit__init__ a sim ;;;
  ret (VObj a).

(** [DistributedUnit.loop], one iteration. *)
Definition DistributedUnit_loop_body (self : Z) : M pyval :=
  default_loop_body self.

(** ** class CentralisedUnit(SimObject) *)

(** [CentralisedUnit.example_CU_power_model] *)
Definition example_CU_power_model (du_load : float) : float :=
  ((1 - du_load) * 656.25)%float.

(** [CentralisedUnit.__init__] *)
Definition CentralisedUnit__init__ (self : Z) (sim : pyval) : M unit :=
  print [VStr "INIT of CentralisedUnit"] ;;;
  i <- next_id_iter ;;
  setattr self "idx" (VInt (Z.of_N i)) ;;;
  setattr self "sim" sim ;;;
  setattr self "du" VNone ;;;
  self_sim <- getattr (VObj self) "sim" ;;
  SimObject__init__ self self_sim ;;;
  set_power_model self (VFloat (example_CU_power_model 0.0)).

Definition new_CentralisedUnit (a : Z) (sim : pyval) : M pyval :=
  alloc "CentralisedUnit" a ;;;
  CentralisedUnit__init__ a sim ;;;
  ret (VObj a).

(** [CentralisedUnit.attach_to_du]: the link is requested with
    [self.cu]. *)
Definition attach_to_du (self : Z) (du : pyval) : M unit :=
  b <- isinstance_cls du "DistributedUnit" ;;
  if negb b then raise AssertionError
  else
    setattr self "du" du ;;;
    self_cu <- getattr (VObj self) "cu" ;;
    register_link self self_cu ;;;
    sl <- getattr (VObj self) "label" ;;
    cl <- getattr self_cu "label" ;;
    print [sl; VStr ": Attached to "; cl; VStr "."].

(** [CentralisedUnit.loop], one iteration. *)
Definition CentralisedUnit_loop_body (self : Z) : M pyval :=
  default_loop_body self.

(** ** class RemoteRadioHead(SimObject) *)

Definition rf_port_key (i : Z) : string := "port[" +:+ pretty i +:+ "]".
Definition fh_port_key (i : Z) : string := "fh_port[" +:+ pretty i +:+ "]".

(** [RemoteRadioHead.make_rf_ports]: one fresh record per port. *)
Definition make_rf_ports (self : Z) (n_rf_ports : Z) : M pyval :=
  rf_port_dict <- dict_comprehension (range n_rf_ports) rf_port_key
    (fun _ => new_dict [("antenna_panel", VNone);
                        ("rf_output_max_watts", VFloat 20.0);
                        ("rf_output_watts", VFloat 0.0)]) ;;
  lbl <- getattr (VObj self) "label" ;;
  print [lbl; VStr "]: Antenna RF ports initialised"] ;;;
  ret rf_port_dict.

(** [RemoteRadioHead.make_fronthaul_ports]: every key is bound to the
    one dict held in [_default_port_params]. *)
Definition make_fronthaul_ports (self : Z) (n_ports : Z)
    (protocol data_rate_Gbps_max : pyval) : M unit :=
  params <- new_dict [("protocol", protocol);
                      ("data_rate_Gbps", VFloat 0.0);
                      ("data_rate_Gbps_max", VFloat 10.0)] ;;
  setattr self "_default_port_params" params ;;;
  ports <- dict_comprehension (range n_ports) fh_port_key
    (fun _ => getattr (VObj self) "_default_port_params") ;;
  setattr self "_fronthaul_ports" ports ;;;
  lbl <- getattr (VObj self) "label" ;;
  print [lbl; VStr "]: Fronthaul interface initialised"].

(** [RemoteRadioHead.get_fronthaul_port(protocol, i)] *)
Definition get_fronthaul_port (self : Z) (i : Z) : M pyval :=
  ports <- getattr (VObj self) "_fronthaul_ports" ;;
  dict_getitem ports (fh_port_key i).

(** The [fronthaul_ports] argument, a dict with exactly these keys. *)
Record fronthaul_ports_arg : Type := {
  fh_n_ports : Z;
  fh_protocol : pyval;
  fh_data_rate_Gbps_max : pyval
}.

Definition fronthaul_ports_default : fronthaul_ports_arg :=
  {| fh_n_ports := 2; fh_protocol := VStr "CPRI";
     fh_data_rate_Gbps_max := VFloat 10.0 |}.

(** [RemoteRadioHead.__init__] with [verbosity = 0]; the attribute [du]
    is set to [None] whatever the argument. *)
Definition RemoteRadioHead__init__ (self : Z) (sim rap ru du : pyval)
    (n_rf_ports : Z) (fronthaul_ports : fronthaul_ports_arg) : M unit :=
  print [VStr "INIT of RemoteRadioHead"] ;;;
  i <- next_id_iter ;;
  setattr self "idx" (VInt (Z.of_N i)) ;;;
  setattr self "sim" sim ;;;
  setattr self "cell" VNone ;;;
  setattr self "rap" rap ;;;
  setattr self "ru" ru ;;;
  setattr self "du" VNone ;;;
  self_sim <- getattr (VObj self) "sim" ;;
  SimObject__init__ self self_sim ;;;
  setattr self "n_rf_ports" (VInt n_rf_ports) ;;;
  (if (n_rf_ports >? 0)%Z then
     ports <- make_rf_ports self n_rf_ports ;; setattr self "rf_ports" ports
   else
     ports <- make_rf_ports self 2 ;; setattr self "rf_ports" ports) ;;;
  make_fronthaul_ports self (fh_n_ports fronthaul_ports)
    (fh_protocol fronthaul_ports) (fh_data_rate_Gbps_max fronthaul_ports) ;;;
  setattr self "verbosity" (VInt 0) ;;;
  self_rap <- getattr (VObj self) "rap" ;;
  (if negb (is_None self_rap) then
     rap_cell <- getattr self_rap "cell" ;;
     setattr self "cell" rap_cell ;;;
     self_cell <- getattr (VObj self) "cell" ;;
     register_link self self_cell
   else ret tt) ;;;
  self_ru <- getattr (VObj self) "ru" ;;
  (if negb (is_None self_ru) then register_link self self_ru else ret tt) ;;;
  self_du <- getattr (VObj self) "du" ;;
  (if negb (is_None self_du) then register_link self self_du else ret tt).

Definition new_RemoteRadioHead (a : Z) (sim rap ru du : pyval)
    (n_rf_ports : Z) (fronthaul_ports : fronthaul_ports_arg) : M pyval :=
  alloc "RemoteRadioHead" a ;;;
  RemoteRadioHead__init__ a sim rap ru du n_rf_ports fronthaul_ports ;;;
  ret (VObj a).

(** ** class AntennaPanel(SimObject) *)

(** [AntennaPanel.__init__]; the argument [rrh] is not used. *)
Definition AntennaPanel__init__ (self : Z) (sim rrh xyz azimuth elevation pattern : pyval)
    : M unit :=
  print [VStr "INIT of AntennaPanel"] ;;;
  setattr self "sim" sim ;;;
  setattr self "xyz" xyz ;;;
  setattr self "azimuth" azimuth ;;;
  setattr self "elevation" elevation ;;;
  setattr self "pattern" pattern ;;;
  self_sim <- getattr (VObj self) "sim" ;;
  SimObject__init__ self self_sim.

Definition new_AntennaPanel (a : Z) (sim rrh xyz azimuth elevation pattern : pyval)
    : M pyval :=
  alloc "AntennaPanel" a ;;;
  AntennaPanel__init__ a sim rrh xyz azimuth elevation pattern ;;;
  ret (VObj a).

(** [RemoteRadioHead.make_AntennaPanel] with the default keyword
    arguments; [a] is the [id] of the new panel.  The [raise] is the
    last statement of the loop body. *)
Definition make_AntennaPanel (self : Z) (a : Z) : M pyval :=
  self_sim <- getattr (VObj self) "sim" ;;
  ap <- new_AntennaPanel a self_sim (VObj self) (VExt "xyz") (VFloat 0.0)
          (VFloat 0.0) VNone ;;
  self_sim <- getattr (VObj self) "sim" ;;
  add_to_sim self self_sim ;;;
  register_link self ap ;;;
  b <- isinstance_cls ap "AntennaPanel" ;;
  if b then
    rf_ports <- getattr (VObj self) "rf_ports" ;;
    keys <- dict_keys rf_ports ;;
    py_for keys (fun i =>
      port <- dict_getitem rf_ports i ;;
      occupant <- dict_getitem port "antenna_panel" ;;
      if is_None occupant then
        dict_setitem port "antenna_panel" ap ;;;
        sl <- getattr (VObj self) "label" ;;
        al <- getattr ap "label" ;;
        print [sl; VStr ": "; al; VStr " connected to "; sl; VStr "."] ;;;
        ret Break
      else
        sl <- (v <- getattr (VObj self) "label" ;; as_str v) ;;
        raise (Exception_ (sl +:+ ": No free antenna ports available."))) ;;;
    ret ap
  else ret VNone.

(** ** class AIMMeeUE(AIMM_UE, SimObject) *)

(** The closing call of [AIMMeeUE.__init__] runs the initialiser of the
    external class [AIMM_UE].  Of what it sets, the code below reads the
    serving cell (none until the UE attaches) and the reporting
    interval. *)
Definition AIMM_UE__init__ (self : Z) (reporting_interval : float) : M unit :=
  setattr self "serving_cell" VNone ;;;
  setattr self "reporting_interval" (VFloat reporting_interval).

(** [AIMMeeUE.__init__] *)
Definition AIMMeeUE__init__ (self : Z) (sim : pyval) (reporting_interval : float)
    : M unit :=
  print [VStr "INIT of AIMMeeUE"] ;;;
  setattr self "guid" (VInt self) ;;;
  i <- next_id_iter ;;
  setattr self "idx" (VInt (Z.of_N i)) ;;;
  setattr self "sim" sim ;;;
  setattr self "last_cell_guid" VNone ;;;
  setattr self "current_cell_guid" VNone ;;;
  self_sim <- getattr (VObj self) "sim" ;;
  SimObject__init__ self self_sim ;;;
  AIMM_UE__init__ self reporting_interval.

Definition new_AIMMeeUE (a : Z) (sim : pyval) (reporting_interval : float) : M pyval :=
  alloc "AIMMeeUE" a ;;;
  AIMMeeUE__init__ a sim reporting_interval ;;;
  ret (VObj a).

(** The attachment decision of the external mobility code, as far as
    this module sees it: [serving_cell] is rebound. *)
Definition attach (self : Z) (cell : pyval) : M unit :=
  setattr self "serving_cell" cell.

(** [AIMMeeUE.update_cell_guid] *)
Definition update_cell_guid (self : Z) : M unit :=
  serving_cell <- getattr (VObj self) "serving_cell" ;;
  serving_guid <- getattr serving_cell "guid" ;;
  current <- getattr (VObj self) "current_cell_guid" ;;
  if py_eq serving_guid current then ret tt
  else
    current <- getattr (VObj self) "current_cell_guid" ;;
    setattr self "last_cell_guid" current ;;;
    serving_cell <- getattr (VObj self) "serving_cell" ;;
    serving_guid <- getattr serving_cell "guid" ;;
    setattr self "current_cell_guid" serving_guid.

(** [while x in topology[c][k]: topology[c][k].remove(x)], the
    condition and the body reading the attributes anew each time.  A
    list of length n is emptied of [x] within n removals, so n + 1
    tests of the condition always reach its exit. *)
Definition remove_while_present (self : Z) (x_attr : string) (c : string)
    (k_attr : string) : M unit :=
  x0 <- getattr (VObj self) x_attr ;;
  simv0 <- getattr (VObj self) "sim" ;;
  k0 <- getattr (VObj self) k_attr ;;
  l0 <- topology_get simv0 c k0 ;;
  py_while (S (length l0))
    (x <- getattr (VObj self) x_attr ;;
     simv <- getattr (VObj self) "sim" ;;
     k <- getattr (VObj self) k_attr ;;
     l <- topology_get simv c k ;;
     ret (py_in x l))
    (simv <- getattr (VObj self) "sim" ;;
     k <- getattr (VObj self) k_attr ;;
     _ <- topology_get simv c k ;;
     x <- getattr (VObj self) x_attr ;;
     kz <- as_int k ;;
     xz <- as_int x ;;
     topology_update c kz (list_remove xz)).

(** [if x not in topology[c][k]: topology[c][k].append(x)] *)
Definition append_if_absent (self : Z) (x_attr : string) (c : string)
    (k_attr : string) : M unit :=
  x <- getattr (VObj self) x_attr ;;
  simv <- getattr (VObj self) "sim" ;;
  k <- getattr (VObj self) k_attr ;;
  l <- topology_get simv c k ;;
  if negb (py_in x l) then
    simv <- getattr (VObj self) "sim" ;;
    k <- getattr (VObj self) k_attr ;;
    _ <- topology_get simv c k ;;
    x <- getattr (VObj self) x_attr ;;
    kz <- as_int k ;;
    match x with
    | VInt xz => topology_update c kz (fun l => l ++ [xz])%list
    | _ => raise TypeError
    end
  else ret tt.

(** [AIMMeeUE.update_ue_topology] *)
Definition update_ue_topology (self : Z) : M unit :=
  g <- getattr (VObj self) "guid" ;;
  if py_eq g VNone then ret tt
  else
    last <- getattr (VObj self) "last_cell_guid" ;;
    current <- getattr (VObj self) "current_cell_guid" ;;
    if negb (py_eq last current) then
      last <- getattr (VObj self) "last_cell_guid" ;;
      (if negb (is_None last) then
         remove_while_present self "guid" "AIMMeeCell" "last_cell_guid" ;;;
         remove_while_present self "last_cell_guid" "AIMMeeUE" "guid"
       else ret tt) ;;;
      append_if_absent self "guid" "AIMMeeCell" "current_cell_guid" ;;;
      append_if_absent self "current_cell_guid" "AIMMeeUE" "guid"
    else ret tt.

(** One iteration of [AIMMeeUE.loop].  [f_callback] is the optional
    user callback; the two report senders belong to [AIMM_UE] and
    address the radio model only.  The iteration yields the timeout
    request for [reporting_interval]. *)
Definition AIMMeeUE_loop_body (f_callback : option (Z → M unit)) (self : Z) : M pyval :=
  match f_callback with
  | Some f => f self
  | None => ret tt
  end ;;;
  update_cell_guid self ;;;
  update_ue_topology self ;;;
  simv <- getattr (VObj self) "sim" ;;
  if isinstance_Sim simv then getattr (VObj self) "reporting_interval"
  else raise (AttributeError "env").

(** ** The factories of class Sim *)

(** [Sim.make_cell]; the cell position bookkeeping is numpy state of
    the external base class. *)
Definition make_cell (a : Z) : M pyval :=
  c <- new_AIMMeeCell a VSim ;;
  modify (set_cells (fun l => l ++ [a])%list) ;;;
  ret c.

(** [Sim.make_UE] *)
Definition make_UE (a : Z) (reporting_interval : float) : M pyval :=
  u <- new_AIMMeeUE a VSim reporting_interval ;;
  modify (set_UEs (fun l => l ++ [a])%list) ;;;
  ret u.

(** [Sim.make_RadioAccessPoint] *)
Definition make_RadioAccessPoint (a : Z) (cell : pyval) (at_cell_centre : bool)
    (interval : float) : M pyval :=
  r <- new_RadioAccessPoint a VSim cell at_cell_centre interval ;;
  modify (set_raps (fun l => l ++ [a])%list) ;;;
  ret r.

(** [Sim.make_RadioUnit] *)
Definition make_RadioUnit (a : Z) (cell rap du : pyval) (interval : float) : M pyval :=
  r <- new_RadioUnit a VSim cell rap du interval ;;
  modify (set_rus (fun l => l ++ [a])%list) ;;;
  ret r.

(** [Sim.make_RemoteRadioHead] *)
Definition make_RemoteRadioHead (a : Z) (rap ru du : pyval) (n_rf_ports : Z)
    (fronthaul_ports : fronthaul_ports_arg) : M pyval :=
  r <- new_RemoteRadioHead a VSim rap ru du n_rf_ports fronthaul_ports ;;
  modify (set_rrhs (fun l => l ++ [a])%list) ;;;
  ret r.

(** The adjacency list of the node of class [c] and GUID [g]. *)
Definition neighbors (s : State) (c : string) (g : Z) : option (list Z) :=
  topo_get (topology s) c g.

(** Attribute [name] of the instance [a], if it has one. *)
Definition attr_of (s : State) (a : Z) (name : string) : option pyval :=
  objects s !! a ≫= (fun ob => attrs ob !! name).

(** [run m s] is [m s]; the name marks the program being evaluated. *)
Definition run {A} (m : M A) (s : State) : result A * State := m s.

(** ** Scenarios used in the examples *)

(** Two cells, then a link between them. *)
Definition two_cells : State :=
  exec (make_cell 1 ;;; make_cell 2) Sim__init__.

Definition two_cells_linked : State :=
  exec (register_link 1 (VObj 2)) two_cells.

(** A cell, a RadioAccessPoint in it and a RemoteRadioHead with two RF
    ports at that access point. *)
Definition rrh_site : State :=
  exec (c <- make_cell 100 ;;
        r <- make_RadioAccessPoint 200 c true 1.0 ;;
        make_RemoteRadioHead 300 r VNone VNone 2 fronthaul_ports_default)
       Sim__init__.

(** A DistributedUnit whose load is 0.4 (624 W of a 1560 W supply) and
    a CentralisedUnit to which it has been attached. *)
Definition cu_with_du : State :=
  exec (du <- new_DistributedUnit 10 VSim ;;
        example_DU_power_model 10
          {| P_supply_max := 1560;
             n_cpu := 2;     P_cpu := 90.0;
             ram_GB := 384;  P_ram_GB := 0.375;
             n_gpu := 0;     P_gpu := 0.0;
             n_accel := 1;   P_accel := 52.0;
             n_asic := 1;    P_asic := 23.0;
             n_nic := 3;     P_nic := 75.0 |} ;;;
        new_CentralisedUnit 20 VSim ;;;
        attach_to_du 20 du)
       Sim__init__.

(** A DistributedUnit given the constant power model 10.0 and the
    interval 1.0, and the first five iterations of its loop. *)
Definition du_ten_watts : State :=
  exec (new_DistributedUnit 1 VSim ;;;
        set_power_model 1 (VFloat 10.0) ;;;
        setattr 1 "interval" (VFloat 1.0))
       Sim__init__.

Definition five_ticks : M (list pyval) :=
  run_loop 5 (DistributedUnit_loop_body 1).

(** ** Specifications of programs *)

(** [hoare P m Q E]: from a state in [P], the program [m] either
    returns a value [a] in a state satisfying [Q a], or raises [e] in a
    state satisfying [E e].  Programs of [M] always do one of the two. *)
Definition hoare {A} (P : State → Prop) (m : M A) (Q : A → State → Prop)
    (E : exn → State → Prop) : Prop :=
  ∀ s, P s → match m s with
             | (Ok a, s') => Q a s'
             | (Raise e, s') => E e s'
             end.

(** [m] keeps the state inside [I], whether it returns or raises. *)
Definition preserves {A} (I : State → Prop) (m : M A) : Prop :=
  hoare I m (fun _ => I) (fun _ => I).

(** [m] only reads the state. *)
Definition reader {A} (m : M A) : Prop := ∀ s, (m s).2 = s.

(** ** Well-formed states *)

(** The node of class [c] and GUID [g] has an adjacency entry. *)
Definition registered (s : State) (c : string) (g : Z) : Prop :=
  is_Some (neighbors s c g).

(** Wherever an instance has a [guid] attribute, it is its [id]. *)
Definition guid_is_id (s : State) : Prop :=
  ∀ a ob v, objects s !! a = Some ob → attrs ob !! "guid" = Some v → v = VInt a.

(** Wherever an instance has a [class_name] attribute, it names its class. *)
Definition class_name_is_class (s : State) : Prop :=
  ∀ a ob v, objects s !! a = Some ob → attrs ob !! "class_name" = Some v →
            v = VStr (cls ob).

(** No instance has an attribute [_sim]. *)
Definition no_private_sim (s : State) : Prop :=
  ∀ a ob, objects s !! a = Some ob → attrs ob !! "_sim" = None.

(** No instance has an attribute [accumulated_joules]. *)
Definition no_accumulator (s : State) : Prop :=
  ∀ a ob, objects s !! a = Some ob → attrs ob !! "accumulated_joules" = None.

(** A registered node is a stored instance of the class it is filed under. *)
Definition registered_are_objects (s : State) : Prop :=
  ∀ c g, registered s c g → ∃ ob, objects s !! g = Some ob ∧ cls ob = c.

(** Every GUID in an adjacency list is the GUID of a registered node. *)
Definition links_closed (s : State) : Prop :=
  ∀ c g l x, neighbors s c g = Some l → x ∈ l → ∃ c', registered s c' x.

(** Link symmetry: for registered nodes A and B, B's GUID is in A's
    adjacency list exactly when A's GUID is in B's. *)
Definition link_symmetric (s : State) : Prop :=
  ∀ cA gA lA cB gB lB,
    neighbors s cA gA = Some lA → neighbors s cB gB = Some lB →
    (gB ∈ lA ↔ gA ∈ lB).

(** The node stored under a key of the GUID map has that key as GUID. *)
Definition guid_map_sound (s : State) : Prop :=
  ∀ k a, guid_map s !! k = Some a → attr_of s a "guid" = Some (VInt k).

(** The members of [sim.UEs] are registered as [AIMMeeUE] nodes. *)
Definition UEs_registered (s : State) : Prop :=
  ∀ a, a ∈ UEs s → registered s "AIMMeeUE" a.

Record WF (s : State) : Prop := MkWF {
  wf_guid : guid_is_id s;
  wf_class : class_name_is_class s;
  wf_no_sim : no_private_sim s;
  wf_no_acc : no_accumulator s;
  wf_reg : registered_are_objects s;
  wf_closed : links_closed s;
  wf_sym : link_symmetric s;
  wf_gmap : guid_map_sound s;
  wf_ues : UEs_registered s
}.

(** GUID uniqueness: two distinct nodes of the GUID map have distinct
    [guid] attributes. *)
Definition guid_unique (s : State) : Prop :=
  ∀ k1 k2 a1 a2,
    guid_map s !! k1 = Some a1 → guid_map s !! k2 = Some a2 → a1 ≠ a2 →
    attr_of s a1 "guid" ≠ attr_of s a2 "guid".

(** [l.append(x)] guarded by [x not in l]. *)
Definition append_new (x : Z) (l : list Z) : list Z :=
  if decide (x ∈ l) then l else l ++ [x].

(** The topology once the nodes (cs, gs) and (co, go) are linked. *)
Definition link_topology (t : gmap string (gmap Z (list Z))) (cs : string) (gs : Z)
    (co : string) (go : Z) : gmap string (gmap Z (list Z)) :=
  topo_upd (topo_upd t cs gs (append_new go)) co go (append_new gs).

(** The state once the node (cn, g), stored at [self], is filed in the
    topology and in the GUID map. *)
Definition registered_state (s : State) (cn : string) (g self : Z) : State :=
  set_guid_map (fun gm => match gm !! g with Some _ => gm | None => <[g := self]> gm end)
    (set_topology (fun t => topo_setdefault t cn g) s).

(** [s'] differs from [s] in the topology and the printed lines at most. *)
Definition same_but_topology (s s' : State) : Prop :=
  guid_map s' = guid_map s ∧ cells s' = cells s ∧ UEs s' = UEs s ∧
  raps s' = raps s ∧ rus s' = rus s ∧ rrhs s' = rrhs s ∧
  objects s' = objects s ∧ dicts s' = dicts s ∧ next_dict s' = next_dict s ∧
  id_iter s' = id_iter s.

(** The facts read by [register_link] when it reaches its updates. *)
Definition link_facts (s : State) (self : Z) (other : pyval)
    (cs : string) (gs : Z) (co : string) (go : Z) : Prop :=
  ∃ b ob_s ob_o,
    other = VObj b ∧
    objects s !! self = Some ob_s ∧
    attrs ob_s !! "class_name" = Some (VStr cs) ∧
    attrs ob_s !! "guid" = Some (VInt gs) ∧
    objects s !! b = Some ob_o ∧
    attrs ob_o !! "class_name" = Some (VStr co) ∧
    attrs ob_o !! "guid" = Some (VInt go) ∧
    registered s cs gs ∧ registered s co go.

(** [pr] changes the printed lines at most. *)
Definition prints_only {A} (pr : M A) : Prop :=
  ∀ s r s', pr s = (r, s') → same_but_topology s s' ∧ topology s' = topology s.

(** The attribute names on which well-formedness does not depend. *)
Definition plain_attr (n : string) : Prop :=
  n ≠ "guid" ∧ n ≠ "class_name" ∧ n ≠ "_sim" ∧ n ≠ "accumulated_joules".

(** ** Calls made on a simulation *)

(** The calls a client of the module can make: the factories (with the
    [id] the new instance receives) and the methods. *)
Inductive call : Type :=
| CMakeCell (a : Z)
| CMakeUE (a : Z) (reporting_interval : float)
| CMakeRadioAccessPoint (a : Z) (cell : pyval) (at_cell_centre : bool) (interval : float)
| CMakeRadioUnit (a : Z) (cell rap du : pyval) (interval : float)
| CMakeRemoteRadioHead (a : Z) (rap ru du : pyval) (n_rf_ports : Z)
    (fronthaul_ports : fronthaul_ports_arg)
| CNewDistributedUnit (a : Z)
| CNewCentralisedUnit (a : Z)
| CRapMakeRadioUnit (self a : Z) (rap du : pyval) (interval : float)
| CMakeAntennaPanel (self a : Z)
| CAddToSim (self : Z)
| CRegisterLink (self : Z) (other : pyval)
| CDeregisterLink (self : Z) (other : pyval)
| CAttachToDU (self : Z) (du : pyval)
| CSetPowerModel (self : Z) (v : pyval)
| CGetPowerModel (self : Z)
| CAttach (ue : Z) (cell : pyval)
| CUpdateCellGuid (ue : Z)
| CUpdateUETopology (ue : Z)
| CUELoop (ue : Z) (n : nat)
| CLoop (self : Z) (n : nat).

Definition discard {A} (m : M A) : M unit := m ;;; ret tt.

Definition do_call (c : call) : M unit :=
  match c with
  | CMakeCell a => discard (make_cell a)
  | CMakeUE a ri => discard (make_UE a ri)
  | CMakeRadioAccessPoint a cell acc itv => discard (make_RadioAccessPoint a cell acc itv)
  | CMakeRadioUnit a cell rap du itv => discard (make_RadioUnit a cell rap du itv)
  | CMakeRemoteRadioHead a rap ru du n fh =>
      discard (make_RemoteRadioHead a rap ru du n fh)
  | CNewDistributedUnit a => discard (new_DistributedUnit a VSim)
  | CNewCentralisedUnit a => discard (new_CentralisedUnit a VSim)
  | CRapMakeRadioUnit self a rap du itv =>
      discard (RadioAccessPoint_make_RadioUnit self a rap du itv)
  | CMakeAntennaPanel self a => discard (make_AntennaPanel self a)
  | CAddToSim self => add_to_sim self VSim
  | CRegisterLink self other => register_link self other
  | CDeregisterLink self other => deregister_link self other
  | CAttachToDU self du => attach_to_du self du
  | CSetPowerModel self v => set_power_model self v
  | CGetPowerModel self => discard (power_model self)
  | CAttach ue cell => attach ue cell
  | CUpdateCellGuid ue => update_cell_guid ue
  | CUpdateUETopology ue => update_ue_topology ue
  | CUELoop ue n => discard (run_loop n (AIMMeeUE_loop_body None ue))
  | CLoop self n => discard (run_loop n (default_loop_body self))
  end.

(** What Python guarantees of a call: a new instance gets an [id] that
    no live instance has, and the methods of class [AIMMeeUE] are
    called on the UEs of the simulation. *)
Definition call_ok (s : State) (c : call) : Prop :=
  match c with
  | CMakeCell a | CMakeUE a _ | CMakeRadioAccessPoint a _ _ _
  | CMakeRadioUnit a _ _ _ _ | CMakeRemoteRadioHead a _ _ _ _ _
  | CNewDistributedUnit a | CNewCentralisedUnit a
  | CRapMakeRadioUnit _ a _ _ _ | CMakeAntennaPanel _ a => objects s !! a = None
  | CAttach ue _ | CUpdateCellGuid ue | CUpdateUETopology ue | CUELoop ue _ =>
      ue ∈ UEs s
  | _ => True
  end.

(** The states a simulation goes through. *)
Inductive reachable : State → Prop :=
| reachable_init : reachable Sim__init__
| reachable_call s c : reachable s → call_ok s c → reachable (exec (do_call c) s).

(** What [while x in l: l.remove(x)] leaves of [l]. *)
Definition remove_all (x : Z) (l : list Z) : list Z :=
  filter (fun y => y ≠ x) l.

(** The same for a tested value of any type: only an integer can be
    in the list. *)
Definition remove_value (x : pyval) (l : list Z) : list Z :=
  match x with
  | VInt z => remove_all z l
  | _ => l
  end.

(** The topology once the edge between (c1, g1) and (c2, g2) is
    removed on both sides. *)
Definition unlink_topology (t : gmap string (gmap Z (list Z))) (c1 : string) (g1 : Z)
    (c2 : string) (g2 : Z) : gmap string (gmap Z (list Z)) :=
  topo_upd (topo_upd t c1 g1 (remove_all g2)) c2 g2 (remove_all g1).

(** A sequence of calls, from left to right. *)
Definition run_calls (cs : list call) (s : State) : State :=
  foldl (fun s c => exec (do_call c) s) s cs.

(** A small deployment built by the factories: two cells, an access
    point, a radio unit and a remote radio head with two antenna
    panels requested, and a UE that attaches to the first cell, ticks,
    moves to the second cell and ticks again. *)
Definition deployment_calls : list call :=
  [ CMakeCell 100; CMakeCell 101;
    CMakeRadioAccessPoint 200 (VObj 100) true 1.0;
    CMakeRadioUnit 250 (VObj 100) (VObj 200) VNone 1.0;
    CMakeRemoteRadioHead 300 (VObj 200) (VObj 250) VNone 2 fronthaul_ports_default;
    CMakeAntennaPanel 300 400; CMakeAntennaPanel 300 401;
    CNewDistributedUnit 500; CNewCentralisedUnit 600;
    CMakeUE 700 1.0;
    CAttach 700 (VObj 100); CUELoop 700 1;
    CAttach 700 (VObj 101); CUELoop 700 2;
    CRegisterLink 500 (VObj 600); CDeregisterLink 500 (VObj 600);
    CLoop 500 5 ].

Definition deployment : State := run_calls deployment_calls Sim__init__.

(** [call_ok] along a sequence of calls, as a test. *)
Fixpoint calls_ok (cs : list call) (s : State) : bool :=
  match cs with
  | [] => true
  | c :: cs' =>
      match c with
      | CMakeCell a | CMakeUE a _ | CMakeRadioAccessPoint a _ _ _
      | CMakeRadioUnit a _ _ _ _ | CMakeRemoteRadioHead a _ _ _ _ _
      | CNewDistributedUnit a | CNewCentralisedUnit a
      | CRapMakeRadioUnit _ a _ _ _ | CMakeAntennaPanel _ a =>
          bool_decide (objects s !! a = None)
      | CAttach ue _ | CUpdateCellGuid ue | CUpdateUETopology ue | CUELoop ue _ =>
          bool_decide (ue ∈ UEs s)
      | _ => true
      end && calls_ok cs' (exec (do_call c) s)
  end.

(** The panel whose [id] is [a] is filed in the topology and in the
    GUID map. *)
Definition panel_registered (s : State) (a : Z) : Prop :=
  registered s "AntennaPanel" a ∧ is_Some (guid_map s !! a).

(** The occupant of RF port [i] of the RemoteRadioHead [rrh]:
    [rrh.rf_ports[f'port[{i}]']['antenna_panel']]. *)
Definition rf_port_occupant (s : State) (rrh : Z) (i : Z) : option pyval :=
  match attr_of s rrh "rf_ports" with
  | Some (VDict d) =>
      match dicts s !! d ≫= assoc_get (rf_port_key i) with
      | Some (VDict p) => dicts s !! p ≫= assoc_get "antenna_panel"
      | _ => None
      end
  | _ => None
  end.

(** Three successive [make_AntennaPanel] calls on the two-port
    RemoteRadioHead of [rrh_site]. *)
Definition one_panel : State := exec (make_AntennaPanel 300 400) rrh_site.
Definition two_panels : State := exec (make_AntennaPanel 300 401) one_panel.
Definition three_panels : State := exec (make_AntennaPanel 300 402) two_panels.

(** The record of a fronthaul port. *)
Definition fronthaul_record (protocol : pyval) : list (string * pyval) :=
  [("protocol", protocol); ("data_rate_Gbps", VFloat 0.0);
   ("data_rate_Gbps_max", VFloat 10.0)].

(** The fronthaul ports of [self]: one record, held in
    [_default_port_params], to which every key of [_fronthaul_ports]
    for an index below [n] is bound. *)
Definition fronthaul_ports_ok (s : State) (self : Z) (protocol : pyval) (n : Z) : Prop :=
  ∃ d d2 items,
    attr_of s self "_default_port_params" = Some (VDict d) ∧
    attr_of s self "_fronthaul_ports" = Some (VDict d2) ∧
    dicts s !! d = Some (fronthaul_record protocol) ∧
    dicts s !! d2 = Some items ∧
    ∀ i, 0 ≤ i < n → assoc_get (fh_port_key i) items = Some (VDict d).

(** A property of the state that only the instances and the dict
    objects can affect. *)
Definition on_objects_and_dicts (I : State → Prop) : Prop :=
  ∀ s s', objects s' = objects s → dicts s' = dicts s → I s → I s'.

(** The instance [a] exists. *)
Definition has_instance (s : State) (a : Z) : Prop := is_Some (objects s !! a).

(** [make_fronthaul_ports] while it fills [_fronthaul_ports]: the dict
    [d2] under construction binds the keys of the indices in [filled]
    to the record [d]. *)
Definition fronthaul_filled (s : State) (self : Z) (protocol : pyval)
    (d d2 : N) (filled : list Z) : Prop :=
  attr_of s self "_default_port_params" = Some (VDict d) ∧
  dicts s !! d = Some (fronthaul_record protocol) ∧ d ≠ d2 ∧
  ∃ items, dicts s !! d2 = Some items ∧
    ∀ i, i ∈ filled → assoc_get (fh_port_key i) items = Some (VDict d).

(** A RemoteRadioHead for which a maximal data rate of 25 Gbps is
    requested, at the access point of a cell. *)
Definition rap_site : State :=
  exec (c <- make_cell 100 ;; make_RadioAccessPoint 200 c true 1.0) Sim__init__.

Definition ecpri_ports : fronthaul_ports_arg :=
  {| fh_n_ports := 3; fh_protocol := VStr "eCPRI";
     fh_data_rate_Gbps_max := VFloat 25.0 |}.

Definition ecpri_site : State :=
  exec (new_RemoteRadioHead 300 VSim (VObj 200) VNone VNone 2 ecpri_ports) rap_site.

(** A UE that has ticked once in the first of two cells and has just
    been attached to the second. *)
Definition ue_before_handover : State :=
  run_calls [ CMakeCell 100; CMakeCell 101; CMakeUE 700 1.0;
              CAttach 700 (VObj 100); CUELoop 700 1;
              CAttach 700 (VObj 101) ] Sim__init__.

(** ** Properties kept by every update *)

(** The attribute names assigned somewhere in the module. *)
Definition written_names : list string :=
  [ "guid"; "class_name"; "idx"; "label"; "sim"; "interval"; "radius"; "cell";
    "at_cell_centre"; "xyz"; "verbosity"; "rap"; "ru"; "du"; "power_consumption";
    "p_load"; "_power_model"; "n_rf_ports"; "rf_ports"; "_default_port_params";
    "_fronthaul_ports"; "azimuth"; "elevation"; "pattern"; "last_cell_guid";
    "current_cell_guid"; "serving_cell"; "reporting_interval" ].

(** [I] depends on the topology, the GUID map and the instances only,
    and is kept by the elementary updates the module makes of them: the
    creation of an instance with a fresh [id], the assignment of one of
    the attributes above, the registration of a node, a guarded append
    to an adjacency list and the removal of a GUID from one. *)
Record stable (I : State → Prop) : Prop := MkStable {
  st_frame : ∀ s s',
    topology s' = topology s → guid_map s' = guid_map s → objects s' = objects s →
    I s → I s';
  st_alloc : ∀ c a s, objects s !! a = None → I s → I (exec (alloc c a) s);
  st_setattr : ∀ a n v s, n ∈ written_names → I s → I (exec (setattr a n v) s);
  st_register : ∀ s ob cn g self,
    objects s !! self = Some ob →
    attrs ob !! "class_name" = Some (VStr cn) → attrs ob !! "guid" = Some (VInt g) →
    I s → I (registered_state s cn g self);
  st_append : ∀ c g x s,
    I s → I (set_topology (fun t => topo_upd t c g (append_new x)) s);
  st_remove : ∀ c g x s,
    I s → I (set_topology (fun t => topo_upd t c g (remove_all x)) s)
}.

(** No adjacency list holds a GUID twice. *)
Definition no_duplicate_links (s : State) : Prop :=
  ∀ c g l, neighbors s c g = Some l → NoDup l.

(** No instance has an attribute [n]. *)
Definition lacks_attr (n : string) (s : State) : Prop :=
  ∀ a ob, objects s !! a = Some ob → attrs ob !! n = None.

(** The instance [a] exists and is of class [c]. *)
Definition has_class (s : State) (a : Z) (c : string) : Prop :=
  ∃ ob, objects s !! a = Some ob ∧ cls ob = c.

(** ** RemoteRadioHead.get_rf_port *)

(** An [int] argument: [isinstance(i, int)] holds of the integers and
    of the two booleans, which count as 1 and 0. *)
Definition as_index (i : pyval) : option Z :=
  match i with
  | VInt z => Some z
  | VBool b => Some (if b then 1 else 0)
  | _ => None
  end.

(** The f-string [f'port[{i}]'] for such an argument. *)
Definition rf_port_key_of (i : pyval) : string :=
  match i with
  | VInt z => rf_port_key z
  | VBool true => "port[True]"
  | VBool false => "port[False]"
  | _ => "port[]"
  end.

(** [RemoteRadioHead.get_rf_port(i)].  The chained comparison reads
    [self.n_rf_ports], the integer stored by the constructor, only when
    [0 < i] holds; the port is then looked up in [self.antenna_ports]. *)
Definition get_rf_port (self : Z) (i : pyval) : M pyval :=
  match as_index i with
  | None => raise AssertionError
  | Some iz =>
      if negb (0 <? iz)%Z then raise AssertionError
      else
        n <- getattr (VObj self) "n_rf_ports" ;;
        match as_index n with
        | None => raise TypeError
        | Some nz =>
            if negb (iz <=? nz)%Z then raise AssertionError
            else
              ports <- getattr (VObj self) "antenna_ports" ;;
              dict_getitem ports (rf_port_key_of i)
        end
  end.

(** The attribute [du] of the instance [a], if set, is [None]. *)
Definition du_is_None (s : State) (a : Z) : Prop :=
  ∀ v, attr_of s a "du" = Some v → v = VNone.

(** ** Nodes *)

(** The instance [a] is a fully initialised node of class name [c]: it
    belongs to the simulation, carries its class name, its [id] as
    GUID and a label, and has an adjacency list. *)
Definition node (s : State) (a : Z) (c : string) : Prop :=
  attr_of s a "sim" = Some VSim ∧
  attr_of s a "class_name" = Some (VStr c) ∧
  attr_of s a "guid" = Some (VInt a) ∧
  is_Some (attr_of s a "label") ∧
  registered s c a.

(** [DistributedUnit.attach_to_rrh] *)
Definition attach_to_rrh (self : Z) (rrh : pyval) : M unit :=
  b <- isinstance_cls rrh "RemoteRadioHead" ;;
  if negb b then raise AssertionError
  else
    setattr self "rrh" rrh ;;;
    self_rrh <- getattr (VObj self) "rrh" ;;
    register_link self self_rrh ;;;
    sl <- getattr (VObj self) "label" ;;
    self_rrh <- getattr (VObj self) "rrh" ;;
    rl <- getattr self_rrh "label" ;;
    print [sl; VStr ": Attached to "; rl; VStr "."].

(** ** Sim.get_link_lists *)

(** The loop [for sim_obj in sim_objs: assert isinstance(sim_obj,
    SimObject)]. *)
Fixpoint assert_SimObjects (sim_objs : list pyval) : M unit :=
  match sim_objs with
  | [] => ret tt
  | x :: rest =>
      if negb (isinstance_SimObject x) then raise AssertionError
      else assert_SimObjects rest
  end.

(** The comprehension [[o.sim.topology[o.class_name][o.guid] for o in
    sim_objs]]. *)
Fixpoint link_lists (sim_objs : list pyval) : M (list (list Z)) :=
  match sim_objs with
  | [] => ret []
  | x :: rest =>
      simv <- getattr x "sim" ;;
      cn <- (v <- getattr x "class_name" ;; as_str v) ;;
      g <- getattr x "guid" ;;
      l <- topology_get simv cn g ;;
      ls <- link_lists rest ;;
      ret (l :: ls)
  end.

(** [Sim.get_link_lists(sim_objs)] for a list argument. *)
Definition get_link_lists (sim_objs : list pyval) : M (list (list Z)) :=
  assert_SimObjects sim_objs ;;;
  link_lists sim_objs.

(** The adjacency list [l] is that of the node [o]. *)
Definition links_of (s : State) (o : pyval) (l : list Z) : Prop :=
  ∃ a c, o = VObj a ∧ node s a c ∧ neighbors s c a = Some l.

(** The node [a] of class name [c] is the one thing [s'] adds to the
    topology and the GUID map of [s], with an empty adjacency list. *)
Definition new_isolated_node (s s' : State) (a : Z) (c : string) : Prop :=
  node s' a c ∧
  neighbors s' c a = Some [] ∧
  guid_map s' !! a = Some a ∧
  (∀ c' g, (c', g) ≠ (c, a) → neighbors s' c' g = neighbors s c' g) ∧
  (∀ k, k ≠ a → guid_map s' !! k = guid_map s !! k).

(** ** GUIDs *)

(** No two instances share a GUID. *)
Definition guids_distinct (s : State) : Prop :=
  ∀ a1 a2 g1 g2,
    a1 ≠ a2 → attr_of s a1 "guid" = Some g1 → attr_of s a2 "guid" = Some g2 →
    g1 ≠ g2.

(** A node filed in the topology under the class name [c] and the GUID
    [g] is the instance whose [id] is [g]: it is of class [c], its
    [guid] attribute is [g], and the GUID map binds [g] to it. *)
Definition registered_nodes_mapped (s : State) : Prop :=
  ∀ c g, registered s c g →
    has_class s g c ∧ attr_of s g "guid" = Some (VInt g) ∧ guid_map s !! g = Some g.

(** The GUID map binds a GUID to the instance that carries it, which
    is the instance whose [id] the GUID is. *)
Definition guid_map_exact (s : State) : Prop :=
  ∀ k a, guid_map s !! k = Some a → a = k ∧ attr_of s a "guid" = Some (VInt k).

(** Every registered node has an entry in the GUID map. *)
Definition registered_have_entries (s : State) : Prop :=
  ∀ c g, registered s c g → is_Some (guid_map s !! g).

(** The base initialiser, run on a new instance [a] of class [c], gives
    it its [id] as GUID and files it under that GUID. *)
Definition enters_under_own_id (s : State) (c : string) (a : Z) : Prop :=
  let s' := exec (alloc c a ;;; SimObject__init__ a VSim) s in
  attr_of s' a "guid" = Some (VInt a) ∧
  guid_map s' !! a = Some a ∧
  registered s' c a.

(** * Proofs *)

(** ** Evaluation of programs on a given state *)

Lemma exec_run {A} (m : M A) s : exec m s = (run m s).2.
Proof. reflexivity. Qed.

Lemma outcome_run {A} (m : M A) s : outcome m s = (run m s).1.
Proof. reflexivity. Qed.

Lemma run_bind_assoc {A B C} (m : M A) (k1 : A → M B) (k : B → M C) s :
  run (bind (bind m k1) k) s = run (bind m (fun x => bind (k1 x) k)) s.
Proof. unfold run, bind. destruct (m s) as [[x|e] s']; reflexivity. Qed.

Lemma run_bind_ok {A B} (m : M A) (k : A → M B) s a s' :
  m s = (Ok a, s') → run (bind m k) s = run (k a) s'.
Proof. unfold run, bind. by intros ->. Qed.

Lemma run_bind_raise {A B} (m : M A) (k : A → M B) s e s' :
  m s = (Raise e, s') → run (bind m k) s = (Raise e, s').
Proof. unfold run, bind. by intros ->. Qed.

Lemma run_eq {A} (m : M A) s r : m s = r → run m s = r.
Proof. done. Qed.

Lemma run_inv {A} (m : M A) s r : run m s = r → m s = r.
Proof. done. Qed.

(** Lookups in updated maps. *)
Ltac lk :=
  repeat first
    [ rewrite lookup_insert_eq
    | rewrite lookup_insert_ne by (discriminate || congruence || done)
    | rewrite lookup_empty
    | rewrite insert_insert_eq
    | match goal with
      | H : ?m !! ?k = _ |- context [?m !! ?k] => rewrite H
      | H : topo_get ?t ?c ?g = _ |- context [topo_get ?t ?c ?g] => rewrite H
      end ].

(** Unfolding of the primitive operations applied to a state. *)
Ltac mcbv t :=
  eval cbv beta iota zeta delta
    [bind ret raise gets modify print next_id_iter alloc
     setattr getattr hasattr class_of as_str as_int
     set_topology set_guid_map set_cells set_UEs set_raps set_rus set_rrhs
     set_objects set_dicts set_next_dict set_id_iter set_stdout
     topology guid_map cells UEs raps rus rrhs objects dicts next_dict id_iter stdout
     cls attrs negb is_None isinstance_Sim isinstance_SimObject
     is_power_model_value topology_get topology_update new_dict dict_getitem
     dict_setitem dict_keys isinstance_cls py_eq topology_lookup py_in] in t.

Ltac mif b m1 m2 :=
  let b' := eval vm_compute in b in
  lazymatch b' with
  | true => change (if b then m1 else m2) with m1
  | false => change (if b then m1 else m2) with m2
  end.

(** Solves [m s = ?r] for a primitive [m], leaving the value and the
    new state in [?r]. *)
Ltac meval :=
  lazymatch goal with
  | |- ?m ?s = _ =>
      let r := mcbv (m s) in
      change (m s) with r;
      repeat (progress (lk; cbv beta iota));
      reflexivity
  end.

(** One step of the program under [run]. *)
Ltac mstep :=
  match goal with
  | |- context [run (bind (bind ?m1 ?k1) ?k) ?s] =>
      rewrite (run_bind_assoc m1 k1 k s); cbv beta
  | |- context [run (bind (if ?b then ?m1 else ?m2) ?k) ?s] => mif b m1 m2
  | |- context [run (if ?b then ?m1 else ?m2) ?s] => mif b m1 m2
  | |- context [run (bind (py_for (?x :: ?xs) ?body) ?k) ?s] =>
      change (py_for (x :: xs) body)
        with (bind (body x) (fun f => match f with
                                      | Continue => py_for xs body
                                      | Break => ret tt
                                      end))
  | |- context [run (bind (py_for [] ?body) ?k) ?s] =>
      change (py_for [] body) with (@ret unit tt)
  | |- context [run (bind (py_while (S ?n) ?c ?body) ?k) ?s] =>
      change (py_while (S n) c body)
        with (bind c (fun b => if b then bind body (fun _ => py_while n c body)
                               else ret tt))
  | |- context [run (py_while (S ?n) ?c ?body) ?s] =>
      change (py_while (S n) c body)
        with (bind c (fun b => if b then bind body (fun _ => py_while n c body)
                               else ret tt))
  | |- context [run (bind (py_for ?xs ?body) ?k) ?s] => fail 1
  | |- context [run (bind (py_while ?n ?c ?body) ?k) ?s] => fail 1
  | |- context [run (bind (run_loop ?n ?body) ?k) ?s] => fail 1
  | |- context [run (bind ?m ?k) ?s] =>
      let H := fresh "Hrun" in
      eassert (H : m s = _) by meval;
      lazymatch type of H with
      | _ = (Ok ?a, ?s') => rewrite (run_bind_ok m k s a s' H)
      | _ = (Raise ?e, ?s') => rewrite (run_bind_raise m k s e s' H)
      end;
      clear H; cbv beta iota
  | |- context [run ?m ?s] =>
      let H := fresh "Hrun" in
      eassert (H : m s = _) by meval;
      rewrite (run_eq m s _ H); clear H
  end.

Ltac msteps := repeat mstep.

(** ** Rules for specifications *)

Lemma hoare_bind {A B} (P : State → Prop) (m : M A) (Q1 : A → State → Prop)
    (k : A → M B) (Q : B → State → Prop) (E : exn → State → Prop) :
  hoare P m Q1 E → (∀ a, hoare (Q1 a) (k a) Q E) → hoare P (bind m k) Q E.
Proof.
  intros Hm Hk s HP. specialize (Hm s HP). unfold bind.
  destruct (m s) as [[a|e] s']; [by apply Hk|done].
Qed.

Lemma hoare_conseq {A} (P P' : State → Prop) (m : M A) (Q Q' : A → State → Prop)
    (E E' : exn → State → Prop) :
  hoare P' m Q' E' → (∀ s, P s → P' s) → (∀ a s, Q' a s → Q a s) →
  (∀ e s, E' e s → E e s) → hoare P m Q E.
Proof.
  intros Hm HP HQ HE s Hs. specialize (Hm s (HP s Hs)).
  destruct (m s) as [[a|e] s']; auto.
Qed.

Lemma hoare_ret {A} (P : State → Prop) (a : A) (Q : A → State → Prop) E :
  (∀ s, P s → Q a s) → hoare P (ret a) Q E.
Proof. intros H s Hs. by apply H. Qed.

Lemma hoare_raise {A} (P : State → Prop) (e : exn) (Q : A → State → Prop) E :
  (∀ s, P s → E e s) → hoare P (raise e) Q E.
Proof. intros H s Hs. by apply H. Qed.

Lemma hoare_modify (P : State → Prop) (f : State → State) (Q : unit → State → Prop) E :
  (∀ s, P s → Q tt (f s)) → hoare P (modify f) Q E.
Proof. intros H s Hs. by apply H. Qed.

Lemma hoare_reader {A} (P : State → Prop) (m : M A) :
  reader m → hoare P m (fun a s => P s ∧ m s = (Ok a, s))
                       (fun e s => P s ∧ m s = (Raise e, s)).
Proof.
  intros Hr s Hs. specialize (Hr s).
  destruct (m s) as [[a|e] s'] eqn:Hm; cbn in Hr; subst s'; done.
Qed.

Lemma preserves_bind {A B} (I : State → Prop) (m : M A) (k : A → M B) :
  preserves I m → (∀ a, preserves I (k a)) → preserves I (bind m k).
Proof. intros Hm Hk. by eapply hoare_bind. Qed.

Lemma preserves_ret {A} (I : State → Prop) (a : A) : preserves I (ret a).
Proof. by apply hoare_ret. Qed.

Lemma preserves_raise {A} (I : State → Prop) (e : exn) : preserves I (@raise A e).
Proof. by apply hoare_raise. Qed.

Lemma preserves_modify (I : State → Prop) (f : State → State) :
  (∀ s, I s → I (f s)) → preserves I (modify f).
Proof. intros H s Hs. by apply H. Qed.

Lemma preserves_reader {A} (I : State → Prop) (m : M A) : reader m → preserves I m.
Proof.
  intros Hr s Hs. specialize (Hr s).
  destruct (m s) as [[a|e] s']; cbn in Hr; by subst s'.
Qed.

Lemma preserves_exec {A} (I : State → Prop) (m : M A) s :
  preserves I m → I s → I (exec m s).
Proof.
  intros Hm Hs. specialize (Hm s Hs). unfold exec.
  by destruct (m s) as [[a|e] s'].
Qed.

Lemma preserves_for {A} (I : State → Prop) (xs : list A) (body : A → M flow) :
  (∀ x, preserves I (body x)) → preserves I (py_for xs body).
Proof.
  intros Hb. induction xs as [|x xs IH]; cbn [py_for].
  - apply preserves_ret.
  - apply preserves_bind; [done|]. intros [|]; [done|apply preserves_ret].
Qed.

Lemma preserves_while (I : State → Prop) (fuel : nat) (cond : M bool) (body : M unit) :
  preserves I cond → preserves I body → preserves I (py_while fuel cond body).
Proof.
  intros Hc Hb. induction fuel as [|n IH]; cbn [py_while].
  - apply preserves_ret.
  - apply preserves_bind; [done|]. intros [|]; [|apply preserves_ret].
    by apply preserves_bind.
Qed.

Lemma preserves_run_loop {A} (I : State → Prop) (n : nat) (body : M A) :
  preserves I body → preserves I (run_loop n body).
Proof.
  intros Hb. induction n as [|n IH]; cbn [run_loop].
  - apply preserves_ret.
  - apply preserves_bind; [done|]. intros y.
    apply preserves_bind; [done|]. intros ys. apply preserves_ret.
Qed.

(** The operations that only read. *)

Lemma reader_ret {A} (a : A) : reader (ret a).
Proof. done. Qed.

Lemma reader_raise {A} (e : exn) : reader (@raise A e).
Proof. done. Qed.

Lemma reader_gets {A} (f : State → A) : reader (gets f).
Proof. done. Qed.

Lemma reader_bind {A B} (m : M A) (k : A → M B) :
  reader m → (∀ a, reader (k a)) → reader (bind m k).
Proof.
  intros Hm Hk s. unfold bind. specialize (Hm s).
  destruct (m s) as [[a|e] s']; cbn in Hm; subst s'; [apply Hk|done].
Qed.

Lemma reader_getattr o n : reader (getattr o n).
Proof.
  intros s. unfold getattr. destruct o; try done.
  destruct (objects s !! a) as [ob|]; [|done]. by destruct (attrs ob !! n).
Qed.

Lemma reader_hasattr a n : reader (hasattr a n).
Proof. done. Qed.

Lemma reader_class_of a : reader (class_of a).
Proof. intros s. unfold class_of. by destruct (objects s !! a). Qed.

Lemma reader_as_str v : reader (as_str v).
Proof. by destruct v. Qed.

Lemma reader_as_int v : reader (as_int v).
Proof. by destruct v. Qed.

Lemma reader_isinstance_cls v c : reader (isinstance_cls v c).
Proof. done. Qed.

Lemma reader_topology_get simv c g : reader (topology_get simv c g).
Proof.
  intros s. unfold topology_get. destruct (isinstance_Sim simv); [|done].
  by destruct (topology_lookup (topology s) c g).
Qed.

Lemma reader_dict_getitem d k : reader (dict_getitem d k).
Proof.
  intros s. unfold dict_getitem. destruct d; try done.
  by destruct (dicts s !! d ≫= assoc_get k).
Qed.

Lemma reader_dict_keys d : reader (dict_keys d).
Proof.
  intros s. unfold dict_keys. destruct d; try done. by destruct (dicts s !! d).
Qed.

Lemma reader_get_xyz cell : reader (get_xyz cell).
Proof.
  apply reader_bind; [apply reader_isinstance_cls|].
  intros [|]; [apply reader_ret|apply reader_raise].
Qed.

Lemma reader_default_loop_body self : reader (default_loop_body self).
Proof.
  apply reader_bind; [apply reader_getattr|]. intros v.
  destruct (isinstance_Sim v); [apply reader_getattr|apply reader_raise].
Qed.

Create HintDb reader.

#[global] Hint Resolve reader_ret reader_raise reader_gets reader_getattr reader_hasattr
  reader_class_of reader_as_str reader_as_int reader_isinstance_cls reader_topology_get
  reader_dict_getitem reader_dict_keys reader_get_xyz reader_default_loop_body : reader.

(** Invariance proofs by decomposition of the program: [solver]
    closes the goals left for a [modify]. *)
Ltac pres_with solver :=
  repeat first
    [ apply preserves_ret
    | apply preserves_raise
    | apply preserves_bind; [|intros ?]
    | apply preserves_for; intros ?
    | apply preserves_while
    | apply preserves_run_loop
    | apply preserves_reader; solve [eauto with reader]
    | apply preserves_modify; solve [solver]
    | match goal with
      | |- preserves _ (if ?b then _ else _) => destruct b
      | |- preserves _ (match ?x with _ => _ end) => destruct x
      end ].

(** ** The power model of a node *)

Lemma SimObject__init___run (s : State) (c : string) (a : Z) :
  ∃ s', run (alloc c a ;;; SimObject__init__ a VSim) s = (Ok tt, s')
        ∧ attr_of s' a "_power_model" = None
        ∧ attr_of s' a "_sim" = None
        ∧ is_Some (objects s' !! a).
Proof.
  destruct s as [tp gm cl ue rp ru rh ob dc nd ii out].
  unfold SimObject__init__, add_to_sim.
  msteps. eexists. split; [reflexivity|].
  unfold attr_of. cbn [objects]. lk. cbn [attrs mbind option_bind]. lk. eauto.
Qed.

(** C9 (code defect): reading [power_model] on a node for which no
    model was configured does not return a "no model" value with a
    notice.  [SimObject.__init__] never creates the attribute
    [_power_model] that the getter tests, so on every freshly
    initialised instance, of whatever class, the read raises
    [AttributeError]; the same holds for the RadioAccessPoint and the
    RemoteRadioHead built by the factories. *)
Theorem power_model_unconfigured_raises (s : State) (c : string) (a : Z) :
  outcome (power_model a) (exec (alloc c a ;;; SimObject__init__ a VSim) s)
    = Raise (AttributeError "_power_model")
  ∧ outcome (power_model 200) rrh_site = Raise (AttributeError "_power_model")
  ∧ outcome (power_model 300) rrh_site = Raise (AttributeError "_power_model").
Proof.
  split; [|split; vm_compute; reflexivity].
  destruct (SimObject__init___run s c a) as (s' & Hrun & Hpm & _ & [o Ho]).
  rewrite exec_run, Hrun. cbn [snd].
  unfold attr_of in Hpm. rewrite Ho in Hpm. cbn in Hpm.
  unfold outcome, power_model, bind, getattr. by rewrite Ho, Hpm.
Qed.

(** ** Links *)

(** Without the attribute [_sim] on the receiver, [deregister_link]
    stops at its first lookup and changes nothing. *)
Lemma deregister_link_no_sim (s : State) (a b : Z) :
  is_Some (objects s !! a) →
  attr_of s a "_sim" = None →
  deregister_link a (VObj b) s = (Raise (AttributeError "_sim"), s).
Proof.
  intros [o Ho] H. unfold attr_of in H. rewrite Ho in H. cbn in H.
  unfold deregister_link, bind, getattr. cbn [isinstance_SimObject negb].
  by rewrite Ho, H.
Qed.

(** C4 (code defect): [deregister_link] does not undo [register_link].
    On every initialised instance it raises [AttributeError] for
    [_sim] before touching the topology; for the two linked cells the
    adjacency lists stay [2] and [1], whereas they were empty before
    the link. *)
Theorem deregister_link_raises (s : State) (c : string) (a b : Z) :
  deregister_link a (VObj b) (exec (alloc c a ;;; SimObject__init__ a VSim) s)
    = (Raise (AttributeError "_sim"), exec (alloc c a ;;; SimObject__init__ a VSim) s)
  ∧ neighbors two_cells "AIMMeeCell" 1 = Some []
  ∧ neighbors two_cells "AIMMeeCell" 2 = Some []
  ∧ neighbors two_cells_linked "AIMMeeCell" 1 = Some [2]
  ∧ neighbors two_cells_linked "AIMMeeCell" 2 = Some [1]
  ∧ deregister_link 1 (VObj 2) two_cells_linked
      = (Raise (AttributeError "_sim"), two_cells_linked).
Proof.
  split.
  - destruct (SimObject__init___run s c a) as (s' & Hrun & _ & Hsim & Hob).
    rewrite exec_run, Hrun. cbn [snd]. by apply deregister_link_no_sim.
  - repeat split; vm_compute; reflexivity.
Qed.

(** ** CentralisedUnit power *)

Lemma float_neq_656_393 : VFloat 656.25 ≠ VFloat 393.75.
Proof.
  intros H.
  assert (H' := f_equal (fun v => match v with
                                  | VFloat f => PrimFloat.ltb 393.75 f
                                  | _ => false
                                  end) H).
  vm_compute in H'. discriminate.
Qed.

(** C6, counterexample: a DistributedUnit with [p_load = 0.4] is
    attached to a CentralisedUnit, whose power model nevertheless reads
    656.25 W and not 393.75 W. *)
Lemma cu_power_ignores_du_load :
  attr_of cu_with_du 20 "du" = Some (VObj 10)
  ∧ attr_of cu_with_du 10 "p_load" = Some (VFloat 0.4)
  ∧ outcome (power_model 20) cu_with_du = Ok (VFloat 656.25)
  ∧ outcome (power_model 20) cu_with_du ≠ Ok (VFloat (example_CU_power_model 0.4)).
Proof.
  split; [vm_compute; reflexivity|].
  split; [vm_compute; reflexivity|].
  split; [vm_compute; reflexivity|].
  intros H.
  assert (H1 : outcome (power_model 20) cu_with_du = Ok (VFloat 656.25))
    by (vm_compute; reflexivity).
  assert (H2 : example_CU_power_model 0.4 = 393.75%float)
    by (vm_compute; reflexivity).
  rewrite H1, H2 in H. apply float_neq_656_393. congruence.
Qed.

Lemma CentralisedUnit_power_model_run (s : State) (a : Z) :
  ∃ s', run (new_CentralisedUnit a VSim) s = (Ok (VObj a), s')
        ∧ ∃ o, objects s' !! a = Some o
               ∧ cls o = "CentralisedUnit"
               ∧ attrs o !! "_power_model" = Some (VFloat (example_CU_power_model 0.0))
               ∧ attrs o !! "cu" = None.
Proof.
  destruct s as [tp gm cl ue rp ru rh ob dc nd ii out].
  unfold new_CentralisedUnit, CentralisedUnit__init__, SimObject__init__, add_to_sim,
    set_power_model, power_model.
  msteps. eexists. split; [reflexivity|].
  cbn [objects]. lk. eexists. split; [reflexivity|]. cbn [attrs cls]. lk. done.
Qed.

(** C6, as amended: [example_CU_power_model] computes
    (1 - du_load) * 656.25 from the load it is passed, 393.75 for 0.4;
    the constructor of a CentralisedUnit passes 0.0, so the unit's
    power model is 656.25 W, and [attach_to_du] leaves it at that
    whatever is attached. *)
Theorem CentralisedUnit_power_fixed (s : State) (a : Z) (du : pyval) :
  example_CU_power_model 0.4 = 393.75%float
  ∧ example_CU_power_model 0.0 = 656.25%float
  ∧ outcome (power_model a) (exec (new_CentralisedUnit a VSim) s) = Ok (VFloat 656.25)
  ∧ outcome (power_model a)
      (exec (attach_to_du a du) (exec (new_CentralisedUnit a VSim) s))
    = Ok (VFloat 656.25).
Proof.
  split; [vm_compute; reflexivity|].
  split; [vm_compute; reflexivity|].
  destruct (CentralisedUnit_power_model_run s a)
    as (s' & Hrun & o & Ho & Hcls & Hpm & Hcu).
  rewrite !exec_run, Hrun. cbn [snd].
  assert (Hget : ∀ s'' o', objects s'' !! a = Some o' →
            attrs o' !! "_power_model" = Some (VFloat (example_CU_power_model 0.0)) →
            outcome (power_model a) s'' = Ok (VFloat 656.25)).
  { intros s'' o' Ho' Hpm'. unfold outcome, power_model, bind, getattr.
    rewrite Ho', Hpm'. reflexivity. }
  split; [by eapply Hget|].
  destruct s' as [tp gm cl ue rp ru rh ob dc nd ii out]. cbn [objects] in Ho.
  unfold attach_to_du, run, bind, isinstance_cls, gets.
  destruct du as [| | | | |b| | | |]; cbn [negb raise snd];
    try (by eapply Hget).
  cbn [objects]. destruct (ob !! b) as [ob'|] eqn:Hb; cbn [negb raise snd];
    [|by eapply Hget].
  destruct (bool_decide (cls ob' = "DistributedUnit")); cbn [negb raise snd];
    [|by eapply Hget].
  unfold setattr, modify, set_objects. cbn [objects].
  rewrite Ho. unfold getattr at 1. cbn [objects]. lk. cbn [attrs].
  destruct (decide ("cu" = "du")) as [?|_]; [discriminate|].
  rewrite lookup_insert_ne by discriminate.
  rewrite Hcu. cbn [snd].
  eapply Hget; cbn [objects]; lk; [reflexivity|]. cbn [attrs]. by lk.
Qed.

(** ** Well-formedness is kept by every operation *)

Create HintDb wf.

Lemma WF_frame (s s' : State) :
  topology s' = topology s → guid_map s' = guid_map s → UEs s' = UEs s →
  objects s' = objects s → WF s → WF s'.
Proof.
  intros Ht Hg Hu Ho [H1 H2 H3 H4 H5 H6 H7 H8 H9].
  split; unfold guid_is_id, class_name_is_class, no_private_sim, no_accumulator,
    registered_are_objects, links_closed, link_symmetric, guid_map_sound,
    UEs_registered, registered, neighbors, attr_of in *;
    rewrite ?Ht, ?Hg, ?Hu, ?Ho; assumption.
Qed.

Ltac wf_frame := intros ? ?; eapply WF_frame; [..|eassumption]; reflexivity.

Lemma WF_print line : preserves WF (print line).
Proof. apply preserves_modify. wf_frame. Qed.

Lemma WF_next_id_iter : preserves WF next_id_iter.
Proof. unfold next_id_iter. pres_with wf_frame. Qed.

Lemma WF_new_dict items : preserves WF (new_dict items).
Proof. unfold new_dict. pres_with wf_frame. Qed.

Lemma WF_dict_setitem d k v : preserves WF (dict_setitem d k v).
Proof. unfold dict_setitem. pres_with wf_frame. Qed.

Lemma objects_setattr s a n v :
  objects (exec (setattr a n v) s)
  = match objects s !! a with
    | Some ob => <[a := PyObj (cls ob) (<[n := v]> (attrs ob))]> (objects s)
    | None => objects s
    end.
Proof. reflexivity. Qed.

Lemma lookup_objects_setattr s a n v b :
  objects (exec (setattr a n v) s) !! b
  = if decide (b = a) then
      (fun ob => PyObj (cls ob) (<[n := v]> (attrs ob))) <$> objects s !! a
    else objects s !! b.
Proof.
  rewrite objects_setattr. destruct (decide (b = a)) as [->|Hne].
  - destruct (objects s !! a) as [ob|] eqn:Ha; cbn; [by rewrite lookup_insert_eq|done].
  - destruct (objects s !! a) as [ob|]; [by rewrite lookup_insert_ne|done].
Qed.

(** An attribute of an instance after [setattr]. *)
Lemma attr_of_setattr s a n v b n' :
  attr_of (exec (setattr a n v) s) b n'
  = if decide (b = a ∧ n' = n) then
      (if bool_decide (is_Some (objects s !! a)) then Some v else None)
    else attr_of s b n'.
Proof.
  unfold attr_of. rewrite lookup_objects_setattr.
  destruct (decide (b = a)) as [->|Hne].
  - destruct (objects s !! a) as [ob|] eqn:Ha; cbn.
    + destruct (decide (n' = n)) as [->|Hn].
      * rewrite decide_True by done. by rewrite lookup_insert_eq.
      * rewrite decide_False by (by intros [_ ?]). by rewrite lookup_insert_ne.
    + by destruct (decide (a = a ∧ n' = n)).
  - by rewrite decide_False by (by intros [? _]).
Qed.

(** [setattr] keeps a property of instances that the new attribute
    dictionary still satisfies. *)
Lemma WF_setattr_gen s a n v :
  WF s →
  (n = "guid" → v = VInt a) →
  (n = "class_name" → ∀ ob, objects s !! a = Some ob → v = VStr (cls ob)) →
  n ≠ "_sim" → n ≠ "accumulated_joules" →
  WF (exec (setattr a n v) s).
Proof.
  intros [H1 H2 H3 H4 H5 H6 H7 H8 H9] Hg Hc Hs Hacc.
  assert (Hob : ∀ b ob', objects (exec (setattr a n v) s) !! b = Some ob' →
            ∃ ob, objects s !! b = Some ob ∧ cls ob' = cls ob ∧
                  (∀ n', attrs ob' !! n' = attrs ob !! n' ∨
                         (b = a ∧ n' = n ∧ attrs ob' !! n' = Some v))).
  { intros b ob'. rewrite lookup_objects_setattr.
    destruct (decide (b = a)) as [->|Hne].
    - destruct (objects s !! a) as [ob|]; [|done]. cbn. intros [= <-].
      eexists. split; [done|]. split; [done|]. intros n'. cbn.
      destruct (decide (n' = n)) as [->|Hn].
      + right. by rewrite lookup_insert_eq.
      + left. by rewrite lookup_insert_ne.
    - intros Hb. eexists. split; [done|]. split; [done|]. by left. }
  split.
  - intros b ob' w Hb Hw. destruct (Hob b ob' Hb) as (ob & Hb' & _ & Hat).
    destruct (Hat "guid") as [Heq|(-> & Hn & Hv)].
    + rewrite Heq in Hw. by eapply H1.
    + rewrite Hv in Hw. simplify_eq. by apply Hg.
  - intros b ob' w Hb Hw. destruct (Hob b ob' Hb) as (ob & Hb' & Hcls & Hat).
    rewrite Hcls.
    destruct (Hat "class_name") as [Heq|(-> & Hn & Hv)].
    + rewrite Heq in Hw. by eapply H2.
    + rewrite Hv in Hw. simplify_eq. by eapply Hc.
  - intros b ob' Hb. destruct (Hob b ob' Hb) as (ob & Hb' & _ & Hat).
    destruct (Hat "_sim") as [Heq|(-> & Hn & Hv)]; [|done].
    rewrite Heq. by eapply H3.
  - intros b ob' Hb. destruct (Hob b ob' Hb) as (ob & Hb' & _ & Hat).
    destruct (Hat "accumulated_joules") as [Heq|(-> & Hn & Hv)]; [|done].
    rewrite Heq. by eapply H4.
  - intros c g Hr. destruct (H5 c g Hr) as (ob & Hg' & Hcls).
    rewrite lookup_objects_setattr. destruct (decide (g = a)) as [->|Hne].
    + rewrite Hg'. cbn. by eexists.
    + by eexists.
  - exact H6.
  - exact H7.
  - intros k b Hk. specialize (H8 k b Hk). rewrite attr_of_setattr.
    destruct (decide (b = a ∧ "guid" = n)) as [[-> <-]|Hne]; [|done].
    unfold attr_of in H8. destruct (objects s !! a) as [ob|] eqn:Ha; [|done].
    cbn in H8. rewrite (H1 a ob _ Ha H8) in H8 |- *.
    rewrite bool_decide_true by done. by rewrite (Hg eq_refl).
  - exact H9.
Qed.

Lemma WF_setattr a n v : plain_attr n → preserves WF (setattr a n v).
Proof.
  intros (Hg & Hc & Hs & Ha). apply preserves_modify. intros s Hs'.
  by apply (WF_setattr_gen s a n v).
Qed.

Lemma WF_setattr_guid a : preserves WF (setattr a "guid" (VInt a)).
Proof.
  apply preserves_modify. intros s Hs'.
  by apply (WF_setattr_gen s a "guid" (VInt a)).
Qed.

Ltac plain := repeat split; discriminate.

(** *** The topology dictionary *)

Lemma topo_get_upd t c g f c' g' :
  topo_get (topo_upd t c g f) c' g'
  = if decide (c' = c ∧ g' = g) then f <$> topo_get t c g else topo_get t c' g'.
Proof.
  unfold topo_get, topo_upd.
  destruct (t !! c) as [m|] eqn:Hc; cbn.
  - destruct (m !! g) as [l|] eqn:Hg; cbn.
    + destruct (decide (c' = c)) as [->|Hne].
      * rewrite lookup_insert_eq. cbn.
        destruct (decide (g' = g)) as [->|Hng].
        -- rewrite decide_True by done. by rewrite lookup_insert_eq.
        -- rewrite decide_False by (by intros [_ ?]).
           rewrite lookup_insert_ne by done. by rewrite Hc.
      * rewrite decide_False by (by intros [? _]). by rewrite lookup_insert_ne.
    + destruct (decide (c' = c ∧ g' = g)) as [[-> ->]|Hne]; [|done].
      rewrite Hc. cbn. by rewrite Hg.
  - destruct (decide (c' = c ∧ g' = g)) as [[-> ->]|Hne]; [|done].
    by rewrite Hc.
Qed.

Lemma topo_get_setdefault t c g c' g' :
  topo_get (topo_setdefault t c g) c' g'
  = if decide (c' = c ∧ g' = g) then Some (default [] (topo_get t c g))
    else topo_get t c' g'.
Proof.
  unfold topo_get, topo_setdefault.
  destruct (decide (c' = c)) as [->|Hne].
  - rewrite lookup_insert_eq. cbn.
    destruct (t !! c) as [m|] eqn:Hc; cbn.
    + destruct (m !! g) as [l|] eqn:Hg.
      * destruct (decide (c = c ∧ g' = g)) as [[_ ->]|Hn]; [by rewrite Hg|done].
      * destruct (decide (g' = g)) as [->|Hng].
        -- rewrite decide_True by done. by rewrite lookup_insert_eq.
        -- rewrite decide_False by (by intros [_ ?]). by rewrite lookup_insert_ne.
    + rewrite lookup_empty.
      destruct (decide (g' = g)) as [->|Hng].
      * rewrite decide_True by done. by rewrite lookup_insert_eq.
      * rewrite decide_False by (by intros [_ ?]).
        rewrite lookup_insert_ne by done. by rewrite lookup_empty.
  - rewrite decide_False by (by intros [? _]). by rewrite lookup_insert_ne.
Qed.

Lemma topo_upd_id t c g f :
  (∀ l, topo_get t c g = Some l → f l = l) → topo_upd t c g f = t.
Proof.
  unfold topo_get, topo_upd. intros Hf.
  destruct (t !! c) as [m|] eqn:Hc; [|done]. cbn in Hf.
  destruct (m !! g) as [l|] eqn:Hg; [|done].
  rewrite (Hf l eq_refl). rewrite (insert_id m g l Hg). by rewrite insert_id.
Qed.

Lemma elem_of_append_new x y l : y ∈ append_new x l ↔ y ∈ l ∨ y = x.
Proof.
  unfold append_new. destruct (decide (x ∈ l)) as [Hin|Hnin].
  - split; [by left|]. intros [?| ->]; done.
  - rewrite elem_of_app, list_elem_of_singleton. done.
Qed.

(** Adjacency lists of the linked topology. *)
Lemma topo_get_link t cs gs co go c g :
  is_Some (topo_get t cs gs) → is_Some (topo_get t co go) →
  ∃ l', topo_get (link_topology t cs gs co go) c g
        = (fun l => l') <$> topo_get t c g
        ∧ ∀ l, topo_get t c g = Some l →
               ∀ x, x ∈ l' ↔ x ∈ l ∨ (c = cs ∧ g = gs ∧ x = go) ∨ (c = co ∧ g = go ∧ x = gs).
Proof.
  intros [ls Hs] [lo Ho]. unfold link_topology. rewrite !topo_get_upd.
  destruct (decide (c = co ∧ g = go)) as [[-> ->]|Hn1];
    destruct (decide (co = cs ∧ go = gs)) as [[-> ->]|Hn2];
    try destruct (decide (c = cs ∧ g = gs)) as [[-> ->]|Hn3].
  - rewrite Hs. cbn. eexists. split; [done|]. intros l [= <-] x.
    rewrite !elem_of_append_new. naive_solver.
  - rewrite Ho. cbn. eexists. split; [done|]. intros l [= <-] x.
    rewrite !elem_of_append_new. naive_solver.
  - rewrite Hs. cbn. eexists. split; [done|]. intros l [= <-] x.
    rewrite !elem_of_append_new. naive_solver.
  - destruct (topo_get t c g) as [l|]; cbn; [|by exists []].
    exists l. split; [done|]. intros ? [= <-] x. naive_solver.
  - rewrite Hs. cbn. eexists. split; [done|]. intros l [= <-] x.
    rewrite !elem_of_append_new. naive_solver.
  - destruct (topo_get t c g) as [l|]; cbn; [|by exists []].
    exists l. split; [done|]. intros ? [= <-] x. naive_solver.
Qed.

(** *** Creation and registration *)

Lemma WF_alloc c a s : objects s !! a = None → WF s → WF (exec (alloc c a) s).
Proof.
  intros Hfresh [H1 H2 H3 H4 H5 H6 H7 H8 H9].
  assert (Hob : ∀ b ob, objects (exec (alloc c a) s) !! b = Some ob →
            (b = a ∧ attrs ob = ∅) ∨ (b ≠ a ∧ objects s !! b = Some ob)).
  { intros b ob. cbn. destruct (decide (b = a)) as [->|Hne].
    - rewrite lookup_insert_eq. intros [= <-]. by left.
    - rewrite lookup_insert_ne by done. by right. }
  assert (Hold : ∀ b ob, objects s !! b = Some ob →
            objects (exec (alloc c a) s) !! b = Some ob).
  { intros b ob Hb. cbn. rewrite lookup_insert_ne; [done|]. congruence. }
  split.
  - intros b ob v Hb Hv. destruct (Hob b ob Hb) as [[_ He]|[_ Hb']].
    + by rewrite He, lookup_empty in Hv.
    + by eapply H1.
  - intros b ob v Hb Hv. destruct (Hob b ob Hb) as [[_ He]|[_ Hb']].
    + by rewrite He, lookup_empty in Hv.
    + by eapply H2.
  - intros b ob Hb. destruct (Hob b ob Hb) as [[_ He]|[_ Hb']].
    + by rewrite He, lookup_empty.
    + by eapply H3.
  - intros b ob Hb. destruct (Hob b ob Hb) as [[_ He]|[_ Hb']].
    + by rewrite He, lookup_empty.
    + by eapply H4.
  - intros c' g Hr. destruct (H5 c' g Hr) as (ob & Hg & Hcls). eauto.
  - exact H6.
  - exact H7.
  - intros k b Hk. specialize (H8 k b Hk). unfold attr_of in *.
    destruct (objects s !! b) as [ob|] eqn:Hb; [|done].
    by rewrite (Hold b ob Hb).
  - exact H9.
Qed.

(** Case analysis on the result of a read of the state. *)
Ltac destruct_reader m s lem r :=
  let H := fresh "Hrd" in
  let e := fresh "e" in
  let s' := fresh "s'" in
  let E := fresh "Erd" in
  pose proof (lem s) as H;
  destruct (m s) as [[r|e] s'] eqn:E; cbn [snd] in H; subst s'.

Tactic Notation "rd" "as" ident(r) :=
  match goal with
  | |- context [getattr ?o ?n ?s] => destruct_reader (getattr o n) s (reader_getattr o n) r
  | |- context [class_of ?a ?s] => destruct_reader (class_of a) s (reader_class_of a) r
  | |- context [topology_get ?v ?c ?g ?s] =>
      destruct_reader (topology_get v c g) s (reader_topology_get v c g) r
  | |- context [dict_getitem ?d ?k ?s] =>
      destruct_reader (dict_getitem d k) s (reader_dict_getitem d k) r
  | |- context [dict_keys ?d ?s] => destruct_reader (dict_keys d) s (reader_dict_keys d) r
  | |- context [get_xyz ?c ?s] => destruct_reader (get_xyz c) s (reader_get_xyz c) r
  end.

Lemma getattr_Ok o n s v s' :
  getattr o n s = (Ok v, s') →
  ∃ a ob, o = VObj a ∧ objects s !! a = Some ob ∧ attrs ob !! n = Some v.
Proof.
  unfold getattr. destruct o; try done.
  destruct (objects s !! a) as [ob|] eqn:Ha; [|done].
  destruct (attrs ob !! n) as [w|] eqn:Hn; [|done].
  intros [= <- <-]. eauto.
Qed.

Lemma topology_get_Ok simv c g s l s' :
  topology_get simv c g s = (Ok l, s') →
  simv = VSim ∧ ∃ z, g = VInt z ∧ neighbors s c z = Some l.
Proof.
  unfold topology_get. destruct simv; try done. cbn [isinstance_Sim].
  destruct g; try done. cbn [topology_lookup]. unfold neighbors.
  destruct (topo_get (topology s) c z) as [l'|] eqn:E; [|done].
  intros [= <- <-]. eauto.
Qed.

Lemma class_of_Ok a s c s' :
  class_of a s = (Ok c, s') → ∃ ob, objects s !! a = Some ob ∧ cls ob = c.
Proof.
  unfold class_of. destruct (objects s !! a) as [ob|]; [|done].
  intros [= <- <-]. eauto.
Qed.

Ltac rsimp :=
  cbn [as_str as_int ret raise modify gets fst snd negb is_None isinstance_Sim
       isinstance_SimObject]; cbv beta iota.

(** What [add_to_sim] does: nothing when it raises before the two
    [setdefault] calls, the registration otherwise. *)
Lemma add_to_sim_effect self sim s :
  exec (add_to_sim self sim) s = s ∨
  ∃ ob cn g f,
    sim = VSim ∧ objects s !! self = Some ob ∧
    attrs ob !! "class_name" = Some (VStr cn) ∧
    attrs ob !! "guid" = Some (VInt g) ∧
    exec (add_to_sim self sim) s = set_stdout f (registered_state s cn g self).
Proof.
  unfold exec, add_to_sim. destruct sim; try (by left). rsimp.
  unfold bind, print. rd as v; rsimp; [|by left].
  apply getattr_Ok in Erd as (a & ob & [= <-] & Hob & Hcn).
  destruct v as [| | | |cn| | | | |]; rsimp; try (by left).
  rd as v; rsimp; [|by left].
  apply getattr_Ok in Erd as (a & ob' & [= <-] & Hob' & Hg). simplify_eq.
  destruct v as [| |g| | | | | | |]; rsimp; try (by left).
  right. exists ob, cn, g.
  fold (registered_state s cn g self).
  rd as lbl; rsimp.
  - eexists. repeat split; try done.
  - exists id. repeat split; try done.
Qed.

Lemma neighbors_registered_state s cn g self c x :
  neighbors (registered_state s cn g self) c x
  = if decide (c = cn ∧ x = g) then Some (default [] (neighbors s cn g))
    else neighbors s c x.
Proof. unfold neighbors. cbn. apply topo_get_setdefault. Qed.

Lemma registered_mono_registered_state s cn g self c x :
  registered s c x → registered (registered_state s cn g self) c x.
Proof.
  unfold registered. rewrite neighbors_registered_state. intros [l Hl].
  destruct (decide (c = cn ∧ x = g)) as [[-> ->]|Hne]; [by eexists|by rewrite Hl].
Qed.

Lemma WF_registered_state s ob self cn g :
  WF s → objects s !! self = Some ob →
  attrs ob !! "class_name" = Some (VStr cn) →
  attrs ob !! "guid" = Some (VInt g) →
  WF (registered_state s cn g self).
Proof.
  intros [H1 H2 H3 H4 H5 H6 H7 H8 H9] Hob Hcn Hg.
  pose proof (H1 self ob _ Hob Hg) as Heq. injection Heq as ->.
  pose proof (H2 self ob _ Hob Hcn) as Heq. injection Heq as ->.
  set (s' := registered_state s (cls ob) self self).
  assert (Hnb : ∀ c x l, neighbors s' c x = Some l →
            neighbors s c x = Some l ∨
            (c = cls ob ∧ x = self ∧ neighbors s c x = None ∧ l = [])).
  { intros c x l. unfold s'. rewrite neighbors_registered_state.
    destruct (decide (c = cls ob ∧ x = self)) as [[-> ->]|Hne]; [|by left].
    destruct (neighbors s (cls ob) self) as [l'|] eqn:E; cbn.
    - intros [= <-]. by left.
    - intros [= <-]. by right. }
  assert (Hfresh : neighbors s (cls ob) self = None →
            ∀ c x l, neighbors s c x = Some l → self ∉ l).
  { intros Hn c x l Hl Hin.
    destruct (H6 c x l self Hl Hin) as (c' & Hr).
    destruct (H5 c' self Hr) as (ob' & Hob' & Hcls). simplify_eq.
    destruct Hr as [l' Hl']. congruence. }
  split; try assumption.
  - intros c g Hr. destruct Hr as [l Hl].
    destruct (Hnb c g l Hl) as [Hold|(-> & -> & _)].
    + apply H5. by eexists.
    + by eexists.
  - intros c g l x Hl Hin.
    destruct (Hnb c g l Hl) as [Hold|(-> & -> & _ & ->)].
    + destruct (H6 c g l x Hold Hin) as (c' & Hr). exists c'.
      by apply registered_mono_registered_state.
    + by apply elem_of_nil in Hin.
  - intros cA gA lA cB gB lB HA HB.
    destruct (Hnb cA gA lA HA) as [HA'|(-> & -> & HnA & ->)];
      destruct (Hnb cB gB lB HB) as [HB'|(-> & -> & HnB & ->)].
    + by eapply H7.
    + split; [|by intros ?%elem_of_nil].
      intros Hin. exfalso. by eapply Hfresh.
    + split; [by intros ?%elem_of_nil|].
      intros Hin. exfalso. by eapply Hfresh.
    + done.
  - intros k a. cbn. destruct (guid_map s !! self) as [b|] eqn:Hk.
    + apply H8.
    + destruct (decide (k = self)) as [->|Hne].
      * rewrite lookup_insert_eq. intros [= <-]. unfold attr_of. cbn.
        by rewrite Hob.
      * rewrite lookup_insert_ne by done. apply H8.
  - intros a Ha. apply registered_mono_registered_state. by apply H9.
Qed.

Lemma WF_add_to_sim self sim : preserves WF (add_to_sim self sim).
Proof.
  intros s Hs. pose proof (add_to_sim_effect self sim s) as Heff. unfold exec in Heff.
  assert (WF (add_to_sim self sim s).2) as Hwf.
  { destruct Heff as [->|(ob & cn & g & f & _ & Hob & Hcn & Hg & ->)]; [done|].
    eapply WF_frame; [..|by eapply (WF_registered_state s ob self cn g)]; done. }
  by destruct (add_to_sim self sim s) as [[?|?] ?].
Qed.

(** *** Links *)

Lemma topo_upd_ext t c g f f' :
  (∀ l, topo_get t c g = Some l → f l = f' l) → topo_upd t c g f = topo_upd t c g f'.
Proof.
  unfold topo_get, topo_upd. intros Hf.
  destruct (t !! c) as [m|] eqn:Hc; [|done]. cbn in Hf.
  destruct (m !! g) as [l|] eqn:Hg; [|done]. by rewrite (Hf l eq_refl).
Qed.

Lemma same_but_topology_refl s : same_but_topology s s.
Proof. by repeat split. Qed.

Lemma same_but_topology_set s f g :
  same_but_topology s (set_stdout f (set_topology g s)).
Proof. by repeat split. Qed.

Lemma same_but_topology_trans s1 s2 s3 :
  same_but_topology s1 s2 → same_but_topology s2 s3 → same_but_topology s1 s3.
Proof.
  unfold same_but_topology. intros H1 H2.
  destruct H1 as (?&?&?&?&?&?&?&?&?&?), H2 as (?&?&?&?&?&?&?&?&?&?).
  repeat split; congruence.
Qed.

(** Inversion of a completed [bind]. *)
Lemma bind_inv {A B} (m : M A) (k : A → M B) s r s' :
  bind m k s = (r, s') →
  (∃ a s1, m s = (Ok a, s1) ∧ k a s1 = (r, s'))
  ∨ (∃ e, m s = (Raise e, s') ∧ r = Raise e).
Proof.
  unfold bind. destruct (m s) as [[a|e] s1]; intros H.
  - left. eauto.
  - right. exists e. by simplify_eq.
Qed.

Lemma reader_inv {A} (m : M A) s r s' : reader m → m s = (r, s') → s' = s.
Proof. intros Hr H. specialize (Hr s). rewrite H in Hr. done. Qed.

(** [binv H as a E]: [H : bind m k s = (r, s')] with [m] a read of the
    state; the goal for the case where [m] raises is left first. *)
Tactic Notation "binv" hyp(H) "as" ident(a) ident(E) :=
  let s1 := fresh "s1" in
  let e := fresh "e" in
  let Hs := fresh "Hs" in
  apply bind_inv in H as [(a & s1 & E & H)|(e & E & ->)];
  [ assert (Hs : s1 = _) by (eapply reader_inv; [|exact E]; eauto with reader);
    subst s1
  | assert (Hs : _ = _) by (eapply reader_inv; [|exact E]; eauto with reader);
    try subst ];
  [|].

Lemma print_inv line s r s' :
  print line s = (r, s') → r = Ok tt ∧ same_but_topology s s' ∧ topology s' = topology s.
Proof. intros [= <- <-]. by repeat split. Qed.

Lemma label_print_prints_only (o1 o2 : pyval) (line : pyval → pyval → list pyval) :
  prints_only (sl <- getattr o1 "label" ;; ol <- getattr o2 "label" ;; print (line sl ol)).
Proof.
  intros s r s' H.
  binv H as sl E1; [|split; [apply same_but_topology_refl|done]].
  binv H as ol E2; [|split; [apply same_but_topology_refl|done]].
  apply print_inv in H as (_ & ? & ?). done.
Qed.

Lemma cond_append_inv s c g x l pr r s' :
  neighbors s c g = Some l → prints_only pr →
  (if negb (py_in (VInt x) l)
   then topology_update c g (fun l => l ++ [x])%list else pr) s = (r, s') →
  same_but_topology s s' ∧
  ((r = Ok tt ∧ topology s' = topo_upd (topology s) c g (append_new x))
   ∨ (∃ e, r = Raise e ∧ topology s' = topology s ∧ x ∈ l)).
Proof.
  intros Hl Hpr. cbn [py_in]. destruct (bool_decide (x ∈ l)) eqn:Hin; cbn [negb].
  - apply bool_decide_eq_true in Hin. intros H.
    destruct (Hpr s r s' H) as [Hsame Ht]. split; [done|].
    destruct r as [[]|e]; [left|right; eauto].
    split; [done|]. rewrite Ht. symmetry. apply topo_upd_id.
    intros l' Hl'. unfold neighbors in Hl. simplify_eq.
    unfold append_new. by rewrite decide_True.
  - apply bool_decide_eq_false in Hin. intros [= <- <-].
    split; [by repeat split|]. left. split; [done|]. cbn.
    apply topo_upd_ext. intros l' Hl'. unfold neighbors in Hl. simplify_eq.
    unfold append_new. by rewrite decide_False.
Qed.

Lemma reader_getattr_str o n : reader (v <- getattr o n ;; as_str v).
Proof. apply reader_bind; eauto with reader. Qed.

Lemma reader_getattr_int o n : reader (v <- getattr o n ;; as_int v).
Proof. apply reader_bind; eauto with reader. Qed.

#[global] Hint Resolve reader_getattr_str reader_getattr_int : reader.

Lemma getattr_str_Ok o n s x s' :
  (v <- getattr o n ;; as_str v) s = (Ok x, s') →
  ∃ a ob, o = VObj a ∧ objects s !! a = Some ob ∧ attrs ob !! n = Some (VStr x).
Proof.
  intros H. apply bind_inv in H as [(v & s1 & E & H)|(e & _ & [=])].
  apply getattr_Ok in E as (a & ob & -> & Hob & Hn).
  destruct v; try done. injection H as <- <-. eauto.
Qed.

Lemma getattr_int_Ok o n s x s' :
  (v <- getattr o n ;; as_int v) s = (Ok x, s') →
  ∃ a ob, o = VObj a ∧ objects s !! a = Some ob ∧ attrs ob !! n = Some (VInt x).
Proof.
  intros H. apply bind_inv in H as [(v & s1 & E & H)|(e & _ & [=])].
  apply getattr_Ok in E as (a & ob & -> & Hob & Hn).
  destruct v; try done. injection H as <- <-. eauto.
Qed.

Lemma neighbors_same s s' c g :
  topology s' = topology s → neighbors s' c g = neighbors s c g.
Proof. unfold neighbors. by intros ->. Qed.

Lemma register_link_effect self other s r s' :
  register_link self other s = (r, s') →
  same_but_topology s s' ∧
  ((∃ e, r = Raise e ∧ topology s' = topology s)
   ∨ ∃ cs gs co go,
       link_facts s self other cs gs co go ∧
       topology s' = link_topology (topology s) cs gs co go).
Proof.
  unfold register_link. intros H.
  assert (Hstop : ∀ e, same_but_topology s s ∧
            ((∃ e', @Raise unit e = Raise e' ∧ topology s = topology s) ∨
             ∃ cs gs co go, link_facts s self other cs gs co go ∧
               topology s = link_topology (topology s) cs gs co go)).
  { intros e. split; [apply same_but_topology_refl|]. left. by exists e. }
  destruct other as [| | | | |b| | | |]; cbn [isinstance_SimObject negb] in H;
    try (injection H as <- <-; apply Hstop).
  binv H as simv E; [|apply Hstop].
  apply getattr_Ok in E as (a & ob_s & [= <-] & Hob & Hsim).
  destruct simv; cbn [isinstance_Sim negb] in H; try (injection H as <- <-; apply Hstop).
  binv H as cs E; [|apply Hstop].
  apply getattr_str_Ok in E as (a & ob1 & [= <-] & Hob1 & Hcn). simplify_eq.
  binv H as sg E; [|apply Hstop].
  apply getattr_Ok in E as (a & ob2 & [= <-] & Hob2 & Hg). simplify_eq.
  binv H as ls E; [|apply Hstop].
  apply topology_get_Ok in E as (_ & gs & -> & Hls).
  binv H as simo E; [|apply Hstop].
  apply getattr_Ok in E as (a & ob_o & [= <-] & Hobo & Hsimo).
  binv H as co E; [|apply Hstop].
  apply getattr_str_Ok in E as (a & ob3 & [= <-] & Hob3 & Hcno). simplify_eq.
  binv H as og E; [|apply Hstop].
  apply getattr_Ok in E as (a & ob4 & [= <-] & Hob4 & Hgo). simplify_eq.
  binv H as lo E; [|apply Hstop].
  apply topology_get_Ok in E as (-> & go & -> & Hlo).
  cbn [as_int] in H.
  apply bind_inv in H as [(? & ? & [= <- <-] & H)|(? & [=] & _)].
  apply bind_inv in H as [(? & ? & [= <- <-] & H)|(? & [=] & _)].
  assert (Hfacts : link_facts s self (VObj b) cs gs co go).
  { exists b. do 2 eexists. repeat split; try eassumption; by eexists. }
  apply bind_inv in H as [([] & s1 & E1 & H)|(e & E1 & ->)].
  2:{ apply cond_append_inv with (l := ls) in E1
        as [Hsame [[[=] _]|(e' & _ & Ht & Hin)]];
        [|done|apply label_print_prints_only with
                 (line := fun sl ol => [sl; VStr ": "; ol; VStr " already exists in ";
                                        sl; VStr " topology list."])].
      split; [done|]. left. eauto. }
  apply cond_append_inv with (l := ls) in E1 as [Hsame1 [[_ Ht1]|(e' & [=] & _)]];
    [|done|apply label_print_prints_only with
             (line := fun sl ol => [sl; VStr ": "; ol; VStr " already exists in ";
                                    sl; VStr " topology list."])].
  assert (Hlo1 : is_Some (neighbors s1 co go)).
  { unfold neighbors. rewrite Ht1, topo_get_upd. unfold neighbors in Hls, Hlo.
    destruct (decide (co = cs ∧ go = gs)) as [[-> ->]|Hne].
    - rewrite Hls. by eexists.
    - by eexists. }
  apply bind_inv in H as [(lo1 & s2 & E2 & H)|(e & E2 & ->)].
  2:{ exfalso. destruct Hlo1 as [l1 Hl1]. unfold topology_get in E2.
      cbn [isinstance_Sim topology_lookup] in E2. unfold neighbors in Hl1.
      by rewrite Hl1 in E2. }
  pose proof E2 as E2'. apply reader_inv in E2' as ->; [|eauto with reader].
  apply topology_get_Ok in E2 as (_ & go' & [= <-] & Hl1).
  apply cond_append_inv with (l := lo1) in H
    as [Hsame2 [[_ Ht2]|(e' & _ & Ht2 & Hin)]];
    [| |done|apply label_print_prints_only with
                (line := fun sl ol => [sl; VStr ": "; sl; VStr " already exists in ";
                                       ol; VStr " topology list."])].
  - split; [by eapply same_but_topology_trans|]. right.
    exists cs, gs, co, go. split; [done|]. by rewrite Ht2, Ht1.
  - split; [by eapply same_but_topology_trans|]. right.
    exists cs, gs, co, go. split; [done|]. rewrite Ht2, Ht1.
    unfold link_topology. symmetry. apply topo_upd_id.
    intros l' Hl'. unfold neighbors in Hl1. rewrite Ht1 in Hl1. simplify_eq.
    unfold append_new. by rewrite decide_True.
Qed.

Lemma class_unique s c c' g :
  WF s → registered s c g → registered s c' g → c = c'.
Proof.
  intros Hwf Hr Hr'.
  destruct (wf_reg s Hwf c g Hr) as (ob & Hob & <-).
  destruct (wf_reg s Hwf c' g Hr') as (ob' & Hob' & <-). congruence.
Qed.

Lemma WF_objects_only s s' :
  same_but_topology s s' → WF s →
  guid_is_id s' ∧ class_name_is_class s' ∧ no_private_sim s' ∧ no_accumulator s'
  ∧ guid_map_sound s'.
Proof.
  intros (Hg & _ & _ & _ & _ & _ & Ho & _) [H1 H2 H3 H4 H5 H6 H7 H8 H9].
  unfold guid_is_id, class_name_is_class, no_private_sim, no_accumulator,
    guid_map_sound, attr_of in *.
  rewrite Hg, Ho. done.
Qed.

Lemma WF_link s s' cs gs co go :
  WF s → registered s cs gs → registered s co go →
  same_but_topology s s' →
  topology s' = link_topology (topology s) cs gs co go →
  WF s'.
Proof.
  intros Hwf Hrs Hro Hsame Ht.
  destruct (WF_objects_only s s' Hsame Hwf) as (J & K & N & A & G).
  assert (Hnb : ∀ c g l', neighbors s' c g = Some l' →
            ∃ l, neighbors s c g = Some l ∧
                 ∀ x, x ∈ l' ↔ x ∈ l ∨ (c = cs ∧ g = gs ∧ x = go)
                                ∨ (c = co ∧ g = go ∧ x = gs)).
  { intros c g l' Hl'. unfold neighbors in *. rewrite Ht in Hl'.
    destruct (topo_get_link (topology s) cs gs co go c g Hrs Hro) as (l2 & Heq & Hl2).
    rewrite Heq in Hl'. destruct (topo_get (topology s) c g) as [l|] eqn:E; [|done].
    cbn in Hl'. simplify_eq. exists l. split; [done|]. by apply Hl2. }
  assert (Hreg : ∀ c g, registered s c g ↔ registered s' c g).
  { intros c g. unfold registered, neighbors. rewrite Ht.
    destruct (topo_get_link (topology s) cs gs co go c g Hrs Hro) as (l2 & Heq & _).
    rewrite Heq. by rewrite fmap_is_Some. }
  destruct Hsame as (_ & _ & Hu & _ & _ & _ & Ho & _).
  split; try assumption.
  - intros c g Hr. apply Hreg in Hr. rewrite Ho. by apply (wf_reg s Hwf).
  - intros c g l' x Hl' Hin. destruct (Hnb c g l' Hl') as (l & Hl & Hx).
    destruct (proj1 (Hx x) Hin) as [Hin'|[(_ & _ & ->)|(_ & _ & ->)]].
    + destruct (wf_closed s Hwf c g l x Hl Hin') as (c' & Hr). exists c'. by apply Hreg.
    + exists co. by apply Hreg.
    + exists cs. by apply Hreg.
  - intros cA gA lA' cB gB lB' HA HB.
    destruct (Hnb cA gA lA' HA) as (lA & HlA & HxA).
    destruct (Hnb cB gB lB' HB) as (lB & HlB & HxB).
    rewrite HxA, HxB. pose proof (wf_sym s Hwf cA gA lA cB gB lB HlA HlB) as Hsym.
    assert (HrA : registered s cA gA) by (by eexists).
    assert (HrB : registered s cB gB) by (by eexists).
    split.
    + intros [Hin|[(-> & -> & ->)|(-> & -> & ->)]].
      * left. by apply Hsym.
      * right. right. split; [|done]. by eapply class_unique.
      * right. left. split; [|done]. by eapply class_unique.
    + intros [Hin|[(-> & -> & ->)|(-> & -> & ->)]].
      * left. by apply Hsym.
      * right. right. split; [|done]. by eapply class_unique.
      * right. left. split; [|done]. by eapply class_unique.
  - intros a Ha. rewrite Hu in Ha. apply Hreg. by apply (wf_ues s Hwf).
Qed.

Lemma WF_same_topology s s' :
  same_but_topology s s' → topology s' = topology s → WF s → WF s'.
Proof.
  intros (Hg & _ & Hu & _ & _ & _ & Ho & _) Ht. by apply WF_frame.
Qed.

Lemma WF_register_link self other : preserves WF (register_link self other).
Proof.
  intros s Hs. destruct (register_link self other s) as [r s'] eqn:E.
  apply register_link_effect in E
    as [Hsame [(e & -> & Ht)|(cs & gs & co & go & Hf & Ht)]].
  - by eapply WF_same_topology.
  - destruct Hf as (b & ob_s & ob_o & _ & _ & _ & _ & _ & _ & _ & Hrs & Hro).
    assert (WF s') by (by apply (WF_link s s' cs gs co go)). by destruct r.
Qed.

Lemma WF_deregister_link self other : preserves WF (deregister_link self other).
Proof.
  intros s Hs. unfold deregister_link.
  destruct (isinstance_SimObject other); cbn [negb]; [|done].
  unfold bind at 1. unfold getattr at 1.
  destruct (objects s !! self) as [ob|] eqn:Hob; [|done].
  by rewrite (wf_no_sim s Hs self ob Hob).
Qed.

#[global] Hint Resolve WF_print WF_next_id_iter WF_new_dict WF_dict_setitem
  WF_setattr_guid WF_add_to_sim WF_register_link WF_deregister_link : wf.

(** *** Constructors *)

Lemma preserves_bind_reader {A B} (I : State → Prop) (m : M A) (k : A → M B) :
  reader m →
  (∀ a, hoare (fun s => I s ∧ m s = (Ok a, s)) (k a) (fun _ => I) (fun _ => I)) →
  preserves I (bind m k).
Proof.
  intros Hr Hk. eapply hoare_bind.
  - eapply hoare_conseq; [by apply hoare_reader| | |]; cbn; try done.
    + intros a s H. exact H.
    + by intros e s [? _].
  - done.
Qed.

Lemma hoare_weaken_pre {A} (P P' : State → Prop) (m : M A) Q E :
  hoare P' m Q E → (∀ s, P s → P' s) → hoare P m Q E.
Proof. intros H HP. eapply hoare_conseq; eauto. Qed.

Ltac wf_pres :=
  repeat first
    [ solve [eauto with wf]
    | apply WF_setattr; solve [plain]
    | apply preserves_ret
    | apply preserves_raise
    | apply preserves_bind; [|intros ?]
    | apply preserves_for; intros ?
    | apply preserves_while
    | apply preserves_run_loop
    | apply preserves_reader; solve [eauto with reader]
    | apply preserves_modify; solve [wf_frame]
    | match goal with
      | |- preserves _ (if ?b then _ else _) => destruct b
      | |- preserves _ (match ?x with _ => _ end) => destruct x
      end ].

Lemma WF_SimObject__init__ self sim : preserves WF (SimObject__init__ self sim).
Proof.
  unfold SimObject__init__.
  apply preserves_bind; [apply WF_setattr_guid|]. intros _.
  apply preserves_bind_reader; [eauto with reader|]. intros c.
  eapply hoare_bind with (Q1 := fun _ => WF).
  - intros s [Hwf Hc]. apply class_of_Ok in Hc as (ob & Hob & <-).
    apply WF_setattr_gen; try done. intros _ ob' Hob'. congruence.
  - intros _. wf_pres.
Qed.

#[global] Hint Resolve WF_SimObject__init__ : wf.

Lemma WF_new c a (init : M unit) (r : pyval) :
  preserves WF init →
  hoare (fun s => WF s ∧ objects s !! a = None) (alloc c a ;;; init ;;; ret r)
        (fun _ => WF) (fun _ => WF).
Proof.
  intros Hinit. eapply hoare_bind with (Q1 := fun _ => WF).
  - intros s [Hwf Hfresh]. by apply WF_alloc.
  - intros _. wf_pres.
Qed.

Lemma WF_dict_comprehension xs key value :
  (∀ i, preserves WF (value i)) → preserves WF (dict_comprehension xs key value).
Proof. intros Hv. unfold dict_comprehension. wf_pres. Qed.

Lemma WF_AIMMeeCell__init__ self sim : preserves WF (AIMMeeCell__init__ self sim).
Proof. unfold AIMMeeCell__init__. wf_pres. Qed.

Lemma WF_RadioAccessPoint__init__ self sim cell acc itv :
  preserves WF (RadioAccessPoint__init__ self sim cell acc itv).
Proof. unfold RadioAccessPoint__init__. wf_pres. Qed.

Lemma WF_RadioUnit__init__ self sim cell rap du itv :
  preserves WF (RadioUnit__init__ self sim cell rap du itv).
Proof. unfold RadioUnit__init__. wf_pres. Qed.

Lemma WF_power_model self : preserves WF (power_model self).
Proof. unfold power_model. wf_pres. Qed.

#[global] Hint Resolve WF_power_model : wf.

Lemma WF_set_power_model self v : preserves WF (set_power_model self v).
Proof. unfold set_power_model. wf_pres. Qed.

#[global] Hint Resolve WF_set_power_model : wf.

Lemma WF_DistributedUnit__init__ self sim : preserves WF (DistributedUnit__init__ self sim).
Proof. unfold DistributedUnit__init__, example_DU_power_model. wf_pres. Qed.

Lemma WF_CentralisedUnit__init__ self sim : preserves WF (CentralisedUnit__init__ self sim).
Proof. unfold CentralisedUnit__init__. wf_pres. Qed.

Lemma WF_RemoteRadioHead__init__ self sim rap ru du n fh :
  preserves WF (RemoteRadioHead__init__ self sim rap ru du n fh).
Proof.
  unfold RemoteRadioHead__init__, make_rf_ports, make_fronthaul_ports.
  wf_pres; apply WF_dict_comprehension; intros; wf_pres.
Qed.

Lemma WF_AntennaPanel__init__ self sim rrh xyz az el pat :
  preserves WF (AntennaPanel__init__ self sim rrh xyz az el pat).
Proof. unfold AntennaPanel__init__. wf_pres. Qed.

Lemma WF_AIMMeeUE__init__ self sim ri : preserves WF (AIMMeeUE__init__ self sim ri).
Proof. unfold AIMMeeUE__init__, AIMM_UE__init__. wf_pres. Qed.

Lemma WF_attach_to_du self du : preserves WF (attach_to_du self du).
Proof. unfold attach_to_du. wf_pres. Qed.

Lemma WF_attach ue cell : preserves WF (attach ue cell).
Proof. unfold attach. wf_pres. Qed.

Lemma WF_update_cell_guid ue : preserves WF (update_cell_guid ue).
Proof. unfold update_cell_guid. wf_pres. Qed.

Lemma WF_default_loop self n : preserves WF (run_loop n (default_loop_body self)).
Proof. wf_pres. Qed.

(** ** The attachment of a UE *)

Lemma list_remove_length x l :
  x ∈ l → (length (list_remove x l) < length l)%nat.
Proof.
  induction l as [|y l IH]; [by intros ?%elem_of_nil|].
  intros Hin. cbn. destruct (decide (x = y)) as [->|Hne]; [lia|].
  apply elem_of_cons in Hin as [?|Hin]; [done|]. cbn. specialize (IH Hin). lia.
Qed.

Lemma remove_all_list_remove x l : remove_all x (list_remove x l) = remove_all x l.
Proof.
  unfold remove_all. induction l as [|y l IH]; [done|]. cbn [list_remove].
  destruct (decide (x = y)) as [->|Hne].
  - by rewrite filter_cons_False by (intros H; by apply H).
  - rewrite !filter_cons. destruct (decide (y ≠ x)); by rewrite IH.
Qed.

Lemma remove_all_notin x l : x ∉ l → remove_all x l = l.
Proof.
  unfold remove_all. induction l as [|y l IH]; [done|].
  intros Hnin. apply not_elem_of_cons in Hnin as [Hne Hnin].
  rewrite filter_cons_True by done. by rewrite IH.
Qed.

Lemma elem_of_remove_all x y l : y ∈ remove_all x l ↔ y ∈ l ∧ y ≠ x.
Proof. unfold remove_all. rewrite list_elem_of_filter. naive_solver. Qed.

Lemma topo_upd_upd t c g f f' :
  topo_upd (topo_upd t c g f) c g f' = topo_upd t c g (f' ∘ f).
Proof.
  unfold topo_upd. destruct (t !! c) as [m|] eqn:Hc; [|by rewrite Hc].
  destruct (m !! g) as [l|] eqn:Hg; [|by rewrite Hc, Hg].
  rewrite lookup_insert_eq, lookup_insert_eq, !insert_insert_eq. done.
Qed.

Lemma set_topology_ext f g s :
  f (topology s) = g (topology s) → set_topology f s = set_topology g s.
Proof. unfold set_topology. by intros ->. Qed.

Lemma set_topology_id f s : f (topology s) = topology s → set_topology f s = s.
Proof. unfold set_topology. intros ->. by destruct s. Qed.

Lemma getattr_eval s a ob n v :
  objects s !! a = Some ob → attrs ob !! n = Some v → getattr (VObj a) n s = (Ok v, s).
Proof. intros Hob Hn. unfold getattr. by rewrite Hob, Hn. Qed.

Lemma topology_get_eval s c g l :
  neighbors s c g = Some l → topology_get VSim c (VInt g) s = (Ok l, s).
Proof.
  unfold neighbors, topology_get. cbn [isinstance_Sim topology_lookup]. by intros ->.
Qed.

Lemma bind_eval {A B} (m : M A) (k : A → M B) s a s1 :
  m s = (Ok a, s1) → bind m k s = k a s1.
Proof. unfold bind. by intros ->. Qed.

Section remove_loop.
Context (self : Z) (ob : pyobj) (x_attr k_attr c : string) (xz kz : Z).
Hypothesis Hx : attrs ob !! x_attr = Some (VInt xz).
Hypothesis Hsim : attrs ob !! "sim" = Some VSim.
Hypothesis Hk : attrs ob !! k_attr = Some (VInt kz).

Lemma remove_loop_eval fuel s l :
  objects s !! self = Some ob →
  neighbors s c kz = Some l →
  (length l < fuel)%nat →
  py_while fuel
    (x <- getattr (VObj self) x_attr ;;
     simv <- getattr (VObj self) "sim" ;;
     k <- getattr (VObj self) k_attr ;;
     l <- topology_get simv c k ;;
     ret (py_in x l))
    (simv <- getattr (VObj self) "sim" ;;
     k <- getattr (VObj self) k_attr ;;
     _ <- topology_get simv c k ;;
     x <- getattr (VObj self) x_attr ;;
     kz <- as_int k ;;
     xz <- as_int x ;;
     topology_update c kz (list_remove xz)) s
  = (Ok tt, set_topology (fun t => topo_upd t c kz (remove_all xz)) s).
Proof.
  revert s l. induction fuel as [|fuel IH]; intros s l Hob Hl Hlen; [lia|].
  cbn [py_while].
  rewrite (bind_eval _ _ s (py_in (VInt xz) l) s).
  2:{ rewrite (bind_eval _ _ _ _ _ (getattr_eval s self ob x_attr _ Hob Hx)).
      rewrite (bind_eval _ _ _ _ _ (getattr_eval s self ob "sim" _ Hob Hsim)).
      rewrite (bind_eval _ _ _ _ _ (getattr_eval s self ob k_attr _ Hob Hk)).
      by rewrite (bind_eval _ _ _ _ _ (topology_get_eval s c kz l Hl)). }
  cbn [py_in]. destruct (bool_decide (xz ∈ l)) eqn:Hin.
  - apply bool_decide_eq_true in Hin.
    rewrite (bind_eval _ _ s tt (set_topology (fun t => topo_upd t c kz (list_remove xz)) s)).
    2:{ rewrite (bind_eval _ _ _ _ _ (getattr_eval s self ob "sim" _ Hob Hsim)).
        rewrite (bind_eval _ _ _ _ _ (getattr_eval s self ob k_attr _ Hob Hk)).
        rewrite (bind_eval _ _ _ _ _ (topology_get_eval s c kz l Hl)).
        by rewrite (bind_eval _ _ _ _ _ (getattr_eval s self ob x_attr _ Hob Hx)). }
    rewrite (IH _ (list_remove xz l)).
    + f_equal. unfold set_topology. cbn. f_equal.
      rewrite topo_upd_upd. apply topo_upd_ext. intros l' Hl'.
      unfold neighbors in Hl. simplify_eq. cbn. apply remove_all_list_remove.
    + done.
    + unfold neighbors. cbn. rewrite topo_get_upd, decide_True by done.
      unfold neighbors in Hl. by rewrite Hl.
    + pose proof (list_remove_length xz l Hin). lia.
  - apply bool_decide_eq_false in Hin. cbn [ret]. f_equal. symmetry.
    apply set_topology_id. apply topo_upd_id. intros l' Hl'.
    unfold neighbors in Hl. simplify_eq. by apply remove_all_notin.
Qed.
End remove_loop.

Lemma remove_while_present_effect self x_attr c k_attr s r s' :
  remove_while_present self x_attr c k_attr s = (r, s') →
  same_but_topology s s' ∧
  ((∃ e, r = Raise e ∧ topology s' = topology s)
   ∨ (r = Ok tt ∧
      ∃ ob x kz,
        objects s !! self = Some ob ∧ attrs ob !! x_attr = Some x ∧
        attrs ob !! k_attr = Some (VInt kz) ∧ attrs ob !! "sim" = Some VSim ∧
        registered s c kz ∧
        topology s' = topo_upd (topology s) c kz (remove_value x))).
Proof.
  unfold remove_while_present. intros H.
  assert (Hstop : ∀ e : exn, same_but_topology s s ∧
            ((∃ e', @Raise unit e = Raise e' ∧ topology s = topology s) ∨
             (@Raise unit e = Ok tt ∧
              ∃ ob x kz,
                objects s !! self = Some ob ∧ attrs ob !! x_attr = Some x ∧
                attrs ob !! k_attr = Some (VInt kz) ∧ attrs ob !! "sim" = Some VSim ∧
                registered s c kz ∧
                topology s = topo_upd (topology s) c kz (remove_value x)))).
  { intros e. split; [apply same_but_topology_refl|]. left. by exists e. }
  binv H as x E; [|apply Hstop].
  apply getattr_Ok in E as (a & ob & [= <-] & Hob & Hx).
  binv H as simv E; [|apply Hstop].
  apply getattr_Ok in E as (a & ob1 & [= <-] & Hob1 & Hsim). simplify_eq.
  binv H as k E; [|apply Hstop].
  apply getattr_Ok in E as (a & ob2 & [= <-] & Hob2 & Hk). simplify_eq.
  binv H as l E; [|apply Hstop].
  apply topology_get_Ok in E as (-> & kz & -> & Hl).
  assert (Hreg : registered s c kz) by (by eexists).
  assert (Hcases : (∃ xz, x = VInt xz) ∨ ¬ (∃ xz, x = VInt xz)).
  { destruct x; try (right; by intros [? [=]]). left. by eexists. }
  destruct Hcases as [[xz ->]|Hnint].
  - rewrite (remove_loop_eval self _ x_attr k_attr c xz kz Hx Hsim Hk _ s l) in H
      by (done || lia).
    injection H as <- <-. split; [by repeat split|]. right. split; [done|].
    exists ob2, (VInt xz), kz. done.
  - cbn [py_while] in H.
    rewrite (bind_eval _ _ s false s) in H.
    2:{ rewrite (bind_eval _ _ _ _ _ (getattr_eval s self _ x_attr _ Hob2 Hx)).
        rewrite (bind_eval _ _ _ _ _ (getattr_eval s self _ "sim" _ Hob2 Hsim)).
        rewrite (bind_eval _ _ _ _ _ (getattr_eval s self _ k_attr _ Hob2 Hk)).
        rewrite (bind_eval _ _ _ _ _ (topology_get_eval s c kz l Hl)).
        destruct x; try done. exfalso. apply Hnint. by eexists. }
    injection H as <- <-. split; [apply same_but_topology_refl|]. right.
    split; [done|]. exists ob2, x, kz. repeat split; try done.
    symmetry. apply topo_upd_id. intros l' _. destruct x; try done.
    exfalso. apply Hnint. by eexists.
Qed.

Lemma append_if_absent_effect self x_attr c k_attr s r s' :
  append_if_absent self x_attr c k_attr s = (r, s') →
  same_but_topology s s' ∧
  ((∃ e, r = Raise e ∧ topology s' = topology s)
   ∨ (r = Ok tt ∧
      ∃ ob xz kz,
        objects s !! self = Some ob ∧ attrs ob !! x_attr = Some (VInt xz) ∧
        attrs ob !! k_attr = Some (VInt kz) ∧ attrs ob !! "sim" = Some VSim ∧
        registered s c kz ∧
        topology s' = topo_upd (topology s) c kz (append_new xz))).
Proof.
  unfold append_if_absent. intros H.
  assert (Hstop : ∀ e : exn, same_but_topology s s ∧
            ((∃ e', @Raise unit e = Raise e' ∧ topology s = topology s) ∨
             (@Raise unit e = Ok tt ∧
              ∃ ob xz kz,
                objects s !! self = Some ob ∧ attrs ob !! x_attr = Some (VInt xz) ∧
                attrs ob !! k_attr = Some (VInt kz) ∧ attrs ob !! "sim" = Some VSim ∧
                registered s c kz ∧
                topology s = topo_upd (topology s) c kz (append_new xz)))).
  { intros e. split; [apply same_but_topology_refl|]. left. by exists e. }
  binv H as x E; [|apply Hstop].
  apply getattr_Ok in E as (a & ob & [= <-] & Hob & Hx).
  binv H as simv E; [|apply Hstop].
  apply getattr_Ok in E as (a & ob1 & [= <-] & Hob1 & Hsim). simplify_eq.
  binv H as k E; [|apply Hstop].
  apply getattr_Ok in E as (a & ob2 & [= <-] & Hob2 & Hk). simplify_eq.
  binv H as l E; [|apply Hstop].
  apply topology_get_Ok in E as (-> & kz & -> & Hl).
  assert (Hreg : registered s c kz) by (by eexists).
  destruct (py_in x l) eqn:Hin; cbn [negb] in H.
  - injection H as <- <-. split; [apply same_but_topology_refl|]. right.
    split; [done|]. destruct x as [| |xz| | | | | | |]; try done.
    cbn [py_in] in Hin. apply bool_decide_eq_true in Hin.
    exists ob2, xz, kz. repeat split; try done.
    symmetry. apply topo_upd_id. intros l' Hl'. unfold neighbors in Hl. simplify_eq.
    unfold append_new. by rewrite decide_True.
  - rewrite (bind_eval _ _ _ _ _ (getattr_eval s self _ "sim" _ Hob2 Hsim)) in H.
    rewrite (bind_eval _ _ _ _ _ (getattr_eval s self _ k_attr _ Hob2 Hk)) in H.
    rewrite (bind_eval _ _ _ _ _ (topology_get_eval s c kz l Hl)) in H.
    rewrite (bind_eval _ _ _ _ _ (getattr_eval s self _ x_attr _ Hob2 Hx)) in H.
    cbn [as_int] in H. rewrite (bind_eval _ _ s kz s) in H by done.
    destruct x as [| |xz| | | | | | |]; try (injection H as <- <-; apply Hstop).
    injection H as <- <-. split; [by repeat split|]. right. split; [done|].
    cbn [py_in] in Hin. apply bool_decide_eq_false in Hin.
    exists ob2, xz, kz. repeat split; try done. cbn.
    apply topo_upd_ext. intros l' Hl'. unfold neighbors in Hl. simplify_eq.
    unfold append_new. by rewrite decide_False.
Qed.

Lemma remove_while_present_eval self ob x_attr c k_attr xz kz s l :
  objects s !! self = Some ob →
  attrs ob !! x_attr = Some (VInt xz) → attrs ob !! "sim" = Some VSim →
  attrs ob !! k_attr = Some (VInt kz) → neighbors s c kz = Some l →
  remove_while_present self x_attr c k_attr s
  = (Ok tt, set_topology (fun t => topo_upd t c kz (remove_all xz)) s).
Proof.
  intros Hob Hx Hsim Hk Hl. unfold remove_while_present.
  rewrite (bind_eval _ _ _ _ _ (getattr_eval s self _ x_attr _ Hob Hx)).
  rewrite (bind_eval _ _ _ _ _ (getattr_eval s self _ "sim" _ Hob Hsim)).
  rewrite (bind_eval _ _ _ _ _ (getattr_eval s self _ k_attr _ Hob Hk)).
  rewrite (bind_eval _ _ _ _ _ (topology_get_eval s c kz l Hl)).
  by apply (remove_loop_eval self ob x_attr k_attr c xz kz Hx Hsim Hk _ s l); [..|lia].
Qed.

Lemma append_if_absent_eval self ob x_attr c k_attr xz kz s l :
  objects s !! self = Some ob →
  attrs ob !! x_attr = Some (VInt xz) → attrs ob !! "sim" = Some VSim →
  attrs ob !! k_attr = Some (VInt kz) → neighbors s c kz = Some l →
  append_if_absent self x_attr c k_attr s
  = (Ok tt, set_topology (fun t => topo_upd t c kz (append_new xz)) s).
Proof.
  intros Hob Hx Hsim Hk Hl. unfold append_if_absent.
  rewrite (bind_eval _ _ _ _ _ (getattr_eval s self _ x_attr _ Hob Hx)).
  rewrite (bind_eval _ _ _ _ _ (getattr_eval s self _ "sim" _ Hob Hsim)).
  rewrite (bind_eval _ _ _ _ _ (getattr_eval s self _ k_attr _ Hob Hk)).
  rewrite (bind_eval _ _ _ _ _ (topology_get_eval s c kz l Hl)).
  cbn [py_in]. destruct (bool_decide (xz ∈ l)) eqn:Hin; cbn [negb].
  - apply bool_decide_eq_true in Hin. cbn [ret]. f_equal. symmetry.
    apply set_topology_id, topo_upd_id. intros l' Hl'.
    unfold neighbors in Hl. simplify_eq. unfold append_new. by rewrite decide_True.
  - apply bool_decide_eq_false in Hin.
    rewrite (bind_eval _ _ _ _ _ (getattr_eval s self _ "sim" _ Hob Hsim)).
    rewrite (bind_eval _ _ _ _ _ (getattr_eval s self _ k_attr _ Hob Hk)).
    rewrite (bind_eval _ _ _ _ _ (topology_get_eval s c kz l Hl)).
    rewrite (bind_eval _ _ _ _ _ (getattr_eval s self _ x_attr _ Hob Hx)).
    cbn [as_int]. rewrite (bind_eval _ _ s kz s) by done.
    unfold topology_update, modify. f_equal. apply set_topology_ext.
    apply topo_upd_ext. intros l' Hl'. unfold neighbors in Hl. simplify_eq.
    unfold append_new. by rewrite decide_False.
Qed.

(** Adjacency lists of the unlinked topology. *)
Lemma topo_get_unlink t c1 g1 c2 g2 c g :
  ∃ l', topo_get (unlink_topology t c1 g1 c2 g2) c g
        = (fun l => l') <$> topo_get t c g
        ∧ ∀ l, topo_get t c g = Some l →
               ∀ x, x ∈ l' ↔ x ∈ l ∧ ¬ (c = c1 ∧ g = g1 ∧ x = g2)
                                   ∧ ¬ (c = c2 ∧ g = g2 ∧ x = g1).
Proof.
  unfold unlink_topology. rewrite !topo_get_upd.
  destruct (decide (c = c2 ∧ g = g2)) as [[-> ->]|Hn1];
    destruct (decide (c2 = c1 ∧ g2 = g1)) as [[-> ->]|Hn2];
    try destruct (decide (c = c1 ∧ g = g1)) as [[-> ->]|Hn3].
  - destruct (topo_get t c1 g1) as [l|]; cbn; [|by exists []].
    eexists. split; [done|]. intros ? [= <-] x.
    rewrite !elem_of_remove_all. naive_solver.
  - destruct (topo_get t c2 g2) as [l|]; cbn; [|by exists []].
    eexists. split; [done|]. intros ? [= <-] x.
    rewrite !elem_of_remove_all. naive_solver.
  - destruct (topo_get t c1 g1) as [l|]; cbn; [|by exists []].
    eexists. split; [done|]. intros ? [= <-] x.
    rewrite !elem_of_remove_all. naive_solver.
  - destruct (topo_get t c g) as [l|]; cbn; [|by exists []].
    exists l. split; [done|]. intros ? [= <-] x. naive_solver.
  - destruct (topo_get t c1 g1) as [l|]; cbn; [|by exists []].
    eexists. split; [done|]. intros ? [= <-] x.
    rewrite !elem_of_remove_all. naive_solver.
  - destruct (topo_get t c g) as [l|]; cbn; [|by exists []].
    exists l. split; [done|]. intros ? [= <-] x. naive_solver.
Qed.

Lemma WF_unlink s s' c1 g1 c2 g2 :
  WF s → registered s c1 g1 → registered s c2 g2 →
  same_but_topology s s' →
  topology s' = unlink_topology (topology s) c1 g1 c2 g2 →
  WF s'.
Proof.
  intros Hwf Hr1 Hr2 Hsame Ht.
  destruct (WF_objects_only s s' Hsame Hwf) as (J & K & N & A & G).
  assert (Hnb : ∀ c g l', neighbors s' c g = Some l' →
            ∃ l, neighbors s c g = Some l ∧
                 ∀ x, x ∈ l' ↔ x ∈ l ∧ ¬ (c = c1 ∧ g = g1 ∧ x = g2)
                                     ∧ ¬ (c = c2 ∧ g = g2 ∧ x = g1)).
  { intros c g l' Hl'. unfold neighbors in *. rewrite Ht in Hl'.
    destruct (topo_get_unlink (topology s) c1 g1 c2 g2 c g) as (l2 & Heq & Hl2).
    rewrite Heq in Hl'. destruct (topo_get (topology s) c g) as [l|] eqn:E; [|done].
    cbn in Hl'. simplify_eq. exists l. split; [done|]. by apply Hl2. }
  assert (Hreg : ∀ c g, registered s c g ↔ registered s' c g).
  { intros c g. unfold registered, neighbors. rewrite Ht.
    destruct (topo_get_unlink (topology s) c1 g1 c2 g2 c g) as (l2 & Heq & _).
    rewrite Heq. by rewrite fmap_is_Some. }
  destruct Hsame as (_ & _ & Hu & _ & _ & _ & Ho & _).
  split; try assumption.
  - intros c g Hr. apply Hreg in Hr. rewrite Ho. by apply (wf_reg s Hwf).
  - intros c g l' x Hl' Hin. destruct (Hnb c g l' Hl') as (l & Hl & Hx).
    destruct (proj1 (Hx x) Hin) as (Hin' & _).
    destruct (wf_closed s Hwf c g l x Hl Hin') as (c' & Hr). exists c'. by apply Hreg.
  - intros cA gA lA' cB gB lB' HA HB.
    destruct (Hnb cA gA lA' HA) as (lA & HlA & HxA).
    destruct (Hnb cB gB lB' HB) as (lB & HlB & HxB).
    rewrite HxA, HxB. pose proof (wf_sym s Hwf cA gA lA cB gB lB HlA HlB) as Hsym.
    assert (HrA : registered s cA gA) by (by eexists).
    assert (HrB : registered s cB gB) by (by eexists).
    assert (Hc1 : ∀ c, registered s c g1 → c = c1)
      by (intros c Hc; by eapply class_unique).
    assert (Hc2 : ∀ c, registered s c g2 → c = c2)
      by (intros c Hc; by eapply class_unique).
    split.
    + intros (Hin & Hn1 & Hn2). split; [by apply Hsym|]. split.
      * intros (-> & -> & ->). apply Hn2. by rewrite (Hc2 cA HrA).
      * intros (-> & -> & ->). apply Hn1. by rewrite (Hc1 cA HrA).
    + intros (Hin & Hn1 & Hn2). split; [by apply Hsym|]. split.
      * intros (-> & -> & ->). apply Hn2. by rewrite (Hc2 cB HrB).
      * intros (-> & -> & ->). apply Hn1. by rewrite (Hc1 cB HrB).
  - intros a Ha. rewrite Hu in Ha. apply Hreg. by apply (wf_ues s Hwf).
Qed.

Lemma registered_topo_upd s s' c g f c' g' :
  topology s' = topo_upd (topology s) c g f →
  registered s c' g' → registered s' c' g'.
Proof.
  unfold registered, neighbors. intros -> [l Hl]. rewrite topo_get_upd.
  destruct (decide (c' = c ∧ g' = g)) as [[-> ->]|Hne]; [|by eexists].
  rewrite Hl. by eexists.
Qed.

(** The removal phase of [update_ue_topology]: both loops run to the
    end, or the first one raises before changing anything. *)
Lemma WF_remove_phase ue s r s' ob :
  WF s → registered s "AIMMeeUE" ue →
  objects s !! ue = Some ob →
  attrs ob !! "guid" = Some (VInt ue) →
  (remove_while_present ue "guid" "AIMMeeCell" "last_cell_guid" ;;;
   remove_while_present ue "last_cell_guid" "AIMMeeUE" "guid") s = (r, s') →
  WF s' ∧ same_but_topology s s'.
Proof.
  intros Hwf Hreg Hob Hg H.
  apply bind_inv in H as [([] & s1 & E1 & H)|(e & E1 & ->)].
  2:{ apply remove_while_present_effect in E1
        as [Hsame [(e' & _ & Ht)|([=] & _)]].
      split; [by eapply WF_same_topology|done]. }
  apply remove_while_present_effect in E1
    as [Hsame [(e' & [=] & _)|(_ & ob1 & x & kz & Hob1 & Hx & Hk & Hsim & Hrk & Ht)]].
  rewrite Hob in Hob1. injection Hob1 as <-.
  rewrite Hg in Hx. injection Hx as <-. cbn [remove_value] in Ht.
  assert (Ho1 : objects s1 = objects s) by (by destruct Hsame as (_&_&_&_&_&_&?&_)).
  assert (Hreg1 : registered s1 "AIMMeeUE" ue) by (by eapply registered_topo_upd).
  destruct Hreg1 as [l1 Hl1].
  rewrite (remove_while_present_eval ue ob "last_cell_guid" "AIMMeeUE" "guid" kz ue s1 l1)
    in H; try done; [|by rewrite Ho1].
  injection H as <- <-.
  assert (Hsame2 : same_but_topology s
            (set_topology (λ t, topo_upd t "AIMMeeUE" ue (remove_all kz)) s1)).
  { eapply same_but_topology_trans; [done|]. by repeat split. }
  split; [|done].
  apply (WF_unlink s _ "AIMMeeCell" kz "AIMMeeUE" ue Hwf Hrk Hreg Hsame2).
  cbn. by rewrite Ht.
Qed.

(** The attachment phase: both appends are made, or the first one
    raises before changing anything. *)
Lemma WF_append_phase ue s r s' ob :
  WF s → registered s "AIMMeeUE" ue →
  objects s !! ue = Some ob →
  attrs ob !! "guid" = Some (VInt ue) →
  (append_if_absent ue "guid" "AIMMeeCell" "current_cell_guid" ;;;
   append_if_absent ue "current_cell_guid" "AIMMeeUE" "guid") s = (r, s') →
  WF s'.
Proof.
  intros Hwf Hreg Hob Hg H.
  apply bind_inv in H as [([] & s1 & E1 & H)|(e & E1 & ->)].
  2:{ apply append_if_absent_effect in E1
        as [Hsame [(e' & _ & Ht)|([=] & _)]].
      by eapply WF_same_topology. }
  apply append_if_absent_effect in E1
    as [Hsame [(e' & [=] & _)|(_ & ob1 & xz & kz & Hob1 & Hx & Hk & Hsim & Hrk & Ht)]].
  rewrite Hob in Hob1. injection Hob1 as <-.
  rewrite Hg in Hx. injection Hx as <-.
  assert (Ho1 : objects s1 = objects s) by (by destruct Hsame as (_&_&_&_&_&_&?&_)).
  assert (Hreg1 : registered s1 "AIMMeeUE" ue) by (by eapply registered_topo_upd).
  destruct Hreg1 as [l1 Hl1].
  rewrite (append_if_absent_eval ue ob "current_cell_guid" "AIMMeeUE" "guid" kz ue s1 l1)
    in H; try done; [|by rewrite Ho1].
  injection H as <- <-.
  apply (WF_link s _ "AIMMeeCell" kz "AIMMeeUE" ue Hwf Hrk Hreg).
  - eapply same_but_topology_trans; [done|]. by repeat split.
  - cbn. by rewrite Ht.
Qed.

Lemma registered_same s s' c g :
  topology s' = topology s → registered s c g → registered s' c g.
Proof. unfold registered, neighbors. by intros ->. Qed.

Lemma WF_update_ue_topology ue :
  hoare (fun s => WF s ∧ ue ∈ UEs s) (update_ue_topology ue)
        (fun _ => WF) (fun _ => WF).
Proof.
  intros s [Hwf Hue]. destruct (update_ue_topology ue s) as [r s'] eqn:H.
  enough (WF s') by (by destruct r).
  unfold update_ue_topology in H.
  binv H as g E; [|done].
  apply getattr_Ok in E as (a & ob & [= <-] & Hob & Hg).
  pose proof (wf_guid s Hwf ue ob g Hob Hg) as ->. cbn [py_eq] in H.
  binv H as last E; [|done].
  binv H as current E0; [|done].
  destruct (py_eq last current); cbn [negb] in H; [by injection H as <- <-|].
  binv H as last' E1; [|done].
  pose proof (wf_ues s Hwf ue Hue) as Hreg.
  apply bind_inv in H as [([] & s1 & E2 & H)|(e & E2 & ->)].
  - assert (WF s1 ∧ same_but_topology s s1) as [Hwf1 Hsame1].
    { destruct (is_None last'); cbn [negb] in E2.
      - injection E2 as <-. split; [done|apply same_but_topology_refl].
      - by eapply WF_remove_phase. }
    assert (Ho1 : objects s1 = objects s) by (by destruct Hsame1 as (_&_&_&_&_&_&?&_)).
    assert (Hu1 : UEs s1 = UEs s) by (by destruct Hsame1 as (_&_&?&_)).
    eapply (WF_append_phase ue s1); try done.
    + apply (wf_ues s1 Hwf1). by rewrite Hu1.
    + by rewrite Ho1.
  - destruct (is_None last'); cbn [negb] in E2; [done|].
    by eapply WF_remove_phase.
Qed.

(** ** Every reachable state is well formed *)

Lemma hoare_and {A} (P1 P2 : State → Prop) (m : M A) (Q1 Q2 : A → State → Prop)
    (E1 E2 : exn → State → Prop) :
  hoare P1 m Q1 E1 → hoare P2 m Q2 E2 →
  hoare (fun s => P1 s ∧ P2 s) m (fun a s => Q1 a s ∧ Q2 a s)
        (fun e s => E1 e s ∧ E2 e s).
Proof.
  intros H1 H2 s [Hp1 Hp2]. specialize (H1 s Hp1). specialize (H2 s Hp2).
  by destruct (m s) as [[a|e] s'].
Qed.

Lemma hoare_bind_read {A B} (P : State → Prop) (m : M A) (k : A → M B)
    (Q : B → State → Prop) (E : exn → State → Prop) :
  reader m → (∀ e s, P s → E e s) → (∀ a, hoare P (k a) Q E) →
  hoare P (bind m k) Q E.
Proof.
  intros Hr HE Hk s Hs. unfold bind. specialize (Hr s).
  destruct (m s) as [[a|e] s']; cbn in Hr; subst s'; [by apply Hk|by apply HE].
Qed.

Lemma preserves_discard {A} (I : State → Prop) (m : M A) :
  preserves I m → preserves I (discard m).
Proof. intros H. unfold discard. apply preserves_bind; [done|]. intros _. apply preserves_ret. Qed.

(** The list [sim.UEs] is changed by [make_UE] only. *)
Ltac ues_frame := intros ? H; exact H.

Lemma UEs_remove_while_present U self x c k :
  preserves (fun s => UEs s = U) (remove_while_present self x c k).
Proof. unfold remove_while_present, topology_update. pres_with ues_frame. Qed.

Lemma UEs_append_if_absent U self x c k :
  preserves (fun s => UEs s = U) (append_if_absent self x c k).
Proof. unfold append_if_absent, topology_update. pres_with ues_frame. Qed.

Lemma UEs_update_ue_topology U ue :
  preserves (fun s => UEs s = U) (update_ue_topology ue).
Proof.
  unfold update_ue_topology.
  pres_with ues_frame;
    first [apply UEs_remove_while_present | apply UEs_append_if_absent].
Qed.

Lemma UEs_update_cell_guid U ue :
  preserves (fun s => UEs s = U) (update_cell_guid ue).
Proof. unfold update_cell_guid, setattr. pres_with ues_frame. Qed.

Lemma WF_UE_loop_body U ue :
  ue ∈ U →
  preserves (fun s => WF s ∧ UEs s = U) (AIMMeeUE_loop_body None ue).
Proof.
  intros Hue. unfold AIMMeeUE_loop_body.
  apply preserves_bind; [apply preserves_ret|]. intros _.
  apply preserves_bind.
  { apply hoare_and; [apply WF_update_cell_guid|apply UEs_update_cell_guid]. }
  intros _. apply preserves_bind.
  { eapply hoare_conseq.
    - apply hoare_and; [apply WF_update_ue_topology|apply (UEs_update_ue_topology U)].
    - intros s [Hwf Hu]. cbn. rewrite Hu. done.
    - done.
    - done. }
  intros _. apply preserves_bind; [apply preserves_reader; eauto with reader|].
  intros v. destruct (isinstance_Sim v);
    [apply preserves_reader; eauto with reader|apply preserves_raise].
Qed.

Lemma new_AIMMeeUE_registered s a ri :
  ∃ s', new_AIMMeeUE a VSim ri s = (Ok (VObj a), s') ∧ registered s' "AIMMeeUE" a.
Proof.
  destruct s as [tp gm cl ue rp ru rh ob dc nd ii out].
  unfold new_AIMMeeUE, AIMMeeUE__init__, AIMM_UE__init__, SimObject__init__, add_to_sim.
  eexists. split.
  - apply run_inv. msteps. reflexivity.
  - unfold registered, neighbors. cbn [topology].
    rewrite topo_get_setdefault, decide_True by done. by eexists.
Qed.

Lemma WF_new_with c a (init : M unit) (r : pyval) :
  preserves WF init →
  hoare (fun s => WF s ∧ objects s !! a = None) (alloc c a ;;; init ;;; ret r)
        (fun _ => WF) (fun _ => WF).
Proof. apply WF_new. Qed.

#[global] Hint Resolve WF_AIMMeeCell__init__ WF_RadioAccessPoint__init__
  WF_RadioUnit__init__ WF_DistributedUnit__init__ WF_CentralisedUnit__init__
  WF_RemoteRadioHead__init__ WF_AntennaPanel__init__ WF_AIMMeeUE__init__
  WF_attach_to_du WF_attach WF_update_cell_guid : wf.

(** A factory: the constructor, then the append to the list of the
    simulation. *)
Lemma WF_factory c a (init : M unit) (f : State → State) :
  preserves WF init → (∀ s, WF s → WF (f s)) →
  hoare (fun s => WF s ∧ objects s !! a = None)
        (discard (r <- (alloc c a ;;; init ;;; ret (VObj a)) ;; modify f ;;; ret r))
        (fun _ => WF) (fun _ => WF).
Proof.
  intros Hinit Hf. unfold discard.
  eapply hoare_bind with (Q1 := fun _ => WF); [|intros; apply preserves_ret].
  eapply hoare_bind with (Q1 := fun _ => WF); [by apply WF_new|].
  intros r. apply preserves_bind; [by apply preserves_modify|].
  intros _. apply preserves_ret.
Qed.

Lemma WF_set_UEs s a :
  WF s → registered s "AIMMeeUE" a → WF (set_UEs (fun l => (l ++ [a])%list) s).
Proof.
  intros [H1 H2 H3 H4 H5 H6 H7 H8 H9] Hreg. split; try assumption.
  intros b Hb. change (b ∈ (UEs s ++ [a])%list) in Hb.
  apply elem_of_app in Hb as [Hb|Hb]; [by apply H9|].
  apply list_elem_of_singleton in Hb as ->. exact Hreg.
Qed.

Lemma new_AIMMeeUE_post a ri :
  hoare (fun s => WF s ∧ objects s !! a = None) (new_AIMMeeUE a VSim ri)
        (fun _ s => WF s ∧ registered s "AIMMeeUE" a) (fun _ => WF).
Proof.
  eapply hoare_conseq.
  - apply hoare_and with (P2 := fun _ => True)
        (Q2 := fun _ s => registered s "AIMMeeUE" a) (E2 := fun _ _ => True).
    + apply WF_new. apply WF_AIMMeeUE__init__.
    + intros s _. destruct (new_AIMMeeUE_registered s a ri) as (s0 & Hrun & Hreg).
      by rewrite Hrun.
  - by intros s H.
  - by intros r s H.
  - by intros e s [H _].
Qed.

Lemma WF_make_UE a ri :
  hoare (fun s => WF s ∧ objects s !! a = None) (discard (make_UE a ri))
        (fun _ => WF) (fun _ => WF).
Proof.
  unfold discard, make_UE.
  eapply hoare_bind with (Q1 := fun _ => WF); [|intros; apply preserves_ret].
  eapply hoare_bind; [apply new_AIMMeeUE_post|]. intros u.
  eapply hoare_bind with (Q1 := fun _ => WF); [|intros; apply preserves_ret].
  apply hoare_modify. intros s [Hwf Hreg]. by apply WF_set_UEs.
Qed.

Lemma WF_do_call c :
  hoare (fun s => WF s ∧ call_ok s c) (do_call c) (fun _ => WF) (fun _ => WF).
Proof.
  destruct c; cbn [do_call call_ok].
  - apply WF_factory; [eauto with wf|]. wf_frame.
  - apply WF_make_UE.
  - apply WF_factory; [eauto with wf|]. wf_frame.
  - apply WF_factory; [eauto with wf|]. wf_frame.
  - apply WF_factory; [eauto with wf|]. wf_frame.
  - unfold discard, new_DistributedUnit.
    eapply hoare_bind with (Q1 := fun _ => WF); [|intros; apply preserves_ret].
    apply WF_new. eauto with wf.
  - unfold discard, new_CentralisedUnit.
    eapply hoare_bind with (Q1 := fun _ => WF); [|intros; apply preserves_ret].
    apply WF_new. eauto with wf.
  - (* RadioAccessPoint.make_RadioUnit *)
    unfold discard, RadioAccessPoint_make_RadioUnit.
    eapply hoare_bind with (Q1 := fun _ => WF); [|intros; apply preserves_ret].
    apply hoare_bind_read; [eauto with reader|by intros ? ? [? _]|]. intros v1.
    apply hoare_bind_read; [eauto with reader|by intros ? ? [? _]|]. intros v2.
    eapply hoare_bind with (Q1 := fun _ => WF).
    + apply WF_new. eauto with wf.
    + intros r. wf_pres.
  - (* RemoteRadioHead.make_AntennaPanel *)
    unfold discard, make_AntennaPanel.
    eapply hoare_bind with (Q1 := fun _ => WF); [|intros; apply preserves_ret].
    apply hoare_bind_read; [eauto with reader|by intros ? ? [? _]|]. intros v1.
    eapply hoare_bind with (Q1 := fun _ => WF).
    + apply WF_new. eauto with wf.
    + intros r. wf_pres.
  - eapply hoare_weaken_pre; [apply WF_add_to_sim|]. by intros s [? _].
  - eapply hoare_weaken_pre; [apply WF_register_link|]. by intros s [? _].
  - eapply hoare_weaken_pre; [apply WF_deregister_link|]. by intros s [? _].
  - eapply hoare_weaken_pre; [apply WF_attach_to_du|]. by intros s [? _].
  - eapply hoare_weaken_pre; [apply WF_set_power_model|]. by intros s [? _].
  - eapply hoare_weaken_pre; [apply preserves_discard, WF_power_model|].
    by intros s [? _].
  - eapply hoare_weaken_pre; [apply WF_attach|]. by intros s [? _].
  - eapply hoare_weaken_pre; [apply WF_update_cell_guid|]. by intros s [? _].
  - apply WF_update_ue_topology.
  - (* the loop of a UE *)
    intros s [Hwf Hue].
    pose proof (preserves_discard _ _
      (preserves_run_loop _ n _ (WF_UE_loop_body (UEs s) ue Hue)) s (conj Hwf eq_refl)) as H.
    destruct (discard (run_loop n (AIMMeeUE_loop_body None ue)) s) as [[r|e] s'];
      by destruct H.
  - eapply hoare_weaken_pre; [apply preserves_discard, WF_default_loop|].
    by intros s [? _].
Qed.

Lemma neighbors_init c g : neighbors Sim__init__ c g = None.
Proof. unfold neighbors, topo_get, Sim__init__. cbn [topology]. by rewrite lookup_empty. Qed.

Lemma objects_init a : objects Sim__init__ !! a = None.
Proof. unfold Sim__init__. cbn [objects]. by rewrite lookup_empty. Qed.

Lemma WF_init : WF Sim__init__.
Proof.
  split.
  - intros a ob v H. by rewrite objects_init in H.
  - intros a ob v H. by rewrite objects_init in H.
  - intros a ob H. by rewrite objects_init in H.
  - intros a ob H. by rewrite objects_init in H.
  - intros c g [l H]. by rewrite neighbors_init in H.
  - intros c g l x H. by rewrite neighbors_init in H.
  - intros cA gA lA cB gB lB H. by rewrite neighbors_init in H.
  - intros k a H. unfold Sim__init__ in H. cbn [guid_map] in H.
    by rewrite lookup_empty in H.
  - intros a H. unfold Sim__init__ in H. cbn [UEs] in H. by apply elem_of_nil in H.
Qed.

Lemma reachable_WF s : reachable s → WF s.
Proof.
  induction 1 as [|s c Hr IH Hok]; [apply WF_init|].
  pose proof (WF_do_call c s (conj IH Hok)) as H. unfold exec.
  by destruct (do_call c s) as [[r|e] s'].
Qed.

(** ** Sequences of calls *)

Lemma reachable_run_calls cs s :
  reachable s → calls_ok cs s = true → reachable (run_calls cs s).
Proof.
  revert s. induction cs as [|c cs IH]; intros s Hs Hok; [done|].
  cbn [calls_ok] in Hok. apply andb_true_iff in Hok as [Hc Hrest].
  cbn [run_calls foldl]. apply (IH (exec (do_call c) s)); [|done].
  apply reachable_call; [done|].
  destruct c; cbn [call_ok]; try done; by apply bool_decide_eq_true in Hc.
Qed.

Lemma reachable_deployment : reachable deployment.
Proof.
  apply reachable_run_calls; [apply reachable_init|]. vm_compute. reflexivity.
Qed.

(** ** Link symmetry *)

Lemma linked_neighbors s a b r s' :
  register_link a b s = (Ok r, s') →
  ∃ cs gs co go la lb,
    link_facts s a b cs gs co go ∧
    neighbors s' cs gs = Some la ∧ neighbors s' co go = Some lb ∧
    go ∈ la ∧ gs ∈ lb.
Proof.
  intros H. apply register_link_effect in H
    as [Hsame [(e & [=] & _)|(cs & gs & co & go & Hf & Ht)]].
  exists cs, gs, co, go.
  pose proof Hf as (b' & ob_s & ob_o & _ & _ & _ & _ & _ & _ & _ & Hrs & Hro).
  destruct (topo_get_link (topology s) cs gs co go cs gs Hrs Hro) as (la & Ha & Hla).
  destruct (topo_get_link (topology s) cs gs co go co go Hrs Hro) as (lb & Hb & Hlb).
  destruct Hrs as [ls Hls], Hro as [lo Hlo]. unfold neighbors in *.
  exists la, lb. rewrite Ht, Ha, Hb, Hls, Hlo. repeat split; try done.
  - apply (Hla ls Hls). right. left. done.
  - apply (Hlb lo Hlo). right. right. done.
Qed.

(** C1: link symmetry.  In every state reached by factory calls,
    [register_link], [deregister_link] and the topology updates of the
    UE loop, B's GUID is in the adjacency list of A exactly when A's
    GUID is in the adjacency list of B, for all registered nodes A and
    B; and a [register_link] that returns leaves each of the two GUIDs
    in the other node's list. *)
Theorem link_symmetry (s : State) :
  reachable s →
  link_symmetric s
  ∧ ∀ a b r s', register_link a b s = (Ok r, s') →
      link_symmetric s'
      ∧ ∃ cs gs co go la lb,
          link_facts s a b cs gs co go ∧
          neighbors s' cs gs = Some la ∧ neighbors s' co go = Some lb ∧
          go ∈ la ∧ gs ∈ lb.
Proof.
  intros Hr. split; [apply wf_sym, reachable_WF, Hr|].
  intros a b r s' H. split; [|by eapply linked_neighbors].
  pose proof (WF_register_link a b s (reachable_WF s Hr)) as Hwf.
  rewrite H in Hwf. by apply wf_sym.
Qed.

Lemma link_symmetry_witness :
  link_symmetric deployment
  ∧ ∀ a b r s', register_link a b deployment = (Ok r, s') →
      link_symmetric s'
      ∧ ∃ cs gs co go la lb,
          link_facts deployment a b cs gs co go ∧
          neighbors s' cs gs = Some la ∧ neighbors s' co go = Some lb ∧
          go ∈ la ∧ gs ∈ lb.
Proof. apply link_symmetry. apply reachable_deployment. Defined.

(** ** Energy *)

Lemma reader_run_loop {A} n (body : M A) : reader body → reader (run_loop n body).
Proof.
  intros Hb. induction n as [|n IH]; cbn [run_loop]; [apply reader_ret|].
  apply reader_bind; [done|]. intros y.
  apply reader_bind; [done|]. intros ys. apply reader_ret.
Qed.

Lemma exec_discard {A} (m : M A) s : exec (discard m) s = exec m s.
Proof. unfold exec, discard, bind. by destruct (m s) as [[a|e] s']. Qed.




(** ** Registering a node twice *)

Lemma topo_setdefault_id t c g : is_Some (topo_get t c g) → topo_setdefault t c g = t.
Proof.
  unfold topo_get, topo_setdefault. intros [l Hl].
  destruct (t !! c) as [m|] eqn:Hc; [|done]. cbn in Hl. rewrite Hl.
  by apply insert_id.
Qed.

(** C8, counterexample: the first cell of [two_cells] holds a GUID and
    is filed in the topology and in the GUID map; registering it again
    returns normally. *)
Lemma reregistration_succeeds :
  attr_of two_cells 1 "guid" = Some (VInt 1)
  ∧ guid_map two_cells !! 1 = Some 1
  ∧ neighbors two_cells "AIMMeeCell" 1 = Some []
  ∧ outcome (add_to_sim 1 VSim) two_cells = Ok tt.
Proof. repeat split; vm_compute; reflexivity. Qed.

(** C8, as amended: registering a node that is already registered
    raises nothing.  For a node of any class that is already filed in
    the topology and in the GUID map, [add_to_sim] returns normally and
    leaves the topology, the GUID map and every instance as they
    were. *)
Theorem reregistration_is_noop (s : State) (self : Z) (cn : string) (g : Z) :
  attr_of s self "class_name" = Some (VStr cn) →
  attr_of s self "guid" = Some (VInt g) →
  is_Some (attr_of s self "label") →
  registered s cn g →
  is_Some (guid_map s !! g) →
  outcome (add_to_sim self VSim) s = Ok tt
  ∧ topology (exec (add_to_sim self VSim) s) = topology s
  ∧ guid_map (exec (add_to_sim self VSim) s) = guid_map s
  ∧ objects (exec (add_to_sim self VSim) s) = objects s.
Proof.
  intros Hcn Hg [lbl Hl] Hreg [x Hx].
  destruct s as [tp gm cl ue rp ru rh ob dc nd ii out].
  unfold attr_of, registered, neighbors in *. cbn [objects topology guid_map] in *.
  destruct (ob !! self) as [[oc oa]|] eqn:Hob; [|done].
  cbn [mbind option_bind attrs] in Hcn, Hg, Hl.
  rewrite outcome_run, exec_run. unfold add_to_sim. msteps.
  cbn [fst snd topology guid_map objects].
  rewrite topo_setdefault_id by done. done.
Qed.

Lemma reregistration_is_noop_witness :
  outcome (add_to_sim 1 VSim) two_cells = Ok tt
  ∧ topology (exec (add_to_sim 1 VSim) two_cells) = topology two_cells
  ∧ guid_map (exec (add_to_sim 1 VSim) two_cells) = guid_map two_cells
  ∧ objects (exec (add_to_sim 1 VSim) two_cells) = objects two_cells.
Proof.
  apply (reregistration_is_noop two_cells 1 "AIMMeeCell" 1).
  - vm_compute. reflexivity.
  - vm_compute. reflexivity.
  - exists (VStr "AIMMeeCell[1]"). vm_compute. reflexivity.
  - exists []. vm_compute. reflexivity.
  - exists 1. vm_compute. reflexivity.
Defined.

(** ** Antenna panels and RF ports *)

Lemma getattr_attr_of s a n v :
  attr_of s a n = Some v → getattr (VObj a) n s = (Ok v, s).
Proof.
  unfold attr_of, getattr. destruct (objects s !! a) as [ob|]; [|done].
  cbn. by intros ->.
Qed.

Lemma new_AntennaPanel_run s a rrh xyz az el pat :
  ∃ s', new_AntennaPanel a VSim rrh xyz az el pat s = (Ok (VObj a), s')
        ∧ panel_registered s' a.
Proof.
  destruct s as [tp gm cl ue rp ru rh ob dc nd ii out].
  unfold new_AntennaPanel, AntennaPanel__init__, SimObject__init__, add_to_sim.
  eexists. split.
  - apply run_inv. msteps. reflexivity.
  - split.
    + unfold registered, neighbors. cbn [topology].
      rewrite topo_get_setdefault, decide_True by done. by eexists.
    + cbn [guid_map]. destruct (gm !! a) as [x|] eqn:Hx.
      * rewrite Hx. by eexists.
      * rewrite lookup_insert_eq. by eexists.
Qed.

Create HintDb panel.

Ltac panel_frame :=
  intros ? H; exact H.

Lemma panel_registered_add_to_sim a self sim :
  preserves (fun s => panel_registered s a) (add_to_sim self sim).
Proof.
  intros s [Hreg Hg]. pose proof (add_to_sim_effect self sim s) as Heff.
  unfold exec in Heff.
  assert (panel_registered (add_to_sim self sim s).2 a) as Hp.
  { destruct Heff as [->|(ob & cn & g & f & _ & Hob & Hcn & Hgu & ->)]; [done|].
    split.
    - by apply (registered_mono_registered_state s cn g self).
    - cbn [guid_map set_stdout registered_state set_guid_map set_topology].
      destruct (guid_map s !! g) as [x|] eqn:Hx; [done|].
      destruct (decide (a = g)) as [->|Hne].
      + rewrite lookup_insert_eq. by eexists.
      + by rewrite lookup_insert_ne. }
  by destruct (add_to_sim self sim s) as [[?|?] ?].
Qed.

Lemma panel_registered_register_link a self other :
  preserves (fun s => panel_registered s a) (register_link self other).
Proof.
  intros s [Hreg Hg]. destruct (register_link self other s) as [r s'] eqn:E.
  apply register_link_effect in E
    as [Hsame [(e & -> & Ht)|(cs & gs & co & go & Hf & Ht)]].
  - split; [by eapply registered_same|].
    destruct Hsame as (Hgm & _). by rewrite Hgm.
  - assert (panel_registered s' a) as Hp.
    { destruct Hf as (b & ob_s & ob_o & _ & _ & _ & _ & _ & _ & _ & Hrs & Hro).
      split.
      - unfold registered, neighbors in *. rewrite Ht.
        destruct (topo_get_link (topology s) cs gs co go "AntennaPanel" a Hrs Hro)
          as (l2 & Heq & _).
        rewrite Heq. by rewrite fmap_is_Some.
      - destruct Hsame as (Hgm & _). by rewrite Hgm. }
    by destruct r.
Qed.

#[global] Hint Resolve panel_registered_add_to_sim panel_registered_register_link : panel.

Lemma panel_registered_rest a self ap :
  preserves (fun s => panel_registered s a)
    (self_sim <- getattr (VObj self) "sim" ;;
     add_to_sim self self_sim ;;;
     register_link self ap ;;;
     b <- isinstance_cls ap "AntennaPanel" ;;
     if b then
       rf_ports <- getattr (VObj self) "rf_ports" ;;
       keys <- dict_keys rf_ports ;;
       py_for keys (fun i =>
         port <- dict_getitem rf_ports i ;;
         occupant <- dict_getitem port "antenna_panel" ;;
         if is_None occupant then
           dict_setitem port "antenna_panel" ap ;;;
           sl <- getattr (VObj self) "label" ;;
           al <- getattr ap "label" ;;
           print [sl; VStr ": "; al; VStr " connected to "; sl; VStr "."] ;;;
           ret Break
         else
           sl <- (v <- getattr (VObj self) "label" ;; as_str v) ;;
           raise (Exception_ (sl +:+ ": No free antenna ports available."))) ;;;
       ret ap
     else ret VNone).
Proof.
  unfold dict_setitem, print.
  repeat first
    [ solve [eauto with panel]
    | apply preserves_ret
    | apply preserves_raise
    | apply preserves_bind; [|intros ?]
    | apply preserves_for; intros ?
    | apply preserves_reader; solve [eauto with reader]
    | apply preserves_modify; solve [panel_frame]
    | match goal with
      | |- preserves _ (if ?b then _ else _) => destruct b
      | |- preserves _ (match ?x with _ => _ end) => destruct x
      end ].
Qed.




(** ** Fronthaul ports *)

Lemma elem_of_range n i : i ∈ range n ↔ 0 ≤ i < n.
Proof.
  unfold range. rewrite list_elem_of_In, in_map_iff. split.
  - intros (k & <- & Hk). apply in_seq in Hk. lia.
  - intros H. exists (Z.to_nat i). split; [lia|]. apply in_seq. lia.
Qed.

Lemma assoc_get_set k k' v items :
  assoc_get k (assoc_set k' v items)
  = if decide (k = k') then Some v else assoc_get k items.
Proof.
  induction items as [|[k0 v0] items IH]; cbn.
  - by destruct (decide (k = k')).
  - destruct (decide (k' = k0)) as [->|Hne]; cbn.
    + by destruct (decide (k = k0)).
    + rewrite IH. destruct (decide (k = k0)) as [->|]; [|done].
      by rewrite decide_False by congruence.
Qed.

Lemma hoare_step {A B} (I : State → Prop) (m : M A) (k : A → M B) Q :
  preserves I m → (∀ a, hoare I (k a) Q (fun _ _ => True)) →
  hoare I (bind m k) Q (fun _ _ => True).
Proof.
  intros Hm Hk. eapply hoare_bind; [|exact Hk].
  eapply hoare_conseq; [exact Hm|..]; done.
Qed.

Lemma hoare_of_preserves {A} (I : State → Prop) (m : M A) :
  preserves I m → hoare I m (fun _ => I) (fun _ _ => True).
Proof. intros Hm. eapply hoare_conseq; [exact Hm|..]; done. Qed.

(** A [for] loop whose body never breaks. *)
Lemma hoare_for_continue {A} (L : list A → State → Prop) (body : A → M flow) E xs :
  (∀ pre x, hoare (L pre) (body x) (fun f s => f = Continue ∧ L (pre ++ [x])%list s) E) →
  ∀ pre, hoare (L pre) (py_for xs body) (fun _ => L (pre ++ xs)%list) E.
Proof.
  intros Hb. induction xs as [|x xs IH]; intros pre; cbn [py_for].
  - apply hoare_ret. intros s. by rewrite app_nil_r.
  - eapply hoare_bind; [apply Hb|]. intros f s [-> HL].
    specialize (IH (pre ++ [x])%list s HL). by rewrite <- app_assoc in IH.
Qed.

Lemma preserves_of_exec {A} (I : State → Prop) (m : M A) :
  (∀ s, I s → I (exec m s)) → preserves I m.
Proof.
  intros H s Hs. specialize (H s Hs). unfold exec in H.
  by destruct (m s) as [[a|e] s'].
Qed.

Lemma preserves_register_link I self other :
  on_objects_and_dicts I → preserves I (register_link self other).
Proof.
  intros HI. apply preserves_of_exec. intros s Hs. unfold exec.
  destruct (register_link self other s) as [r s'] eqn:H.
  apply register_link_effect in H as [Hsame _].
  apply (HI s s'); [apply Hsame..|done].
Qed.

Lemma preserves_add_to_sim I self sim :
  on_objects_and_dicts I → preserves I (add_to_sim self sim).
Proof.
  intros HI. apply preserves_of_exec. intros s Hs.
  destruct (add_to_sim_effect self sim s) as [->|(ob & cn & g & f & _ & _ & _ & _ & ->)];
    [done|].
  by apply (HI s).
Qed.

Lemma has_instance_od a : on_objects_and_dicts (fun s => has_instance s a).
Proof. intros s s' Ho _. unfold has_instance. by rewrite Ho. Qed.

Lemma fronthaul_ports_ok_od self p n :
  on_objects_and_dicts (fun s => fronthaul_ports_ok s self p n).
Proof.
  intros s s' Ho Hd. unfold fronthaul_ports_ok, attr_of. by rewrite Ho, Hd.
Qed.

Lemma has_instance_setattr a b n v :
  preserves (fun s => has_instance s a) (setattr b n v).
Proof.
  apply preserves_of_exec. intros s H. unfold has_instance.
  rewrite lookup_objects_setattr. destruct (decide (a = b)) as [->|]; [|done].
  destruct H as [ob ->]. by eexists.
Qed.

Lemma fronthaul_ports_ok_setattr self p n b name v :
  name ≠ "_default_port_params" → name ≠ "_fronthaul_ports" →
  preserves (fun s => fronthaul_ports_ok s self p n) (setattr b name v).
Proof.
  intros H1 H2. apply preserves_of_exec.
  intros s (d & d2 & items & Ha & Hb & Hd & Hd2 & Hall).
  exists d, d2, items. rewrite !attr_of_setattr.
  rewrite !decide_False by (intros [_ ?]; congruence). done.
Qed.

Ltac od_frame := intros ? H; exact H.

Ltac od_pres lem :=
  repeat first
    [ apply lem; discriminate
    | apply preserves_add_to_sim; solve [auto using has_instance_od, fronthaul_ports_ok_od]
    | apply preserves_register_link; solve [auto using has_instance_od, fronthaul_ports_ok_od]
    | apply preserves_ret
    | apply preserves_raise
    | apply preserves_bind; [|intros ?]
    | apply preserves_for; intros ?
    | apply preserves_reader; solve [eauto with reader]
    | apply preserves_modify; solve [od_frame]
    | match goal with
      | |- preserves _ (if ?b then _ else _) => destruct b
      | |- preserves _ (match ?x with _ => _ end) => destruct x
      end ].

Lemma has_instance_SimObject__init__ a self sim :
  preserves (fun s => has_instance s a) (SimObject__init__ self sim).
Proof. unfold SimObject__init__, next_id_iter. od_pres has_instance_setattr. Qed.

Lemma has_instance_make_rf_ports a self n :
  preserves (fun s => has_instance s a) (make_rf_ports self n).
Proof.
  unfold make_rf_ports, dict_comprehension, new_dict, dict_setitem, print.
  od_pres has_instance_setattr.
Qed.

Lemma hoare_setattr P a n v (Q : unit → State → Prop) E :
  (∀ s, P s → Q tt (exec (setattr a n v) s)) → hoare P (setattr a n v) Q E.
Proof. intros H s Hs. by apply H. Qed.

Lemma new_dict_run items s :
  new_dict items s
  = (Ok (VDict (next_dict s)),
     set_dicts (insert (next_dict s) items) (set_next_dict N.succ s)).
Proof. reflexivity. Qed.

(** One iteration of the comprehension of [make_fronthaul_ports]. *)
Lemma fronthaul_fill_step self p d d2 pre x :
  hoare (fun s => fronthaul_filled s self p d d2 pre)
    (v <- getattr (VObj self) "_default_port_params" ;;
     dict_setitem (VDict d2) (fh_port_key x) v ;;; ret Continue)
    (fun f s => f = Continue ∧ fronthaul_filled s self p d d2 (pre ++ [x])%list)
    (fun _ _ => True).
Proof.
  intros s (Ha & Hd & Hne & items & Hd2 & Hall).
  rewrite (bind_eval _ _ _ _ _ (getattr_attr_of _ _ _ _ Ha)).
  cbv [bind modify ret dict_setitem]. split; [done|].
  split; [exact Ha|].
  change (dicts (set_dicts ?f s)) with (f (dicts s)). cbv beta. rewrite Hd2.
  split; [by rewrite lookup_insert_ne|]. split; [done|].
  exists (assoc_set (fh_port_key x) (VDict d) items).
  split; [by rewrite lookup_insert_eq|].
  intros i Hi. rewrite assoc_get_set.
  destruct (decide (fh_port_key i = fh_port_key x)) as [|Hk]; [done|].
  apply elem_of_app in Hi as [Hi|Hi]; [by apply Hall|].
  apply list_elem_of_singleton in Hi as ->. done.
Qed.

Lemma make_fronthaul_ports_spec self n p x :
  hoare (fun s => has_instance s self) (make_fronthaul_ports self n p x)
    (fun _ s => fronthaul_ports_ok s self p n) (fun _ _ => True).
Proof.
  unfold make_fronthaul_ports.
  eapply hoare_bind with (Q1 := fun r s => has_instance s self ∧
    ∃ d, r = VDict d ∧ dicts s !! d = Some (fronthaul_record p) ∧ (d < next_dict s)%N).
  { intros s Hs. rewrite new_dict_run. split; [exact Hs|].
    exists (next_dict s). split; [done|]. split.
    - change (dicts (set_dicts ?f ?s)) with (f (dicts s)). cbv beta.
      apply lookup_insert_eq.
    - change (next_dict s < N.succ (next_dict s))%N. lia. }
  intros params.
  eapply hoare_bind with (Q1 := fun _ s =>
    ∃ d, attr_of s self "_default_port_params" = Some (VDict d) ∧
         dicts s !! d = Some (fronthaul_record p) ∧ (d < next_dict s)%N).
  { destruct params as [| | | | | |d| | |];
      try (by intros ? [_ (d' & ? & _)]).
    apply hoare_setattr. intros s [Hi (d' & [= <-] & Hd & Hlt)]. exists d.
    rewrite attr_of_setattr, decide_True by done.
    by rewrite bool_decide_eq_true_2. }
  intros _.
  eapply hoare_bind with (Q1 := fun ports s =>
    ∃ d d2, ports = VDict d2 ∧ fronthaul_filled s self p d d2 (range n)).
  { unfold dict_comprehension.
    eapply hoare_bind with (Q1 := fun r s =>
      ∃ d d2, r = VDict d2 ∧ fronthaul_filled s self p d d2 []).
    { intros s (d & Ha & Hd & Hlt). rewrite new_dict_run.
      exists d, (next_dict s). split; [done|]. split; [exact Ha|].
      change (dicts (set_dicts ?f ?s)) with (f (dicts s)). cbv beta.
      change (next_dict (set_next_dict ?f s)) with (f (next_dict s)).
      assert (d ≠ next_dict s) by lia.
      split; [by rewrite lookup_insert_ne|]. split; [done|].
      exists []. split; [apply lookup_insert_eq|]. intros i Hi. by apply elem_of_nil in Hi. }
    intros r. eapply hoare_bind with (Q1 := fun _ s =>
      ∃ d d2, r = VDict d2 ∧ fronthaul_filled s self p d d2 (range n));
      [|intros _; by apply hoare_ret].
    intros s (d & d2 & -> & HL).
    pose proof (hoare_for_continue (fun pre s => fronthaul_filled s self p d d2 pre)
      _ (fun _ _ => True) (range n) (fronthaul_fill_step self p d d2) [] s HL) as H.
    cbv beta in H.
    destruct (py_for _ _ s) as [[[]|e] s']; [|done]. by exists d, d2. }
  intros ports.
  eapply hoare_bind with (Q1 := fun _ s => fronthaul_ports_ok s self p n).
  { apply hoare_setattr.
    intros s (d & d2 & -> & Ha & Hd & Hne & items & Hd2 & Hall).
    exists d, d2, items.
    rewrite !attr_of_setattr.
    rewrite decide_False by (intros [_ ?]; discriminate).
    rewrite decide_True by done.
    assert (is_Some (objects s !! self)) as Hi.
    { unfold attr_of in Ha. destruct (objects s !! self); [by eexists|done]. }
    rewrite bool_decide_eq_true_2 by done.
    repeat split; try done. intros i Hi'. apply Hall. by apply elem_of_range. }
  intros _. apply (hoare_of_preserves (fun s => fronthaul_ports_ok s self p n)).
  unfold print. od_pres fronthaul_ports_ok_setattr.
Qed.

(** The fronthaul ports of a constructed RemoteRadioHead. *)
Lemma RemoteRadioHead__init___fronthaul self sim rap ru du n fh :
  hoare (fun s => has_instance s self)
    (RemoteRadioHead__init__ self sim rap ru du n fh)
    (fun _ s => fronthaul_ports_ok s self (fh_protocol fh) (fh_n_ports fh))
    (fun _ _ => True).
Proof.
  unfold RemoteRadioHead__init__.
  do 9 (apply hoare_step;
        [unfold print, next_id_iter; od_pres has_instance_setattr|intros ?]).
  apply hoare_step; [apply has_instance_SimObject__init__|intros _].
  apply hoare_step; [apply has_instance_setattr|intros _].
  apply hoare_step.
  { destruct (n >? 0)%Z;
      (apply preserves_bind;
       [apply has_instance_make_rf_ports|intros ?; apply has_instance_setattr]). }
  intros _.
  eapply hoare_bind; [apply make_fronthaul_ports_spec|]. intros ?. cbv beta.
  apply (hoare_of_preserves
    (fun s => fronthaul_ports_ok s self (fh_protocol fh) (fh_n_ports fh))).
  od_pres fronthaul_ports_ok_setattr.
Qed.

Lemma new_RemoteRadioHead_fronthaul a sim rap ru du n fh :
  hoare (fun _ => True) (new_RemoteRadioHead a sim rap ru du n fh)
    (fun _ s => fronthaul_ports_ok s a (fh_protocol fh) (fh_n_ports fh))
    (fun _ _ => True).
Proof.
  unfold new_RemoteRadioHead.
  eapply hoare_bind with (Q1 := fun _ s => has_instance s a).
  { intros s _. unfold has_instance. cbn. rewrite lookup_insert_eq. by eexists. }
  intros _. eapply hoare_bind; [apply RemoteRadioHead__init___fronthaul|].
  intros ?. by apply hoare_ret.
Qed.

Lemma fronthaul_ports_ok_get s self p n :
  fronthaul_ports_ok s self p n →
  ∃ d, attr_of s self "_default_port_params" = Some (VDict d) ∧
       dicts s !! d = Some (fronthaul_record p) ∧
       ∀ i, 0 ≤ i < n → get_fronthaul_port self i s = (Ok (VDict d), s).
Proof.
  intros (d & d2 & items & Ha & Hb & Hd & Hd2 & Hall). exists d.
  split; [done|]. split; [done|]. intros i Hi. unfold get_fronthaul_port.
  rewrite (bind_eval _ _ _ _ _ (getattr_attr_of _ _ _ _ Hb)).
  unfold dict_getitem. rewrite Hd2. cbn. by rewrite (Hall i Hi).
Qed.

(** The constructor does not read [data_rate_Gbps_max]. *)
Lemma RemoteRadioHead__init___rate self sim rap ru du n fh x :
  RemoteRadioHead__init__ self sim rap ru du n
    {| fh_n_ports := fh_n_ports fh; fh_protocol := fh_protocol fh;
       fh_data_rate_Gbps_max := x |}
  = RemoteRadioHead__init__ self sim rap ru du n fh.
Proof. destruct fh. unfold RemoteRadioHead__init__. reflexivity. Qed.

(** C10.  A RemoteRadioHead constructed with a [fronthaul_ports]
    configuration has, whatever the [data_rate_Gbps_max] of the
    configuration, one parameter record: its protocol is the configured
    one, its data rate is [0.0] and its maximal data rate is [10.0], and
    [get_fronthaul_port] returns this one record (the same dict object)
    for every port index below the number of ports.  The constructor
    behaves the same for every value of [data_rate_Gbps_max]. *)
Theorem fronthaul_ports_share_fixed_record
    (s : State) (a : Z) (sim rap ru du : pyval) (n_rf_ports : Z)
    (fh : fronthaul_ports_arg) (r : pyval) (s' : State) :
  new_RemoteRadioHead a sim rap ru du n_rf_ports fh s = (Ok r, s') →
  (∀ x, new_RemoteRadioHead a sim rap ru du n_rf_ports
          {| fh_n_ports := fh_n_ports fh; fh_protocol := fh_protocol fh;
             fh_data_rate_Gbps_max := x |} s = (Ok r, s')) ∧
  ∃ d, attr_of s' a "_default_port_params" = Some (VDict d) ∧
       dicts s' !! d = Some [("protocol", fh_protocol fh);
                            ("data_rate_Gbps", VFloat 0.0);
                            ("data_rate_Gbps_max", VFloat 10.0)] ∧
       ∀ i, 0 ≤ i < fh_n_ports fh →
         get_fronthaul_port a i s' = (Ok (VDict d), s').
Proof.
  intros H. split.
  - intros x. rewrite <- H. unfold new_RemoteRadioHead.
    by rewrite RemoteRadioHead__init___rate.
  - pose proof (new_RemoteRadioHead_fronthaul a sim rap ru du n_rf_ports fh s I) as Hok.
    rewrite H in Hok. by apply fronthaul_ports_ok_get in Hok.
Qed.

Lemma fronthaul_ports_share_fixed_record_witness :
  ∃ d, attr_of ecpri_site 300 "_default_port_params" = Some (VDict d) ∧
       dicts ecpri_site !! d = Some [("protocol", VStr "eCPRI");
                                    ("data_rate_Gbps", VFloat 0.0);
                                    ("data_rate_Gbps_max", VFloat 10.0)] ∧
       ∀ i, 0 ≤ i < 3 →
         get_fronthaul_port 300 i ecpri_site = (Ok (VDict d), ecpri_site).
Proof.
  apply (fronthaul_ports_share_fixed_record rap_site 300 VSim (VObj 200) VNone VNone 2
           ecpri_ports (VObj 300) ecpri_site).
  vm_compute. reflexivity.
Defined.

(** ** Re-attachment of a UE *)

Lemma bind_setattr {B} a n v (k : unit → M B) s :
  bind (setattr a n v) k s = k tt (exec (setattr a n v) s).
Proof. reflexivity. Qed.

Lemma attr_of_obj s a ob n : objects s !! a = Some ob → attr_of s a n = attrs ob !! n.
Proof. unfold attr_of. by intros ->. Qed.

Lemma attr_of_setattr_other s a n v b n' :
  n' ≠ n → attr_of (exec (setattr a n v) s) b n' = attr_of s b n'.
Proof. intros Hn. rewrite attr_of_setattr. by rewrite decide_False by (by intros [_ ?]). Qed.

Lemma attr_of_setattr_same s a n v :
  is_Some (objects s !! a) → attr_of (exec (setattr a n v) s) a n = Some v.
Proof.
  intros Hs. rewrite attr_of_setattr, decide_True by done.
  by rewrite bool_decide_eq_true_2.
Qed.

Lemma attr_of_is_Some s a n v : attr_of s a n = Some v → is_Some (objects s !! a).
Proof. unfold attr_of. destruct (objects s !! a); [by eexists|done]. Qed.

(** [update_cell_guid] when the serving cell has changed. *)
Lemma update_cell_guid_eval s ue y X Y :
  attr_of s ue "serving_cell" = Some (VObj y) →
  attr_of s y "guid" = Some (VInt Y) →
  attr_of s ue "current_cell_guid" = Some (VInt X) →
  X ≠ Y →
  update_cell_guid ue s
  = (Ok tt, exec (setattr ue "current_cell_guid" (VInt Y))
              (exec (setattr ue "last_cell_guid" (VInt X)) s)).
Proof.
  intros Hserv Hy Hcur Hne. unfold update_cell_guid.
  rewrite (bind_eval _ _ _ _ _ (getattr_attr_of _ _ _ _ Hserv)).
  rewrite (bind_eval _ _ _ _ _ (getattr_attr_of _ _ _ _ Hy)).
  rewrite (bind_eval _ _ _ _ _ (getattr_attr_of _ _ _ _ Hcur)).
  cbn [py_eq]. rewrite bool_decide_eq_false_2 by congruence.
  rewrite (bind_eval _ _ _ _ _ (getattr_attr_of _ _ _ _ Hcur)).
  rewrite bind_setattr.
  set (s1 := exec (setattr ue "last_cell_guid" (VInt X)) s).
  assert (Hserv1 : attr_of s1 ue "serving_cell" = Some (VObj y))
    by (by unfold s1; rewrite attr_of_setattr_other).
  assert (Hy1 : attr_of s1 y "guid" = Some (VInt Y))
    by (by unfold s1; rewrite attr_of_setattr_other).
  rewrite (bind_eval _ _ _ _ _ (getattr_attr_of _ _ _ _ Hserv1)).
  rewrite (bind_eval _ _ _ _ _ (getattr_attr_of _ _ _ _ Hy1)).
  reflexivity.
Qed.

(** [update_ue_topology] when the two recorded cells differ. *)
Lemma update_ue_topology_eval s ue ob g X Y lX lY lU :
  objects s !! ue = Some ob →
  attrs ob !! "guid" = Some (VInt g) →
  attrs ob !! "sim" = Some VSim →
  attrs ob !! "last_cell_guid" = Some (VInt X) →
  attrs ob !! "current_cell_guid" = Some (VInt Y) →
  X ≠ Y →
  neighbors s "AIMMeeCell" X = Some lX →
  neighbors s "AIMMeeCell" Y = Some lY →
  neighbors s "AIMMeeUE" g = Some lU →
  update_ue_topology ue s
  = (Ok tt,
     set_topology (fun t => topo_upd t "AIMMeeUE" g (append_new Y))
       (set_topology (fun t => topo_upd t "AIMMeeCell" Y (append_new g))
          (set_topology (fun t => topo_upd t "AIMMeeUE" g (remove_all X))
             (set_topology (fun t => topo_upd t "AIMMeeCell" X (remove_all g)) s)))).
Proof.
  intros Hob Hg Hsim Hlast Hcur Hne HX HY HU. unfold update_ue_topology.
  rewrite (bind_eval _ _ _ _ _ (getattr_eval s ue _ _ _ Hob Hg)). cbn [py_eq].
  rewrite (bind_eval _ _ _ _ _ (getattr_eval s ue _ _ _ Hob Hlast)).
  rewrite (bind_eval _ _ _ _ _ (getattr_eval s ue _ _ _ Hob Hcur)).
  cbn [py_eq]. rewrite bool_decide_eq_false_2 by done. cbn [negb].
  rewrite (bind_eval _ _ _ _ _ (getattr_eval s ue _ _ _ Hob Hlast)).
  cbn [is_None negb].
  set (s1 := set_topology (fun t => topo_upd t "AIMMeeCell" X (remove_all g)) s).
  set (s2 := set_topology (fun t => topo_upd t "AIMMeeUE" g (remove_all X)) s1).
  set (s3 := set_topology (fun t => topo_upd t "AIMMeeCell" Y (append_new g)) s2).
  assert (HU1 : neighbors s1 "AIMMeeUE" g = Some lU).
  { unfold neighbors, s1. cbn [topology set_topology]. rewrite topo_get_upd.
    by rewrite decide_False by (by intros [? _]). }
  assert (HY2 : neighbors s2 "AIMMeeCell" Y = Some lY).
  { unfold neighbors, s2, s1. cbn [topology set_topology]. rewrite !topo_get_upd.
    rewrite decide_False by (by intros [? _]).
    by rewrite decide_False by (intros [_ ?]; congruence). }
  assert (HU3 : neighbors s3 "AIMMeeUE" g = Some (remove_all X lU)).
  { unfold neighbors, s3, s2. cbn [topology set_topology]. rewrite !topo_get_upd.
    rewrite decide_False by (by intros [? _]). rewrite decide_True by done.
    fold (neighbors s1 "AIMMeeUE" g). by rewrite HU1. }
  rewrite (bind_eval _ _ s tt s2).
  2:{ rewrite (bind_eval _ _ s tt s1)
        by (by eapply remove_while_present_eval).
      by eapply (remove_while_present_eval ue ob _ _ _ X g s1). }
  rewrite (bind_eval _ _ s2 tt s3)
    by (by eapply (append_if_absent_eval ue ob _ _ _ g Y s2)).
  by eapply (append_if_absent_eval ue ob _ _ _ Y g s3).
Qed.

(** C2.  A UE whose [current_cell_guid] is the GUID [X] of a registered
    cell and whose serving cell has a different GUID [Y], also of a
    registered cell, completes its next tick, and after it the UE's
    GUID is absent from the adjacency list of cell [X] and present in
    that of cell [Y], [last_cell_guid] is [X] and [current_cell_guid]
    is [Y].  (The UE's own adjacency list then holds [Y] and not
    [X].) *)
Theorem ue_reattachment (s : State) (ue y g X Y : Z) (ri : pyval) (lX lY lU : list Z) :
  attr_of s ue "guid" = Some (VInt g) →
  attr_of s ue "sim" = Some VSim →
  attr_of s ue "reporting_interval" = Some ri →
  attr_of s ue "current_cell_guid" = Some (VInt X) →
  attr_of s ue "serving_cell" = Some (VObj y) →
  attr_of s y "guid" = Some (VInt Y) →
  X ≠ Y →
  neighbors s "AIMMeeCell" X = Some lX →
  neighbors s "AIMMeeCell" Y = Some lY →
  neighbors s "AIMMeeUE" g = Some lU →
  ∃ s' lX' lY' lU',
    AIMMeeUE_loop_body None ue s = (Ok ri, s') ∧
    neighbors s' "AIMMeeCell" X = Some lX' ∧ (g ∉ lX') ∧
    neighbors s' "AIMMeeCell" Y = Some lY' ∧ (g ∈ lY') ∧
    neighbors s' "AIMMeeUE" g = Some lU' ∧ (X ∉ lU') ∧ (Y ∈ lU') ∧
    attr_of s' ue "last_cell_guid" = Some (VInt X) ∧
    attr_of s' ue "current_cell_guid" = Some (VInt Y).
Proof.
  intros Hg Hsim Hri Hcur Hserv Hy Hne HX HY HU.
  pose proof (attr_of_is_Some _ _ _ _ Hg) as Hue.
  set (s1 := exec (setattr ue "last_cell_guid" (VInt X)) s).
  set (s2 := exec (setattr ue "current_cell_guid" (VInt Y)) s1).
  assert (Hue1 : is_Some (objects s1 !! ue)).
  { unfold s1. rewrite lookup_objects_setattr, decide_True by done.
    destruct Hue as [ob ->]. by eexists. }
  assert (Hlast2 : attr_of s2 ue "last_cell_guid" = Some (VInt X)).
  { unfold s2. rewrite attr_of_setattr_other by done.
    by apply attr_of_setattr_same. }
  assert (Hcur2 : attr_of s2 ue "current_cell_guid" = Some (VInt Y))
    by (by apply attr_of_setattr_same).
  assert (Hg2 : attr_of s2 ue "guid" = Some (VInt g))
    by (by unfold s2, s1; rewrite !attr_of_setattr_other).
  assert (Hsim2 : attr_of s2 ue "sim" = Some VSim)
    by (by unfold s2, s1; rewrite !attr_of_setattr_other).
  assert (Hri2 : attr_of s2 ue "reporting_interval" = Some ri)
    by (by unfold s2, s1; rewrite !attr_of_setattr_other).
  destruct (objects s2 !! ue) as [ob2|] eqn:Hob2; [|unfold attr_of in Hg2; by rewrite Hob2 in Hg2].
  pose proof (fun n => attr_of_obj s2 ue ob2 n Hob2) as Hattr.
  rewrite Hattr in Hlast2, Hcur2, Hg2, Hsim2.
  eexists _, (remove_all g lX), (append_new g lY), (append_new Y (remove_all X lU)).
  split.
  { unfold AIMMeeUE_loop_body.
    rewrite (bind_eval _ _ s tt s) by done.
    rewrite (bind_eval _ _ s tt s2) by (by eapply update_cell_guid_eval).
    erewrite bind_eval;
      [|by eapply (update_ue_topology_eval s2 ue ob2 g X Y lX lY lU)].
    rewrite (bind_eval (getattr (VObj ue) "sim") _ _ VSim _)
      by (by eapply getattr_eval).
    cbn [isinstance_Sim]. apply getattr_attr_of. exact Hri2. }
  unfold neighbors. cbn [topology set_topology].
  fold (neighbors s2 "AIMMeeCell" X) in *.
  rewrite !topo_get_upd.
  repeat (first [ rewrite decide_True by done
                | rewrite decide_False by (intros [? ?]; congruence) ]).
  change (topo_get (topology s2) ?c ?k) with (neighbors s c k).
  rewrite HX, HY, HU. cbn [fmap option_fmap option_map].
  split; [done|]. split; [rewrite elem_of_remove_all; naive_solver|].
  split; [done|]. split; [apply elem_of_append_new; by right|].
  split; [done|]. split.
  { rewrite elem_of_append_new, elem_of_remove_all. naive_solver. }
  split; [apply elem_of_append_new; by right|].
  split.
  - change (attr_of s2 ue "last_cell_guid" = Some (VInt X)). by rewrite Hattr.
  - change (attr_of s2 ue "current_cell_guid" = Some (VInt Y)). by rewrite Hattr.
Qed.

Lemma ue_reattachment_witness :
  ∃ s' lX' lY' lU',
    AIMMeeUE_loop_body None 700 ue_before_handover = (Ok (VFloat 1.0), s') ∧
    neighbors s' "AIMMeeCell" 100 = Some lX' ∧ (700 ∉ lX') ∧
    neighbors s' "AIMMeeCell" 101 = Some lY' ∧ (700 ∈ lY') ∧
    neighbors s' "AIMMeeUE" 700 = Some lU' ∧ (100 ∉ lU') ∧ (101 ∈ lU') ∧
    attr_of s' 700 "last_cell_guid" = Some (VInt 100) ∧
    attr_of s' 700 "current_cell_guid" = Some (VInt 101).
Proof.
  apply (ue_reattachment ue_before_handover 700 101 700 100 101 (VFloat 1.0)
           [700] [] [100]); try (vm_compute; reflexivity).
  discriminate.
Defined.

(** ** Properties kept by every call *)

Section stable.
Context (I : State → Prop) (HI : stable I).

Lemma stable_frame_modify f :
  (∀ s, topology (f s) = topology s) → (∀ s, guid_map (f s) = guid_map s) →
  (∀ s, objects (f s) = objects s) → preserves I (modify f).
Proof. intros Ht Hg Ho. apply preserves_modify. intros s Hs. by apply (st_frame I HI s). Qed.

Lemma stable_same_topology s s' :
  same_but_topology s s' → topology s' = topology s → I s → I s'.
Proof.
  intros (Hg & _ & _ & _ & _ & _ & Ho & _) Ht. by apply (st_frame I HI s).
Qed.

Lemma stable_setattr a n v : n ∈ written_names → preserves I (setattr a n v).
Proof. intros Hn. apply preserves_of_exec. intros s. by apply (st_setattr I HI). Qed.

Lemma stable_add_to_sim self sim : preserves I (add_to_sim self sim).
Proof.
  apply preserves_of_exec. intros s Hs.
  destruct (add_to_sim_effect self sim s)
    as [->|(ob & cn & g & f & _ & Hob & Hcn & Hg & ->)]; [done|].
  apply (st_frame I HI (registered_state s cn g self)); try done.
  by apply (st_register I HI s ob).
Qed.

Lemma stable_register_link self other : preserves I (register_link self other).
Proof.
  apply preserves_of_exec. intros s Hs. unfold exec.
  destruct (register_link self other s) as [r s'] eqn:H. cbn [snd].
  apply register_link_effect in H
    as [Hsame [(e & _ & Ht)|(cs & gs & co & go & _ & Ht)]].
  - by apply (stable_same_topology s).
  - destruct Hsame as (Hg & _ & _ & _ & _ & _ & Ho & _).
    apply (st_frame I HI
      (set_topology (fun t => topo_upd t co go (append_new gs))
         (set_topology (fun t => topo_upd t cs gs (append_new go)) s))); try done.
    by do 2 apply (st_append I HI).
Qed.

Lemma stable_remove_while_present self x c k :
  preserves I (remove_while_present self x c k).
Proof.
  apply preserves_of_exec. intros s Hs. unfold exec.
  destruct (remove_while_present self x c k s) as [r s'] eqn:H. cbn [snd].
  apply remove_while_present_effect in H
    as [Hsame [(e & _ & Ht)|(_ & ob & xv & kz & _ & _ & _ & _ & _ & Ht)]].
  - by apply (stable_same_topology s).
  - destruct Hsame as (Hg & _ & _ & _ & _ & _ & Ho & _).
    destruct xv as [| |xz| | | | | | |]; cbn [remove_value] in Ht;
      try (apply (st_frame I HI s); try done; rewrite Ht; by apply topo_upd_id).
    apply (st_frame I HI (set_topology (fun t => topo_upd t c kz (remove_all xz)) s));
      try done.
    by apply (st_remove I HI).
Qed.

Lemma stable_append_if_absent self x c k :
  preserves I (append_if_absent self x c k).
Proof.
  apply preserves_of_exec. intros s Hs. unfold exec.
  destruct (append_if_absent self x c k s) as [r s'] eqn:H. cbn [snd].
  apply append_if_absent_effect in H
    as [Hsame [(e & _ & Ht)|(_ & ob & xz & kz & _ & _ & _ & _ & _ & Ht)]].
  - by apply (stable_same_topology s).
  - destruct Hsame as (Hg & _ & _ & _ & _ & _ & Ho & _).
    apply (st_frame I HI (set_topology (fun t => topo_upd t c kz (append_new xz)) s));
      try done.
    by apply (st_append I HI).
Qed.

End stable.

Ltac written := apply (bool_decide_unpack _); vm_compute; exact Logic.I.

Ltac st_pres HI :=
  repeat first
    [ apply (stable_setattr _ HI); written
    | apply (stable_add_to_sim _ HI)
    | apply (stable_register_link _ HI)
    | apply (stable_remove_while_present _ HI)
    | apply (stable_append_if_absent _ HI)
    | apply preserves_ret
    | apply preserves_raise
    | apply preserves_bind; [|intros ?]
    | apply preserves_for; intros ?
    | apply preserves_run_loop
    | apply preserves_reader; solve [eauto with reader]
    | apply (stable_frame_modify _ HI); reflexivity
    | match goal with
      | |- preserves _ (if ?b then _ else _) => destruct b
      | |- preserves _ (match ?x with _ => _ end) => destruct x
      end ].

Ltac st_unfold :=
  unfold SimObject__init__, AIMMeeCell__init__, RadioAccessPoint__init__,
    RadioUnit__init__, DistributedUnit__init__, CentralisedUnit__init__,
    RemoteRadioHead__init__, AntennaPanel__init__, AIMMeeUE__init__, AIMM_UE__init__,
    example_DU_power_model, set_power_model, power_model, make_rf_ports,
    make_fronthaul_ports, dict_comprehension, new_dict, dict_setitem, print,
    next_id_iter, attach_to_du, attach, update_cell_guid, update_ue_topology,
    AIMMeeUE_loop_body, default_loop_body, get_xyz.

Section stable_calls.
Context (I : State → Prop) (HI : stable I).

Lemma stable_new c a (init : M unit) (r : pyval) (f : State → State) :
  preserves I init → preserves I (modify f) →
  hoare (fun s => I s ∧ objects s !! a = None)
        (discard (x <- (alloc c a ;;; init ;;; ret r) ;; modify f ;;; ret x))
        (fun _ => I) (fun _ => I).
Proof.
  intros Hinit Hf. unfold discard.
  eapply hoare_bind with (Q1 := fun _ => I); [|intros; apply preserves_ret].
  eapply hoare_bind with (Q1 := fun _ => I).
  - eapply hoare_bind with (Q1 := fun _ => I).
    + intros s [Hs Hfresh]. by apply (st_alloc I HI).
    + intros _. apply preserves_bind; [done|]. intros _. apply preserves_ret.
  - intros x. apply preserves_bind; [done|]. intros _. apply preserves_ret.
Qed.

Lemma stable_new_plain c a (init : M unit) (r : pyval) :
  preserves I init →
  hoare (fun s => I s ∧ objects s !! a = None) (alloc c a ;;; init ;;; ret r)
        (fun _ => I) (fun _ => I).
Proof.
  intros Hinit. eapply hoare_bind with (Q1 := fun _ => I).
  - intros s [Hs Hfresh]. by apply (st_alloc I HI).
  - intros _. apply preserves_bind; [done|]. intros _. apply preserves_ret.
Qed.

Lemma stable_AIMMeeCell__init__ self sim : preserves I (AIMMeeCell__init__ self sim).
Proof. st_unfold. st_pres HI. Qed.

Lemma stable_RadioAccessPoint__init__ self sim cell acc itv :
  preserves I (RadioAccessPoint__init__ self sim cell acc itv).
Proof. st_unfold. st_pres HI. Qed.

Lemma stable_RadioUnit__init__ self sim cell rap du itv :
  preserves I (RadioUnit__init__ self sim cell rap du itv).
Proof. st_unfold. st_pres HI. Qed.

Lemma stable_DistributedUnit__init__ self sim :
  preserves I (DistributedUnit__init__ self sim).
Proof. st_unfold. st_pres HI. Qed.

Lemma stable_CentralisedUnit__init__ self sim :
  preserves I (CentralisedUnit__init__ self sim).
Proof. st_unfold. st_pres HI. Qed.

Lemma stable_RemoteRadioHead__init__ self sim rap ru du n fh :
  preserves I (RemoteRadioHead__init__ self sim rap ru du n fh).
Proof. st_unfold. st_pres HI. Qed.

Lemma stable_AntennaPanel__init__ self sim rrh xyz az el pat :
  preserves I (AntennaPanel__init__ self sim rrh xyz az el pat).
Proof. st_unfold. st_pres HI. Qed.

Lemma stable_AIMMeeUE__init__ self sim ri : preserves I (AIMMeeUE__init__ self sim ri).
Proof. st_unfold. st_pres HI. Qed.

(** Every call keeps a stable property of a well-formed state. *)
Lemma stable_do_call c :
  hoare (fun s => I s ∧ WF s ∧ call_ok s c) (do_call c) (fun _ => I) (fun _ => I).
Proof.
  assert (Hweak : ∀ m : M unit, preserves I m →
            hoare (fun s => I s ∧ WF s ∧ call_ok s c) m (fun _ => I) (fun _ => I)).
  { intros m Hm. eapply hoare_weaken_pre; [exact Hm|]. by intros s [? _]. }
  assert (Hfresh : ∀ (m : M unit) a, call_ok = call_ok →
            hoare (fun s => I s ∧ objects s !! a = None) m (fun _ => I) (fun _ => I) →
            hoare (fun s => I s ∧ WF s ∧ objects s !! a = None) m
                  (fun _ => I) (fun _ => I)).
  { intros m a _ Hm. eapply hoare_weaken_pre; [exact Hm|]. by intros s (? & _ & ?). }
  destruct c; cbn [do_call call_ok].
  - apply Hfresh; [done|]. apply stable_new; [apply stable_AIMMeeCell__init__|].
    by apply (stable_frame_modify _ HI).
  - apply Hfresh; [done|]. apply stable_new; [apply stable_AIMMeeUE__init__|].
    by apply (stable_frame_modify _ HI).
  - apply Hfresh; [done|]. apply stable_new; [apply stable_RadioAccessPoint__init__|].
    by apply (stable_frame_modify _ HI).
  - apply Hfresh; [done|]. apply stable_new; [apply stable_RadioUnit__init__|].
    by apply (stable_frame_modify _ HI).
  - apply Hfresh; [done|]. apply stable_new; [apply stable_RemoteRadioHead__init__|].
    by apply (stable_frame_modify _ HI).
  - apply Hfresh; [done|]. unfold discard, new_DistributedUnit.
    eapply hoare_bind with (Q1 := fun _ => I); [|intros; apply preserves_ret].
    apply stable_new_plain, stable_DistributedUnit__init__.
  - apply Hfresh; [done|]. unfold discard, new_CentralisedUnit.
    eapply hoare_bind with (Q1 := fun _ => I); [|intros; apply preserves_ret].
    apply stable_new_plain, stable_CentralisedUnit__init__.
  - apply Hfresh; [done|]. unfold discard, RadioAccessPoint_make_RadioUnit.
    eapply hoare_bind with (Q1 := fun _ => I); [|intros; apply preserves_ret].
    apply hoare_bind_read; [eauto with reader|by intros ? ? [? _]|]. intros v1.
    apply hoare_bind_read; [eauto with reader|by intros ? ? [? _]|]. intros v2.
    eapply hoare_bind with (Q1 := fun _ => I).
    + apply stable_new_plain, stable_RadioUnit__init__.
    + intros r. st_pres HI.
  - apply Hfresh; [done|]. unfold discard, make_AntennaPanel.
    eapply hoare_bind with (Q1 := fun _ => I); [|intros; apply preserves_ret].
    apply hoare_bind_read; [eauto with reader|by intros ? ? [? _]|]. intros v1.
    eapply hoare_bind with (Q1 := fun _ => I).
    + apply stable_new_plain, stable_AntennaPanel__init__.
    + intros r. unfold print, dict_setitem. st_pres HI.
  - apply Hweak. st_pres HI.
  - apply Hweak. st_pres HI.
  - intros s (Hs & Hwf & _).
    pose proof (WF_deregister_link self other s Hwf) as _.
    unfold deregister_link.
    destruct (isinstance_SimObject other); cbn [negb]; [|done].
    unfold bind at 1. unfold getattr at 1.
    destruct (objects s !! self) as [ob|] eqn:Hob; [|done].
    by rewrite (wf_no_sim s Hwf self ob Hob).
  - apply Hweak. st_unfold. st_pres HI.
  - apply Hweak. st_unfold. st_pres HI.
  - apply Hweak. unfold discard. st_unfold. st_pres HI.
  - apply Hweak. st_unfold. st_pres HI.
  - apply Hweak. st_unfold. st_pres HI.
  - apply Hweak. st_unfold. st_pres HI.
  - apply Hweak. unfold discard. st_unfold. st_pres HI.
  - apply Hweak. unfold discard. st_unfold. st_pres HI.
Qed.

Lemma stable_call s c : reachable s → call_ok s c → I s → I (exec (do_call c) s).
Proof.
  intros Hr Hok Hs.
  pose proof (stable_do_call c s (conj Hs (conj (reachable_WF s Hr) Hok))) as H.
  unfold exec. by destruct (do_call c s) as [[r|e] s'].
Qed.

Lemma stable_reachable s : I Sim__init__ → reachable s → I s.
Proof.
  intros Hinit. induction 1 as [|s c Hr IH Hok]; [done|]. by apply stable_call.
Qed.

End stable_calls.

(** ** What every simulation keeps *)

Lemma NoDup_append_new x l : NoDup l → NoDup (append_new x l).
Proof.
  intros Hl. unfold append_new. destruct (decide (x ∈ l)) as [|Hx]; [done|].
  apply NoDup_app. split; [done|]. split; [|apply NoDup_singleton].
  intros y Hy ->%list_elem_of_singleton. done.
Qed.

Lemma stable_no_duplicate_links : stable no_duplicate_links.
Proof.
  split.
  - intros s s' Ht _ _ H c g l. unfold neighbors. rewrite Ht. apply H.
  - intros c a s _ H. exact H.
  - intros a n v s _ H. exact H.
  - intros s ob cn g self _ _ _ H c x l. rewrite neighbors_registered_state.
    destruct (decide (c = cn ∧ x = g)) as [_|_]; [|apply H].
    intros [= <-]. destruct (neighbors s cn g) as [l|] eqn:Hl; cbn.
    + by apply (H cn g).
    + apply NoDup_nil_2.
  - intros c g x s H c' g' l. unfold neighbors. cbn [topology set_topology].
    rewrite topo_get_upd. destruct (decide (c' = c ∧ g' = g)) as [_|_]; [|apply H].
    destruct (topo_get (topology s) c g) as [l0|] eqn:Hl; [|done].
    intros [= <-]. apply NoDup_append_new. by apply (H c g).
  - intros c g x s H c' g' l. unfold neighbors. cbn [topology set_topology].
    rewrite topo_get_upd. destruct (decide (c' = c ∧ g' = g)) as [_|_]; [|apply H].
    destruct (topo_get (topology s) c g) as [l0|] eqn:Hl; [|done].
    intros [= <-]. apply NoDup_filter. by apply (H c g).
Qed.

(** X1.  No adjacency list of the topology ever holds a GUID twice: in
    every state reached by factory and method calls, each list is free
    of duplicates. *)
Theorem adjacency_lists_have_no_duplicates (s : State) :
  reachable s → no_duplicate_links s.
Proof.
  apply (stable_reachable _ stable_no_duplicate_links).
  intros c g l H. by rewrite neighbors_init in H.
Qed.

Lemma adjacency_lists_have_no_duplicates_witness : no_duplicate_links deployment.
Proof. apply adjacency_lists_have_no_duplicates, reachable_deployment. Defined.

Lemma stable_registered cn g : stable (fun s => registered s cn g).
Proof.
  split.
  - intros s s' Ht _ _. unfold registered, neighbors. by rewrite Ht.
  - intros c a s _ H. exact H.
  - intros a n v s _ H. exact H.
  - intros s ob cn' g' self _ _ _ H. by apply registered_mono_registered_state.
  - intros c' g' x s [l H]. unfold registered, neighbors in *.
    cbn [topology set_topology]. rewrite topo_get_upd.
    destruct (decide (cn = c' ∧ g = g')) as [[-> ->]|_]; rewrite H; by eexists.
  - intros c' g' x s [l H]. unfold registered, neighbors in *.
    cbn [topology set_topology]. rewrite topo_get_upd.
    destruct (decide (cn = c' ∧ g = g')) as [[-> ->]|_]; rewrite H; by eexists.
Qed.

Lemma stable_guid_map k a : stable (fun s => guid_map s !! k = Some a).
Proof.
  split.
  - intros s s' _ Hg _. by rewrite Hg.
  - intros c a' s _ H. exact H.
  - intros a' n v s _ H. exact H.
  - intros s ob cn g self _ _ _ H. unfold registered_state. cbn [guid_map set_guid_map
      set_topology].
    destruct (guid_map s !! g) as [x|] eqn:Hg; [done|].
    rewrite lookup_insert_ne; [done|]. intros ->. congruence.
  - intros c g x s H. exact H.
  - intros c g x s H. exact H.
Qed.

Lemma stable_has_class a c : stable (fun s => has_class s a c).
Proof.
  split.
  - intros s s' _ _ Ho. unfold has_class. by rewrite Ho.
  - intros c' a' s Hfresh (ob & Hob & Hc). exists ob. split; [|done].
    change (objects (exec (alloc c' a') s)) with (<[a' := PyObj c' ∅]> (objects s)).
    rewrite lookup_insert_ne; [done|]. intros ->. congruence.
  - intros a' n v s _ (ob & Hob & Hc). unfold has_class.
    rewrite lookup_objects_setattr. destruct (decide (a = a')) as [<-|]; [|by exists ob].
    rewrite Hob. cbn. by eexists.
  - intros s ob cn g self _ _ _ H. exact H.
  - intros c' g x s H. exact H.
  - intros c' g x s H. exact H.
Qed.

Lemma stable_run_calls I cs s :
  stable I → reachable s → calls_ok cs s = true → I s → I (run_calls cs s).
Proof.
  intros HI. revert s. induction cs as [|c cs IH]; intros s Hs Hok Hi; [done|].
  cbn [calls_ok] in Hok. apply andb_true_iff in Hok as [Hc Hrest].
  assert (Hcok : call_ok s c)
    by (destruct c; cbn [call_ok]; try done; by apply bool_decide_eq_true in Hc).
  cbn [run_calls foldl]. apply (IH (exec (do_call c) s)); [|done|].
  - by apply reachable_call.
  - by apply stable_call.
Qed.

(** X2.  Nothing is ever unregistered or replaced: across any sequence
    of calls, a node keeps its entry in the topology, a GUID of the
    GUID map stays bound to the same node, and an instance stays an
    instance of its class. *)
Theorem registration_is_permanent (s : State) (cs : list call)
    (cn : string) (g k a b : Z) (c : string) :
  reachable s → calls_ok cs s = true →
  (registered s cn g → registered (run_calls cs s) cn g)
  ∧ (guid_map s !! k = Some a → guid_map (run_calls cs s) !! k = Some a)
  ∧ (has_class s b c → has_class (run_calls cs s) b c).
Proof.
  intros Hr Hok. split; [|split].
  - by apply (stable_run_calls _ cs s (stable_registered cn g)).
  - by apply (stable_run_calls _ cs s (stable_guid_map k a)).
  - by apply (stable_run_calls _ cs s (stable_has_class b c)).
Qed.

Lemma registration_is_permanent_witness :
  (registered deployment "AIMMeeCell" 100 →
   registered (run_calls [CRegisterLink 100 (VObj 101); CMakeCell 102] deployment)
     "AIMMeeCell" 100)
  ∧ (guid_map deployment !! 100 = Some 100 →
     guid_map (run_calls [CRegisterLink 100 (VObj 101); CMakeCell 102] deployment)
       !! 100 = Some 100)
  ∧ (has_class deployment 101 "AIMMeeCell" →
     has_class (run_calls [CRegisterLink 100 (VObj 101); CMakeCell 102] deployment)
       101 "AIMMeeCell").
Proof.
  apply (registration_is_permanent deployment
           [CRegisterLink 100 (VObj 101); CMakeCell 102]).
  - apply reachable_deployment.
  - vm_compute. reflexivity.
Defined.

Lemma stable_lacks_attr n : n ∉ written_names → stable (lacks_attr n).
Proof.
  intros Hn. split.
  - intros s s' _ _ Ho H. unfold lacks_attr. by rewrite Ho.
  - intros c a s _ H b ob.
    change (objects (exec (alloc c a) s)) with (<[a := PyObj c ∅]> (objects s)).
    destruct (decide (b = a)) as [->|Hne].
    + rewrite lookup_insert_eq. by intros [= <-].
    + rewrite lookup_insert_ne by done. apply H.
  - intros a n' v s Hn' H b ob. rewrite lookup_objects_setattr.
    destruct (decide (b = a)) as [->|]; [|apply H].
    destruct (objects s !! a) as [ob0|] eqn:Hob; [|done]. cbn. intros [= <-]. cbn.
    rewrite lookup_insert_ne by (intros ->; done). by apply (H a).
  - intros s ob cn g self _ _ _ H. exact H.
  - intros c g x s H. exact H.
  - intros c g x s H. exact H.
Qed.

Lemma lacks_attr_init n : lacks_attr n Sim__init__.
Proof. intros a ob H. by rewrite objects_init in H. Qed.

Lemma getattr_lacks s a n :
  lacks_attr n s → getattr (VObj a) n s = (Raise (AttributeError n), s).
Proof.
  intros H. unfold getattr. destruct (objects s !! a) as [ob|] eqn:Hob; [|done].
  by rewrite (H a ob Hob).
Qed.

(** X3.  [get_rf_port] never returns a port.  On a RemoteRadioHead
    with [n] RF ports, in any state reached by factory and method
    calls, it raises [AssertionError] for an index outside 1..n and
    [AttributeError] for an index inside, because it looks the port up
    in [antenna_ports], an attribute that nothing assigns (the ports
    are in [rf_ports]); the state is unchanged. *)
Theorem get_rf_port_never_returns (s : State) (a n i : Z) :
  reachable s →
  attr_of s a "n_rf_ports" = Some (VInt n) →
  get_rf_port a (VInt i) s
  = (Raise (if decide (0 < i ≤ n) then AttributeError "antenna_ports"
            else AssertionError), s).
Proof.
  intros Hr Hn.
  assert (Hlack : lacks_attr "antenna_ports" s).
  { apply (stable_reachable _ (stable_lacks_attr "antenna_ports"
             ltac:(apply (bool_decide_unpack _); vm_compute; exact Logic.I)));
      [apply lacks_attr_init|done]. }
  unfold get_rf_port. cbn [as_index].
  destruct (0 <? i)%Z eqn:H0; cbn [negb].
  - apply Z.ltb_lt in H0.
    rewrite (bind_eval _ _ _ _ _ (getattr_attr_of _ _ _ _ Hn)). cbn [as_index].
    destruct (i <=? n)%Z eqn:H1; cbn [negb].
    + apply Z.leb_le in H1. rewrite decide_True by lia.
      unfold bind. by rewrite (getattr_lacks s a "antenna_ports" Hlack).
    + apply Z.leb_gt in H1. by rewrite decide_False by lia.
  - apply Z.ltb_ge in H0. by rewrite decide_False by lia.
Qed.

Lemma get_rf_port_never_returns_witness :
  get_rf_port 300 (VInt 1) deployment
  = (Raise (if decide (0 < 1 ≤ 2) then AttributeError "antenna_ports"
            else AssertionError), deployment).
Proof.
  apply (get_rf_port_never_returns deployment 300 2 1).
  - apply reachable_deployment.
  - vm_compute. reflexivity.
Defined.

(** X4.  [deregister_link] never removes a link: in every state reached
    by factory and method calls, whatever the receiver and the
    argument, it raises and leaves the state, and so every adjacency
    list, as it was. *)
Theorem deregister_link_never_unlinks (s : State) (a : Z) (other : pyval) :
  reachable s →
  ∃ e, deregister_link a other s = (Raise e, s).
Proof.
  intros Hr. pose proof (reachable_WF s Hr) as Hwf. unfold deregister_link.
  destruct (isinstance_SimObject other); cbn [negb]; [|by eexists].
  unfold bind at 1. unfold getattr at 1.
  destruct (objects s !! a) as [ob|] eqn:Hob; [|by eexists].
  rewrite (wf_no_sim s Hwf a ob Hob). by eexists.
Qed.

Lemma deregister_link_never_unlinks_witness :
  ∃ e, deregister_link 250 (VObj 200) deployment = (Raise e, deployment).
Proof. apply deregister_link_never_unlinks, reachable_deployment. Defined.

(** ** Power models *)

Lemma class_of_eval s a ob : objects s !! a = Some ob → class_of a s = (Ok (cls ob), s).
Proof. intros H. unfold class_of. by rewrite H. Qed.

Lemma power_model_eval s a v :
  attr_of s a "_power_model" = Some v → is_None v = false →
  power_model a s = (Ok v, s).
Proof.
  intros Hpm Hv. unfold power_model.
  rewrite (bind_eval _ _ _ _ _ (getattr_attr_of _ _ _ _ Hpm)). by rewrite Hv.
Qed.

(** X5.  The [power_model] setter and getter round-trip: on a node
    (any instance with an [idx]), setting a constant or a callable
    succeeds and a following read returns exactly the value set; a
    value of another type, [None] included, is then rejected with
    [ValueError] and leaves the model that was set in place. *)
Theorem power_model_round_trip (s : State) (a : Z) (i v w : pyval) :
  attr_of s a "idx" = Some i →
  is_power_model_value v = true →
  is_power_model_value w = false →
  ∃ s', set_power_model a v s = (Ok tt, s')
        ∧ power_model a s' = (Ok v, s')
        ∧ set_power_model a w s'
          = (Raise (ValueError "power_model must be a constant or a function"), s').
Proof.
  intros Hidx Hv Hw.
  pose proof (attr_of_is_Some _ _ _ _ Hidx) as Hob.
  set (s1 := exec (setattr a "_power_model" v) s).
  assert (Hpm1 : attr_of s1 a "_power_model" = Some v) by (by apply attr_of_setattr_same).
  assert (Hidx1 : attr_of s1 a "idx" = Some i)
    by (by unfold s1; rewrite attr_of_setattr_other).
  assert (Hnone : is_None v = false) by (by destruct v).
  destruct (objects s1 !! a) as [ob1|] eqn:Hob1;
    [|unfold attr_of in Hpm1; by rewrite Hob1 in Hpm1].
  eexists. split; [|split].
  - unfold set_power_model. rewrite Hv. cbn [negb]. rewrite bind_setattr. fold s1.
    rewrite (bind_eval _ _ _ _ _ (class_of_eval _ _ _ Hob1)).
    rewrite (bind_eval _ _ _ _ _ (getattr_attr_of _ _ _ _ Hidx1)).
    rewrite (bind_eval _ _ _ _ _ (power_model_eval _ _ _ Hpm1 Hnone)).
    reflexivity.
  - by apply power_model_eval.
  - unfold set_power_model. by rewrite Hw.
Qed.

Lemma power_model_round_trip_witness :
  ∃ s', set_power_model 500 (VFloat 10.0) deployment = (Ok tt, s')
        ∧ power_model 500 s' = (Ok (VFloat 10.0), s')
        ∧ set_power_model 500 VNone s'
          = (Raise (ValueError "power_model must be a constant or a function"), s').
Proof.
  apply (power_model_round_trip deployment 500 (VInt 13) (VFloat 10.0) VNone);
    vm_compute; reflexivity.
Defined.

Lemma DU_power_consumption_default :
  DU_power_consumption DU_power_defaults = Some 624.0%float.
Proof. vm_compute. reflexivity. Qed.

Lemma float_of_int_supply_default :
  float_of_int (P_supply_max DU_power_defaults) = Some 2100.0%float.
Proof. vm_compute. reflexivity. Qed.

Lemma new_DistributedUnit_run (s : State) (a : Z) :
  ∃ s', run (new_DistributedUnit a VSim) s = (Ok (VObj a), s')
        ∧ attr_of s' a "_power_model" = Some (VFloat 624.0)
        ∧ attr_of s' a "power_consumption" = Some (VFloat 624.0)
        ∧ attr_of s' a "p_load" = Some (VFloat (624.0 / 2100.0))
        ∧ attr_of s' a "interval" = Some (VFloat 0.0)
        ∧ attr_of s' a "sim" = Some VSim.
Proof.
  destruct s as [tp gm cl ue rp ru rh ob dc nd ii out].
  unfold new_DistributedUnit, DistributedUnit__init__, SimObject__init__, add_to_sim,
    example_DU_power_model, set_power_model, power_model.
  rewrite DU_power_consumption_default, float_of_int_supply_default.
  cbv zeta. msteps. eexists. split; [reflexivity|].
  unfold attr_of. cbn [objects]. lk. cbn [attrs mbind option_bind]. lk.
  repeat split.
Qed.

(** The loop shared by the passive classes: each tick yields the
    timeout for the node's interval and changes nothing. *)
Lemma default_loop_eval s a v n :
  attr_of s a "sim" = Some VSim → attr_of s a "interval" = Some v →
  run_loop n (default_loop_body a) s = (Ok (replicate n v), s).
Proof.
  intros Hsim Hitv.
  assert (Hbody : default_loop_body a s = (Ok v, s)).
  { unfold default_loop_body.
    rewrite (bind_eval _ _ _ _ _ (getattr_attr_of _ _ _ _ Hsim)).
    cbn [isinstance_Sim]. by apply getattr_attr_of. }
  induction n as [|n IH]; [done|]. cbn [run_loop replicate].
  rewrite (bind_eval _ _ _ _ _ Hbody). by rewrite (bind_eval _ _ _ _ _ IH).
Qed.

Lemma float_of_int_0 : float_of_int 0 = Some 0%float.
Proof. vm_compute. reflexivity. Qed.

(** X6.  Every DistributedUnit is constructed with the power model of
    the default parameters, 624 W, and the load 624/2100; having no
    interval of its own it gets the interval 0.0, so each tick of its
    loop yields a timeout of zero delay.  When the model is computed
    again with other parameters, a count too large to convert to a
    float raises [OverflowError] before anything is stored, and a
    supply maximum of zero raises [ZeroDivisionError] after the new
    consumption has been stored: the stored load is then the old
    one. *)
Theorem DistributedUnit_defaults (s : State) (a : Z) (n : nat) (p : DU_power_params)
    (pc : float) :
  ∃ s', new_DistributedUnit a VSim s = (Ok (VObj a), s')
        ∧ power_model a s' = (Ok (VFloat 624.0), s')
        ∧ attr_of s' a "p_load" = Some (VFloat (624.0 / 2100.0))
        ∧ run_loop n (DistributedUnit_loop_body a) s' = (Ok (replicate n (VFloat 0.0)), s')
        ∧ (DU_power_consumption p = None →
           example_DU_power_model a p s' = (Raise OverflowError, s'))
        ∧ (DU_power_consumption p = Some pc → P_supply_max p = 0 →
           outcome (example_DU_power_model a p) s' = Raise ZeroDivisionError
           ∧ attr_of (exec (example_DU_power_model a p) s') a "power_consumption"
             = Some (VFloat pc)
           ∧ attr_of (exec (example_DU_power_model a p) s') a "p_load"
             = Some (VFloat (624.0 / 2100.0))).
Proof.
  destruct (new_DistributedUnit_run s a) as (s' & Hrun & Hpm & Hpc & Hpl & Hitv & Hsim).
  exists s'. split; [exact Hrun|]. split; [by apply power_model_eval|].
  split; [done|]. split; [by apply default_loop_eval|].
  split.
  { intros Hnone. unfold example_DU_power_model. by rewrite Hnone. }
  intros Hsome Hp.
  assert (Hrun' : example_DU_power_model a p s'
            = (Raise ZeroDivisionError,
               exec (setattr a "power_consumption" (VFloat pc)) s')).
  { unfold example_DU_power_model. rewrite Hsome, bind_setattr, Hp, float_of_int_0.
    reflexivity. }
  unfold outcome. rewrite !exec_run. unfold run. rewrite Hrun'. cbn [fst snd].
  split; [done|]. split.
  - apply attr_of_setattr_same. by eapply attr_of_is_Some.
  - by rewrite attr_of_setattr_other.
Qed.

(** Conversions at and above the width of a machine integer, and a
    count that no float holds. *)
Lemma float_of_int_large :
  float_of_int (2 ^ 63) = Some 9223372036854775808.0%float
  ∧ float_of_int (2 ^ 63 + 5) = Some 9223372036854775808.0%float
  ∧ float_of_int (2 ^ 64 + 2 ^ 11 + 1) = Some 18446744073709555712.0%float
  ∧ float_of_int (- 2 ^ 63) = Some (-9223372036854775808.0)%float
  ∧ float_of_int (2 ^ 1024) = None
  ∧ DU_power_consumption
      {| P_supply_max := 2100; n_cpu := 2 ^ 1024; P_cpu := 90.0;
         ram_GB := 384; P_ram_GB := 0.375; n_gpu := 0; P_gpu := 0.0;
         n_accel := 1; P_accel := 52.0; n_asic := 1; P_asic := 23.0;
         n_nic := 3; P_nic := 75.0 |} = None.
Proof. repeat split; vm_compute; reflexivity. Qed.

(** ** Radio units *)

Lemma bind_ext_hoare {A B} (P Q : State → Prop) (m : M A) (k1 k2 : A → M B) :
  hoare P m (fun _ => Q) (fun _ _ => True) →
  (∀ x s, Q s → k1 x s = k2 x s) →
  ∀ s, P s → bind m k1 s = bind m k2 s.
Proof.
  intros Hm Hk s Hs. unfold bind. specialize (Hm s Hs).
  destruct (m s) as [[x|e] s']; [by apply Hk|done].
Qed.

Lemma bind_ext {A B} (m1 m2 : M A) (k : A → M B) s :
  m1 s = m2 s → bind m1 k s = bind m2 k s.
Proof. unfold bind. by intros ->. Qed.

Lemma hoare_trivial {A} (P : State → Prop) (m : M A) :
  hoare P m (fun _ _ => True) (fun _ _ => True).
Proof. intros s _. by destruct (m s) as [[a|e] s']. Qed.

Lemma du_is_None_od a : on_objects_and_dicts (fun s => du_is_None s a).
Proof. intros s s' Ho _. unfold du_is_None, attr_of. by rewrite Ho. Qed.

Lemma du_is_None_setattr a b n v :
  n ≠ "du" → preserves (fun s => du_is_None s a) (setattr b n v).
Proof.
  intros Hn. apply preserves_of_exec. intros s H w.
  rewrite attr_of_setattr_other by done. apply H.
Qed.

Lemma du_is_None_SimObject__init__ a self sim :
  preserves (fun s => du_is_None s a) (SimObject__init__ self sim).
Proof.
  unfold SimObject__init__, next_id_iter.
  repeat first
    [ apply du_is_None_setattr; discriminate
    | apply preserves_add_to_sim, du_is_None_od
    | apply preserves_ret
    | apply preserves_bind; [|intros ?]
    | apply preserves_reader; solve [eauto with reader]
    | apply preserves_modify; solve [od_frame]
    | match goal with
      | |- preserves _ (if ?b then _ else _) => destruct b
      end ].
Qed.

Ltac du_step :=
  first
    [ apply du_is_None_setattr; discriminate
    | apply du_is_None_SimObject__init__
    | apply preserves_register_link, du_is_None_od
    | apply preserves_ret
    | apply preserves_reader; solve [eauto with reader]
    | match goal with
      | |- preserves _ (if ?b then _ else _) => destruct b
      end ].

Lemma RadioUnit__init___du self sim cell rap du itv s :
  RadioUnit__init__ self sim cell rap du itv s
  = RadioUnit__init__ self sim cell rap VNone itv s.
Proof.
  unfold RadioUnit__init__.
  do 7 (apply (bind_ext_hoare (fun _ => True) (fun _ => True));
        [apply hoare_trivial|intros ? ? _|done]).
  apply (bind_ext_hoare (fun _ => True) (fun s => du_is_None s self)); [| |done].
  { apply hoare_setattr. intros sx _ v. rewrite attr_of_setattr, decide_True by done.
    destruct (bool_decide _); [by intros [= <-]|done]. }
  intros _ sy H1.
  do 6 (revert H1; apply (bind_ext_hoare (fun s => du_is_None s self)
                            (fun s => du_is_None s self));
        [apply hoare_of_preserves; repeat du_step|intros ? ? H1]).
  revert H1. apply (bind_ext_hoare (fun s => du_is_None s self)
                      (fun s => du_is_None s self));
    [apply hoare_of_preserves; repeat du_step|intros ? sz H1].
  unfold bind. destruct (getattr (VObj self) "du" sz) as [[v|e] sz'] eqn:Hget; [|done].
  pose proof (reader_inv _ _ _ _ (reader_getattr _ _) Hget) as ->.
  apply getattr_Ok in Hget as (b & ob & [= <-] & Hob & Hv).
  assert (v = VNone) as -> by (apply H1; unfold attr_of; by rewrite Hob).
  done.
Qed.

(** X7.  The [du] argument of a RadioUnit has no effect: the
    constructor stores [None] in [self.du] before it tests it, so the
    unit is never linked to the DistributedUnit it is given.  Whatever
    [du] is passed, [Sim.make_RadioUnit] and
    [RadioAccessPoint.make_RadioUnit] return the same result and the
    same simulation state as for [du = None]. *)
Theorem RadioUnit_ignores_du (s : State) (a self : Z) (cell rap du : pyval)
    (interval : float) :
  make_RadioUnit a cell rap du interval s = make_RadioUnit a cell rap VNone interval s
  ∧ RadioAccessPoint_make_RadioUnit self a rap du interval s
    = RadioAccessPoint_make_RadioUnit self a rap VNone interval s.
Proof.
  assert (Hnew : ∀ sim c s0, new_RadioUnit a sim c rap du interval s0
                             = new_RadioUnit a sim c rap VNone interval s0).
  { intros sim c s0. unfold new_RadioUnit.
    apply (bind_ext_hoare (fun _ => True) (fun _ => True));
      [apply hoare_trivial| |done].
    intros _ s1 _. apply bind_ext, RadioUnit__init___du. }
  split.
  - unfold make_RadioUnit. apply bind_ext, Hnew.
  - unfold RadioAccessPoint_make_RadioUnit.
    do 2 (apply (bind_ext_hoare (fun _ => True) (fun _ => True));
          [apply hoare_trivial|intros ? ? _|done]).
    apply bind_ext, Hnew.
Qed.

(** ** Access points *)

(** X8.  A RadioAccessPoint cannot be made without a cell, and the
    failure is not clean: with [cell = None] the constructor raises
    [AttributeError] when it asks the cell for its position, after
    [SimObject.__init__] has filed the new node in the topology and in
    the GUID map.  The factory then does not append to [sim.raps], so
    the node is registered but in no list of the simulation. *)
Theorem RadioAccessPoint_without_cell (s : State) (a : Z) (at_cell_centre : bool)
    (interval : float) :
  ∃ s', make_RadioAccessPoint a VNone at_cell_centre interval s
        = (Raise (AttributeError "get_xyz"), s')
        ∧ neighbors s' "RadioAccessPoint" a
          = Some (default [] (neighbors s "RadioAccessPoint" a))
        ∧ is_Some (guid_map s' !! a)
        ∧ raps s' = raps s.
Proof.
  destruct s as [tp gm cl ue rp ru rh ob dc nd ii out].
  unfold make_RadioAccessPoint, new_RadioAccessPoint, RadioAccessPoint__init__,
    SimObject__init__, add_to_sim, get_xyz.
  destruct at_cell_centre; eexists;
    (split; [apply run_inv; msteps; reflexivity|]);
    unfold neighbors; cbn [topology guid_map raps];
    rewrite topo_get_setdefault, decide_True by done;
    (split; [done|]); (split; [|done]);
    (destruct (gm !! a) as [x|] eqn:Hx; [by eexists|]);
    rewrite lookup_insert_eq; by eexists.
Qed.

(** ** Links between nodes *)

Lemma getattr_str_eval s a n c :
  attr_of s a n = Some (VStr c) → (v <- getattr (VObj a) n ;; as_str v) s = (Ok c, s).
Proof. intros H. by rewrite (bind_eval _ _ _ _ _ (getattr_attr_of _ _ _ _ H)). Qed.

Lemma attr_of_same s s' a n : objects s' = objects s → attr_of s' a n = attr_of s a n.
Proof. unfold attr_of. by intros ->. Qed.

Lemma link_block_eval s self b (cnd : bool) c g f ls lo
    (line : pyval → pyval → list pyval) :
  attr_of s self "label" = Some ls → attr_of s b "label" = Some lo →
  ∃ s1,
    (if cnd then topology_update c g f
     else (sl <- getattr (VObj self) "label" ;; ol <- getattr (VObj b) "label" ;;
           print (line sl ol))) s = (Ok tt, s1)
    ∧ objects s1 = objects s
    ∧ ∀ c' g', is_Some (neighbors s c' g') → is_Some (neighbors s1 c' g').
Proof.
  intros Hs Hb. destruct cnd.
  - eexists. split; [reflexivity|]. split; [done|].
    intros c' g' [l Hl]. unfold neighbors in *. cbn [topology set_topology].
    rewrite topo_get_upd. destruct (decide (c' = c ∧ g' = g)) as [[-> ->]|_];
      rewrite Hl; by eexists.
  - rewrite (bind_eval _ _ _ _ _ (getattr_attr_of _ _ _ _ Hs)).
    rewrite (bind_eval _ _ _ _ _ (getattr_attr_of _ _ _ _ Hb)).
    eexists. split; [reflexivity|]. done.
Qed.

(** Between two nodes [register_link] returns. *)
Lemma register_link_returns s a b ca cb :
  node s a ca → node s b cb → ∃ s', register_link a (VObj b) s = (Ok tt, s').
Proof.
  intros (Hsa & Hca & Hga & [la Hla] & [na Hna]) (Hsb & Hcb & Hgb & [lb Hlb] & [nb Hnb]).
  unfold register_link. cbn [isinstance_SimObject negb].
  rewrite (bind_eval _ _ _ _ _ (getattr_attr_of _ _ _ _ Hsa)). cbn [isinstance_Sim negb].
  rewrite (bind_eval _ _ _ _ _ (getattr_str_eval _ _ _ _ Hca)).
  rewrite (bind_eval _ _ _ _ _ (getattr_attr_of _ _ _ _ Hga)).
  rewrite (bind_eval _ _ _ _ _ (topology_get_eval _ _ _ _ Hna)).
  rewrite (bind_eval _ _ _ _ _ (getattr_attr_of _ _ _ _ Hsb)).
  rewrite (bind_eval _ _ _ _ _ (getattr_str_eval _ _ _ _ Hcb)).
  rewrite (bind_eval _ _ _ _ _ (getattr_attr_of _ _ _ _ Hgb)).
  rewrite (bind_eval _ _ _ _ _ (topology_get_eval _ _ _ _ Hnb)).
  cbn [as_int]. rewrite (bind_eval _ _ s a s) by done.
  rewrite (bind_eval _ _ s b s) by done.
  destruct (link_block_eval s a b (negb (py_in (VInt b) na)) ca a
              (fun l => l ++ [b])%list la lb
              (fun sl ol => [sl; VStr ": "; ol; VStr " already exists in "; sl;
                             VStr " topology list."]) Hla Hlb)
    as (s1 & E1 & Ho1 & Hn1).
  cbv beta in E1. rewrite (bind_eval _ _ _ _ _ E1).
  destruct (Hn1 cb b (ex_intro _ nb Hnb)) as [nb1 Hnb1].
  rewrite (bind_eval _ _ _ _ _ (topology_get_eval _ _ _ _ Hnb1)).
  assert (Hla1 : attr_of s1 a "label" = Some la) by (by rewrite (attr_of_same s s1)).
  assert (Hlb1 : attr_of s1 b "label" = Some lb) by (by rewrite (attr_of_same s s1)).
  destruct (link_block_eval s1 a b (negb (py_in (VInt a) nb1)) cb b
              (fun l => l ++ [a])%list la lb
              (fun sl ol => [sl; VStr ": "; sl; VStr " already exists in "; ol;
                             VStr " topology list."]) Hla1 Hlb1)
    as (s2 & E2 & _ & _).
  cbv beta in E2. by exists s2.
Qed.

Lemma link_facts_node s a b ca cb cs gs co go :
  node s a ca → node s b cb → link_facts s a (VObj b) cs gs co go →
  cs = ca ∧ gs = a ∧ co = cb ∧ go = b.
Proof.
  intros (_ & Hca & Hga & _) (_ & Hcb & Hgb & _)
    (b' & oa & ob & [= <-] & Hoa & Hcs & Hgs & Hob & Hco & Hgo & _).
  unfold attr_of in *. rewrite Hoa in Hca, Hga. rewrite Hob in Hcb, Hgb.
  cbn in *. by simplify_eq.
Qed.

(** What [register_link] does between two nodes. *)
Lemma register_link_nodes s a b ca cb :
  node s a ca → node s b cb →
  ∃ s', register_link a (VObj b) s = (Ok tt, s')
        ∧ same_but_topology s s'
        ∧ topology s' = link_topology (topology s) ca a cb b.
Proof.
  intros Ha Hb. destruct (register_link_returns s a b ca cb Ha Hb) as [s' H].
  exists s'. split; [done|].
  apply register_link_effect in H
    as [Hsame [(e & [=] & _)|(cs & gs & co & go & Hf & Ht)]].
  split; [done|].
  by destruct (link_facts_node s a b ca cb cs gs co go Ha Hb Hf) as (-> & -> & -> & ->).
Qed.

Lemma node_same s s' a c :
  objects s' = objects s → (registered s c a → registered s' c a) →
  node s a c → node s' a c.
Proof.
  intros Ho Hr (H1 & H2 & H3 & H4 & H5). unfold node.
  rewrite !(attr_of_same s s' a) by done. repeat split; try done. by apply Hr.
Qed.

Lemma registered_link_topology s s' cs gs co go c g :
  topology s' = link_topology (topology s) cs gs co go →
  registered s c g → registered s' c g.
Proof.
  intros Ht [l Hl]. unfold registered, neighbors in *. rewrite Ht.
  unfold link_topology. rewrite !topo_get_upd.
  repeat (destruct (decide _) as [[-> ->]|_]; cbn); rewrite ?topo_get_upd;
    repeat (destruct (decide _) as [[-> ->]|_]; cbn); rewrite ?Hl; by eexists.
Qed.

Lemma link_topology_idem t cs gs co go :
  is_Some (topo_get t cs gs) → is_Some (topo_get t co go) →
  link_topology (link_topology t cs gs co go) cs gs co go = link_topology t cs gs co go.
Proof.
  intros Hs Ho. set (T := link_topology t cs gs co go).
  assert (H1 : topo_upd T cs gs (append_new go) = T).
  { apply topo_upd_id. intros l Hl.
    destruct (topo_get_link t cs gs co go cs gs Hs Ho) as (l' & Hl' & Hmem).
    fold T in Hl'. rewrite Hl in Hl'. destruct Hs as [l0 Hl0]. rewrite Hl0 in Hl'.
    injection Hl' as ->. unfold append_new. rewrite decide_True; [done|].
    apply (Hmem l0 Hl0). right. by left. }
  unfold link_topology at 1. fold T. rewrite H1.
  apply topo_upd_id. intros l Hl.
  destruct (topo_get_link t cs gs co go co go Hs Ho) as (l' & Hl' & Hmem).
  fold T in Hl'. rewrite Hl in Hl'. destruct Ho as [l0 Hl0]. rewrite Hl0 in Hl'.
  injection Hl' as ->. unfold append_new. rewrite decide_True; [done|].
  apply (Hmem l0 Hl0). right. by right.
Qed.

(** X9.  [register_link] between two nodes always succeeds and is
    idempotent: it leaves each GUID in the other node's adjacency list
    (appending it when it is missing), and a second call with the same
    arguments succeeds again and leaves the topology exactly as the
    first call left it. *)
Theorem register_link_idempotent (s : State) (a b : Z) (ca cb : string) :
  node s a ca → node s b cb →
  ∃ s1 s2 la lb,
    register_link a (VObj b) s = (Ok tt, s1)
    ∧ topology s1 = link_topology (topology s) ca a cb b
    ∧ neighbors s1 ca a = Some la ∧ neighbors s1 cb b = Some lb
    ∧ b ∈ la ∧ a ∈ lb
    ∧ register_link a (VObj b) s1 = (Ok tt, s2)
    ∧ topology s2 = topology s1.
Proof.
  intros Ha Hb.
  destruct (register_link_nodes s a b ca cb Ha Hb) as (s1 & H1 & Hsame1 & Ht1).
  assert (Ho1 : objects s1 = objects s) by (by destruct Hsame1 as (_&_&_&_&_&_&?&_)).
  assert (Ha1 : node s1 a ca)
    by (apply (node_same s); [done| |done]; by eapply registered_link_topology).
  assert (Hb1 : node s1 b cb)
    by (apply (node_same s); [done| |done]; by eapply registered_link_topology).
  destruct (register_link_nodes s1 a b ca cb Ha1 Hb1) as (s2 & H2 & _ & Ht2).
  pose proof Ha as (_ & _ & _ & _ & Hra). pose proof Hb as (_ & _ & _ & _ & Hrb).
  destruct (topo_get_link (topology s) ca a cb b ca a Hra Hrb) as (la & Hla & Hma).
  destruct (topo_get_link (topology s) ca a cb b cb b Hra Hrb) as (lb & Hlb & Hmb).
  destruct Hra as [la0 Hla0], Hrb as [lb0 Hlb0].
  unfold neighbors in Hla0, Hlb0. rewrite Hla0 in Hla. rewrite Hlb0 in Hlb.
  exists s1, s2, la, lb. split; [done|]. split; [done|].
  unfold neighbors. rewrite Ht1. split; [done|]. split; [done|].
  split; [apply (Hma la0 Hla0); right; by left|].
  split; [apply (Hmb lb0 Hlb0); right; by right|].
  split; [done|]. rewrite Ht2, Ht1. apply link_topology_idem; by eexists.
Qed.

Lemma register_link_idempotent_witness :
  ∃ s1 s2 la lb,
    register_link 100 (VObj 101) deployment = (Ok tt, s1)
    ∧ topology s1 = link_topology (topology deployment) "AIMMeeCell" 100 "AIMMeeCell" 101
    ∧ neighbors s1 "AIMMeeCell" 100 = Some la ∧ neighbors s1 "AIMMeeCell" 101 = Some lb
    ∧ 101 ∈ la ∧ 100 ∈ lb
    ∧ register_link 100 (VObj 101) s1 = (Ok tt, s2)
    ∧ topology s2 = topology s1.
Proof.
  apply (register_link_idempotent deployment 100 101 "AIMMeeCell" "AIMMeeCell").
  - repeat split; try (vm_compute; reflexivity); vm_compute; by eexists.
  - repeat split; try (vm_compute; reflexivity); vm_compute; by eexists.
Defined.

Lemma node_setattr s a c b n v :
  n ≠ "sim" → n ≠ "class_name" → n ≠ "guid" → n ≠ "label" →
  node s a c → node (exec (setattr b n v) s) a c.
Proof.
  intros ? ? ? ? (H1 & H2 & H3 & H4 & H5). unfold node.
  rewrite !attr_of_setattr_other by done. done.
Qed.

(** X10.  [DistributedUnit.attach_to_rrh] links the two nodes: called
    on a node with a RemoteRadioHead node as argument it returns,
    records the head in [self.rrh] and leaves each GUID in the other
    node's adjacency list.  An argument that is not a RemoteRadioHead,
    such as [None], is refused with [AssertionError] before anything
    is changed. *)
Theorem attach_to_rrh_links (s : State) (self b : Z) (cs : string) :
  node s self cs → node s b "RemoteRadioHead" → has_class s b "RemoteRadioHead" →
  (∃ s' la lb,
     attach_to_rrh self (VObj b) s = (Ok tt, s')
     ∧ attr_of s' self "rrh" = Some (VObj b)
     ∧ neighbors s' cs self = Some la
     ∧ neighbors s' "RemoteRadioHead" b = Some lb
     ∧ b ∈ la ∧ self ∈ lb)
  ∧ attach_to_rrh self VNone s = (Raise AssertionError, s).
Proof.
  intros Hself Hb (ob & Hob & Hcls). split; [|done].
  set (s1 := exec (setattr self "rrh" (VObj b)) s).
  assert (Hself1 : node s1 self cs) by (by apply node_setattr).
  assert (Hb1 : node s1 b "RemoteRadioHead") by (by apply node_setattr).
  assert (Hrrh1 : attr_of s1 self "rrh" = Some (VObj b)).
  { apply attr_of_setattr_same. destruct Hself as (H & _). by eapply attr_of_is_Some. }
  destruct (register_link_nodes s1 self b cs "RemoteRadioHead" Hself1 Hb1)
    as (s2 & H2 & Hsame2 & Ht2).
  assert (Ho2 : objects s2 = objects s1) by (by destruct Hsame2 as (_&_&_&_&_&_&?&_)).
  pose proof Hself1 as (_ & _ & _ & [ls Hls] & Hrs).
  pose proof Hb1 as (_ & _ & _ & [lb' Hlb'] & Hrb).
  destruct (topo_get_link (topology s1) cs self "RemoteRadioHead" b cs self Hrs Hrb)
    as (la & Hla & Hma).
  destruct (topo_get_link (topology s1) cs self "RemoteRadioHead" b "RemoteRadioHead" b
              Hrs Hrb) as (lb & Hlb & Hmb).
  destruct Hrs as [la0 Hla0], Hrb as [lb0 Hlb0].
  unfold neighbors in Hla0, Hlb0. rewrite Hla0 in Hla. rewrite Hlb0 in Hlb.
  eexists _, la, lb. split.
  { unfold attach_to_rrh, isinstance_cls.
    rewrite (bind_eval _ _ s true s) by (unfold gets; rewrite Hob; by rewrite bool_decide_eq_true_2).
    cbn [negb]. rewrite bind_setattr. fold s1.
    rewrite (bind_eval _ _ _ _ _ (getattr_attr_of _ _ _ _ Hrrh1)).
    rewrite (bind_eval _ _ _ _ _ H2).
    rewrite (bind_eval (getattr (VObj self) "label") _ s2 ls s2)
      by (apply getattr_attr_of; by rewrite (attr_of_same s1 s2)).
    rewrite (bind_eval (getattr (VObj self) "rrh") _ s2 (VObj b) s2)
      by (apply getattr_attr_of; by rewrite (attr_of_same s1 s2)).
    rewrite (bind_eval (getattr (VObj b) "label") _ s2 lb' s2)
      by (apply getattr_attr_of; by rewrite (attr_of_same s1 s2)).
    reflexivity. }
  split.
  { change (attr_of s2 self "rrh" = Some (VObj b)). by rewrite (attr_of_same s1 s2). }
  unfold neighbors. cbn [topology set_stdout]. rewrite Ht2.
  split; [done|]. split; [done|].
  split; [apply (Hma la0 Hla0); right; by left|].
  apply (Hmb lb0 Hlb0); right; by right.
Qed.

Lemma attach_to_rrh_links_witness :
  (∃ s' la lb,
     attach_to_rrh 500 (VObj 300) deployment = (Ok tt, s')
     ∧ attr_of s' 500 "rrh" = Some (VObj 300)
     ∧ neighbors s' "DistributedUnit" 500 = Some la
     ∧ neighbors s' "RemoteRadioHead" 300 = Some lb
     ∧ 300 ∈ la ∧ 500 ∈ lb)
  ∧ attach_to_rrh 500 VNone deployment = (Raise AssertionError, deployment).
Proof.
  apply (attach_to_rrh_links deployment 500 300 "DistributedUnit").
  - repeat split; try (vm_compute; reflexivity); vm_compute; by eexists.
  - repeat split; try (vm_compute; reflexivity); vm_compute; by eexists.
  - vm_compute. eexists. split; reflexivity.
Defined.

(** X11.  [CentralisedUnit.attach_to_du] never links anything: in every
    state reached by factory and method calls, a call with a
    DistributedUnit stores it in [self.du] and then raises
    [AttributeError], because the link is requested with [self.cu], an
    attribute that nothing assigns; no adjacency list changes.  Any
    other argument, such as [None], is refused with
    [AssertionError]. *)
Theorem attach_to_du_never_links (s : State) (self d : Z) :
  reachable s → has_class s d "DistributedUnit" →
  attach_to_du self (VObj d) s
  = (Raise (AttributeError "cu"), exec (setattr self "du" (VObj d)) s)
  ∧ topology (exec (attach_to_du self (VObj d)) s) = topology s
  ∧ attach_to_du self VNone s = (Raise AssertionError, s).
Proof.
  intros Hr (ob & Hob & Hcls).
  assert (Hstable : stable (lacks_attr "cu"))
    by (apply stable_lacks_attr, (bool_decide_unpack _); vm_compute; exact I).
  assert (Hlack : lacks_attr "cu" (exec (setattr self "du" (VObj d)) s)).
  { apply (st_setattr _ Hstable); [apply (bool_decide_unpack _); vm_compute; exact I|].
    apply (stable_reachable _ Hstable); [apply lacks_attr_init|done]. }
  assert (Hrun : attach_to_du self (VObj d) s
            = (Raise (AttributeError "cu"), exec (setattr self "du" (VObj d)) s)).
  { unfold attach_to_du, isinstance_cls.
    rewrite (bind_eval _ _ s true s)
      by (unfold gets; rewrite Hob; by rewrite bool_decide_eq_true_2).
    cbn [negb]. rewrite bind_setattr. unfold bind.
    by rewrite (getattr_lacks _ self "cu" Hlack). }
  split; [done|]. split; [|done]. rewrite exec_run. unfold run. by rewrite Hrun.
Qed.

Lemma attach_to_du_never_links_witness :
  attach_to_du 600 (VObj 500) deployment
  = (Raise (AttributeError "cu"), exec (setattr 600 "du" (VObj 500)) deployment)
  ∧ topology (exec (attach_to_du 600 (VObj 500)) deployment) = topology deployment
  ∧ attach_to_du 600 VNone deployment = (Raise AssertionError, deployment).
Proof.
  apply (attach_to_du_never_links deployment 600 500).
  - apply reachable_deployment.
  - vm_compute. eexists. split; reflexivity.
Defined.

(** *** Reading the adjacency lists *)

Lemma assert_SimObjects_ok s objs ls :
  Forall2 (links_of s) objs ls → assert_SimObjects objs s = (Ok tt, s).
Proof.
  induction 1 as [|o l objs ls (a & c & -> & _) _ IH]; [done|].
  cbn [assert_SimObjects isinstance_SimObject negb]. exact IH.
Qed.

Lemma link_lists_eval s objs ls :
  Forall2 (links_of s) objs ls → link_lists objs s = (Ok ls, s).
Proof.
  induction 1 as [|o l objs ls (a & c & -> & (Hsim & Hcn & Hg & _) & Hl) _ IH]; [done|].
  cbn [link_lists].
  rewrite (bind_eval _ _ _ _ _ (getattr_attr_of _ _ _ _ Hsim)).
  rewrite (bind_eval _ _ _ _ _ (getattr_str_eval _ _ _ _ Hcn)).
  rewrite (bind_eval _ _ _ _ _ (getattr_attr_of _ _ _ _ Hg)).
  rewrite (bind_eval _ _ _ _ _ (topology_get_eval _ _ _ _ Hl)).
  by rewrite (bind_eval _ _ _ _ _ IH).
Qed.

Lemma assert_SimObjects_reject s objs ls x :
  Forall2 (links_of s) objs ls → isinstance_SimObject x = false →
  assert_SimObjects (objs ++ [x])%list s = (Raise AssertionError, s).
Proof.
  intros H Hx. induction H as [|o l objs ls (a & c & -> & _) _ IH].
  - cbn. by rewrite Hx.
  - cbn [app assert_SimObjects isinstance_SimObject negb]. exact IH.
Qed.

(** X12.  [Sim.get_link_lists] returns, for a list of nodes, their
    adjacency lists in the order of the nodes, and changes nothing;
    the same list followed by a value that is no SimObject, such as
    [None], is refused with [AssertionError] before any lookup. *)
Theorem get_link_lists_of_nodes (s : State) (objs : list pyval) (ls : list (list Z)) :
  Forall2 (links_of s) objs ls →
  get_link_lists objs s = (Ok ls, s)
  ∧ get_link_lists (objs ++ [VNone])%list s = (Raise AssertionError, s).
Proof.
  intros H. unfold get_link_lists. split.
  - rewrite (bind_eval _ _ _ _ _ (assert_SimObjects_ok s objs ls H)).
    by apply link_lists_eval.
  - unfold bind. by rewrite (assert_SimObjects_reject s objs ls VNone H).
Qed.

Lemma get_link_lists_of_nodes_witness :
  get_link_lists [VObj 100; VObj 700] deployment
  = (Ok [[200; 250; 300]; [101]], deployment)
  ∧ get_link_lists ([VObj 100; VObj 700] ++ [VNone])%list deployment
    = (Raise AssertionError, deployment).
Proof.
  apply (get_link_lists_of_nodes deployment [VObj 100; VObj 700]
           [[200; 250; 300]; [101]]).
  constructor; [|constructor; [|constructor]].
  - exists 100, "AIMMeeCell". split; [done|].
    repeat split; try (vm_compute; reflexivity); vm_compute; by eexists.
  - exists 700, "AIMMeeUE". split; [done|].
    repeat split; try (vm_compute; reflexivity); vm_compute; by eexists.
Defined.

(** ** Ticks of a UE *)

(** [update_cell_guid] when the serving cell is the current one. *)
Lemma update_cell_guid_same s ue y Y :
  attr_of s ue "serving_cell" = Some (VObj y) →
  attr_of s y "guid" = Some (VInt Y) →
  attr_of s ue "current_cell_guid" = Some (VInt Y) →
  update_cell_guid ue s = (Ok tt, s).
Proof.
  intros Hserv Hy Hcur. unfold update_cell_guid.
  rewrite (bind_eval _ _ _ _ _ (getattr_attr_of _ _ _ _ Hserv)).
  rewrite (bind_eval _ _ _ _ _ (getattr_attr_of _ _ _ _ Hy)).
  rewrite (bind_eval _ _ _ _ _ (getattr_attr_of _ _ _ _ Hcur)).
  cbn [py_eq]. by rewrite bool_decide_eq_true_2.
Qed.

Lemma append_new_in x l : x ∈ l → append_new x l = l.
Proof. intros H. unfold append_new. by rewrite decide_True. Qed.

Lemma set_topology_upd_id s c g f l :
  neighbors s c g = Some l → f l = l →
  set_topology (fun t => topo_upd t c g f) s = s.
Proof.
  intros Hl Hf. apply set_topology_id, topo_upd_id. intros l' Hl'.
  unfold neighbors in Hl. by simplify_eq.
Qed.

(** X13.  A tick of a UE whose bookkeeping is settled changes nothing.
    When [current_cell_guid] is the GUID [Y] of the serving cell,
    [last_cell_guid] is another GUID [X], and the topology already has
    the UE in the adjacency list of cell [Y] and not in that of cell
    [X] (and likewise [Y] and not [X] in the list of the UE), any
    number of ticks runs the removals and guarded appends again
    without effect and yields the reporting interval each time. *)
Theorem settled_ue_ticks_change_nothing (s : State) (n : nat) (ue y g X Y : Z)
    (ri : pyval) (lX lY lU : list Z) :
  attr_of s ue "guid" = Some (VInt g) →
  attr_of s ue "sim" = Some VSim →
  attr_of s ue "reporting_interval" = Some ri →
  attr_of s ue "last_cell_guid" = Some (VInt X) →
  attr_of s ue "current_cell_guid" = Some (VInt Y) →
  attr_of s ue "serving_cell" = Some (VObj y) →
  attr_of s y "guid" = Some (VInt Y) →
  X ≠ Y →
  neighbors s "AIMMeeCell" X = Some lX → g ∉ lX →
  neighbors s "AIMMeeCell" Y = Some lY → g ∈ lY →
  neighbors s "AIMMeeUE" g = Some lU → X ∉ lU → Y ∈ lU →
  run_loop n (AIMMeeUE_loop_body None ue) s = (Ok (replicate n ri), s).
Proof.
  intros Hg Hsim Hri Hlast Hcur Hserv Hy Hne HX HgX HY HgY HU HXU HYU.
  assert (Htopo : update_ue_topology ue s = (Ok tt, s)).
  { destruct (objects s !! ue) as [ob|] eqn:Hob;
      [|unfold attr_of in Hg; by rewrite Hob in Hg].
    pose proof (fun n => attr_of_obj s ue ob n Hob) as Hattr.
    rewrite Hattr in Hg, Hsim, Hlast, Hcur.
    rewrite (update_ue_topology_eval s ue ob g X Y lX lY lU) by done.
    rewrite (set_topology_upd_id s "AIMMeeCell" X _ lX) by (by try apply remove_all_notin).
    rewrite (set_topology_upd_id s "AIMMeeUE" g _ lU) by (by try apply remove_all_notin).
    rewrite (set_topology_upd_id s "AIMMeeCell" Y _ lY) by (by try apply append_new_in).
    by rewrite (set_topology_upd_id s "AIMMeeUE" g _ lU) by (by try apply append_new_in). }
  assert (Hbody : AIMMeeUE_loop_body None ue s = (Ok ri, s)).
  { unfold AIMMeeUE_loop_body.
    rewrite (bind_eval _ _ s tt s) by done.
    rewrite (bind_eval _ _ s tt s) by (by eapply update_cell_guid_same).
    rewrite (bind_eval _ _ s tt s) by done.
    rewrite (bind_eval _ _ _ _ _ (getattr_attr_of _ _ _ _ Hsim)).
    cbn [isinstance_Sim]. by apply getattr_attr_of. }
  induction n as [|n IH]; [done|]. cbn [run_loop replicate].
  rewrite (bind_eval _ _ _ _ _ Hbody). by rewrite (bind_eval _ _ _ _ _ IH).
Qed.

Lemma settled_ue_ticks_change_nothing_witness :
  run_loop 3 (AIMMeeUE_loop_body None 700) deployment
  = (Ok (replicate 3 (VFloat 1.0)), deployment).
Proof.
  apply (settled_ue_ticks_change_nothing deployment 3 700 101 700 100 101 (VFloat 1.0)
           [200; 250; 300] [700] [101]); try (vm_compute; reflexivity).
  - discriminate.
  - by intros [[=]|[[=]|[[=]|[]%elem_of_nil]%elem_of_cons]%elem_of_cons]%elem_of_cons.
  - apply list_elem_of_here.
  - by intros [[=]|[]%elem_of_nil]%elem_of_cons.
  - apply list_elem_of_here.
Defined.

(** [update_cell_guid] when the serving cell differs from the recorded
    one, whatever was recorded. *)
Lemma update_cell_guid_change s ue y Y cur :
  attr_of s ue "serving_cell" = Some (VObj y) →
  attr_of s y "guid" = Some (VInt Y) →
  attr_of s ue "current_cell_guid" = Some cur →
  py_eq (VInt Y) cur = false →
  update_cell_guid ue s
  = (Ok tt, exec (setattr ue "current_cell_guid" (VInt Y))
              (exec (setattr ue "last_cell_guid" cur) s)).
Proof.
  intros Hserv Hy Hcur Hne. unfold update_cell_guid.
  rewrite (bind_eval _ _ _ _ _ (getattr_attr_of _ _ _ _ Hserv)).
  rewrite (bind_eval _ _ _ _ _ (getattr_attr_of _ _ _ _ Hy)).
  rewrite (bind_eval _ _ _ _ _ (getattr_attr_of _ _ _ _ Hcur)).
  rewrite Hne.
  rewrite (bind_eval _ _ _ _ _ (getattr_attr_of _ _ _ _ Hcur)).
  rewrite bind_setattr.
  set (s1 := exec (setattr ue "last_cell_guid" cur) s).
  assert (Hserv1 : attr_of s1 ue "serving_cell" = Some (VObj y))
    by (by unfold s1; rewrite attr_of_setattr_other).
  assert (Hy1 : attr_of s1 y "guid" = Some (VInt Y))
    by (by unfold s1; rewrite attr_of_setattr_other).
  rewrite (bind_eval _ _ _ _ _ (getattr_attr_of _ _ _ _ Hserv1)).
  rewrite (bind_eval _ _ _ _ _ (getattr_attr_of _ _ _ _ Hy1)).
  reflexivity.
Qed.

(** [update_ue_topology] when no cell was recorded before. *)
Lemma update_ue_topology_first s ue ob g Y lY lU :
  objects s !! ue = Some ob →
  attrs ob !! "guid" = Some (VInt g) →
  attrs ob !! "sim" = Some VSim →
  attrs ob !! "last_cell_guid" = Some VNone →
  attrs ob !! "current_cell_guid" = Some (VInt Y) →
  neighbors s "AIMMeeCell" Y = Some lY →
  neighbors s "AIMMeeUE" g = Some lU →
  update_ue_topology ue s
  = (Ok tt,
     set_topology (fun t => topo_upd t "AIMMeeUE" g (append_new Y))
       (set_topology (fun t => topo_upd t "AIMMeeCell" Y (append_new g)) s)).
Proof.
  intros Hob Hg Hsim Hlast Hcur HY HU. unfold update_ue_topology.
  rewrite (bind_eval _ _ _ _ _ (getattr_eval s ue _ _ _ Hob Hg)). cbn [py_eq].
  rewrite (bind_eval _ _ _ _ _ (getattr_eval s ue _ _ _ Hob Hlast)).
  rewrite (bind_eval _ _ _ _ _ (getattr_eval s ue _ _ _ Hob Hcur)).
  cbn [py_eq negb].
  rewrite (bind_eval _ _ _ _ _ (getattr_eval s ue _ _ _ Hob Hlast)).
  cbn [is_None negb].
  set (s1 := set_topology (fun t => topo_upd t "AIMMeeCell" Y (append_new g)) s).
  assert (HU1 : neighbors s1 "AIMMeeUE" g = Some lU).
  { unfold neighbors, s1. cbn [topology set_topology]. rewrite topo_get_upd.
    by rewrite decide_False by (by intros [? _]). }
  rewrite (bind_eval _ _ s tt s) by done.
  rewrite (bind_eval _ _ s tt s1)
    by (by eapply (append_if_absent_eval ue ob _ _ _ g Y s)).
  by eapply (append_if_absent_eval ue ob _ _ _ Y g s1).
Qed.

(** X14.  The first tick after a UE's first attachment files the UE
    with its cell.  A UE with no cell recorded yet
    ([current_cell_guid] is [None]) whose serving cell is a registered
    cell of GUID [Y] completes the tick; afterwards the UE's GUID is in
    the adjacency list of the cell and [Y] is in the list of the UE
    (each appended unless already there), [current_cell_guid] is [Y],
    [last_cell_guid] is [None], and no other adjacency list has
    changed. *)
Theorem ue_first_attachment (s : State) (ue y g Y : Z) (ri : pyval) (lY lU : list Z) :
  attr_of s ue "guid" = Some (VInt g) →
  attr_of s ue "sim" = Some VSim →
  attr_of s ue "reporting_interval" = Some ri →
  attr_of s ue "current_cell_guid" = Some VNone →
  attr_of s ue "serving_cell" = Some (VObj y) →
  attr_of s y "guid" = Some (VInt Y) →
  neighbors s "AIMMeeCell" Y = Some lY →
  neighbors s "AIMMeeUE" g = Some lU →
  ∃ s',
    AIMMeeUE_loop_body None ue s = (Ok ri, s') ∧
    neighbors s' "AIMMeeCell" Y = Some (append_new g lY) ∧
    neighbors s' "AIMMeeUE" g = Some (append_new Y lU) ∧
    attr_of s' ue "last_cell_guid" = Some VNone ∧
    attr_of s' ue "current_cell_guid" = Some (VInt Y) ∧
    ∀ c k, (c, k) ≠ ("AIMMeeCell", Y) → (c, k) ≠ ("AIMMeeUE", g) →
           neighbors s' c k = neighbors s c k.
Proof.
  intros Hg Hsim Hri Hcur Hserv Hy HY HU.
  pose proof (attr_of_is_Some _ _ _ _ Hg) as Hue.
  set (s1 := exec (setattr ue "last_cell_guid" VNone) s).
  set (s2 := exec (setattr ue "current_cell_guid" (VInt Y)) s1).
  assert (Hue1 : is_Some (objects s1 !! ue)).
  { unfold s1. rewrite lookup_objects_setattr, decide_True by done.
    destruct Hue as [ob ->]. by eexists. }
  assert (Hlast2 : attr_of s2 ue "last_cell_guid" = Some VNone).
  { unfold s2. rewrite attr_of_setattr_other by done.
    by apply attr_of_setattr_same. }
  assert (Hcur2 : attr_of s2 ue "current_cell_guid" = Some (VInt Y))
    by (by apply attr_of_setattr_same).
  assert (Hg2 : attr_of s2 ue "guid" = Some (VInt g))
    by (by unfold s2, s1; rewrite !attr_of_setattr_other).
  assert (Hsim2 : attr_of s2 ue "sim" = Some VSim)
    by (by unfold s2, s1; rewrite !attr_of_setattr_other).
  assert (Hri2 : attr_of s2 ue "reporting_interval" = Some ri)
    by (by unfold s2, s1; rewrite !attr_of_setattr_other).
  destruct (objects s2 !! ue) as [ob2|] eqn:Hob2;
    [|unfold attr_of in Hg2; by rewrite Hob2 in Hg2].
  pose proof (fun n => attr_of_obj s2 ue ob2 n Hob2) as Hattr.
  eexists. split.
  { unfold AIMMeeUE_loop_body.
    rewrite (bind_eval _ _ s tt s) by done.
    rewrite (bind_eval _ _ s tt s2) by (by eapply update_cell_guid_change).
    erewrite bind_eval;
      [|apply (update_ue_topology_first s2 ue ob2 g Y lY lU); by rewrite <- ?Hattr].
    rewrite (bind_eval (getattr (VObj ue) "sim") _ _ VSim _)
      by (by apply getattr_attr_of).
    cbn [isinstance_Sim]. apply getattr_attr_of. exact Hri2. }
  unfold neighbors. cbn [topology set_topology]. rewrite !topo_get_upd.
  change (topo_get (topology s2) ?c ?k) with (neighbors s c k).
  split.
  { rewrite decide_False by (by intros [? _]). rewrite decide_True by done.
    by rewrite HY. }
  split.
  { rewrite decide_True by done.
    rewrite decide_False by (by intros [? _]). by rewrite HU. }
  split; [done|]. split; [done|].
  intros c k H1 H2. rewrite !topo_get_upd.
  rewrite decide_False by (intros [-> ->]; done).
  by rewrite decide_False by (intros [-> ->]; done).
Qed.

Lemma ue_first_attachment_witness :
  ∃ s',
    AIMMeeUE_loop_body None 700
      (run_calls [CMakeCell 100; CMakeUE 700 1.0; CAttach 700 (VObj 100)] Sim__init__)
    = (Ok (VFloat 1.0), s') ∧
    neighbors s' "AIMMeeCell" 100 = Some (append_new 700 []) ∧
    neighbors s' "AIMMeeUE" 700 = Some (append_new 100 []) ∧
    attr_of s' 700 "last_cell_guid" = Some VNone ∧
    attr_of s' 700 "current_cell_guid" = Some (VInt 100) ∧
    ∀ c k, (c, k) ≠ ("AIMMeeCell", 100) → (c, k) ≠ ("AIMMeeUE", 700) →
           neighbors s' c k
           = neighbors (run_calls [CMakeCell 100; CMakeUE 700 1.0;
                                   CAttach 700 (VObj 100)] Sim__init__) c k.
Proof.
  apply (ue_first_attachment _ 700 100 700 100 (VFloat 1.0) [] []);
    vm_compute; reflexivity.
Defined.

(** ** The factories *)

Lemma fresh_not_registered s a c :
  WF s → objects s !! a = None → neighbors s c a = None.
Proof.
  intros Hwf Hfresh. destruct (neighbors s c a) as [l|] eqn:Hl; [|done].
  destruct (wf_reg s Hwf c a (ex_intro _ l Hl)) as (ob & Hob & _). congruence.
Qed.

Lemma fresh_not_mapped s a : WF s → objects s !! a = None → guid_map s !! a = None.
Proof.
  intros Hwf Hfresh. destruct (guid_map s !! a) as [x|] eqn:Hx; [|done].
  pose proof (wf_gmap s Hwf a x Hx) as Hg. unfold attr_of in Hg.
  destruct (objects s !! x) as [ob|] eqn:Hob; [|done]. cbn in Hg.
  pose proof (wf_guid s Hwf x ob _ Hob Hg) as [= ->]. congruence.
Qed.

(** X15.  [Sim.make_cell] and [Sim.make_UE] each add one isolated node.
    In a state reached by factory and method calls, with a new instance
    [a], the factory returns the instance, appends it to [sim.cells]
    (to [sim.UEs]), and files it in the topology with an empty
    adjacency list and in the GUID map under its own [id]; every other
    adjacency list and GUID map entry is as before. *)
Theorem factories_add_isolated_nodes (s : State) (a : Z) (ri : float) :
  reachable s → objects s !! a = None →
  (∃ s', make_cell a s = (Ok (VObj a), s')
         ∧ cells s' = (cells s ++ [a])%list
         ∧ new_isolated_node s s' a "AIMMeeCell")
  ∧ (∃ s', make_UE a ri s = (Ok (VObj a), s')
           ∧ UEs s' = (UEs s ++ [a])%list
           ∧ attr_of s' a "serving_cell" = Some VNone
           ∧ new_isolated_node s s' a "AIMMeeUE").
Proof.
  intros Hr Hfresh. pose proof (reachable_WF s Hr) as Hwf.
  pose proof (fresh_not_mapped s a Hwf Hfresh) as Hmap.
  assert (Hreg : ∀ c, neighbors s c a = None)
    by (intros c; by apply fresh_not_registered).
  destruct s as [tp gm cl ue rp ru rh ob dc nd ii out].
  unfold neighbors in Hreg. cbn [objects guid_map topology] in *.
  split.
  - unfold make_cell, new_AIMMeeCell, AIMMeeCell__init__, SimObject__init__, add_to_sim.
    eexists. split; [apply run_inv; msteps; reflexivity|].
    split; [done|].
    unfold new_isolated_node, node, registered, neighbors, attr_of.
    cbn [objects guid_map topology]. lk. cbn [attrs mbind option_bind]. lk.
    rewrite topo_get_setdefault, decide_True, Hreg by done. cbn [default].
    repeat split; try done; try (by eexists).
    + intros c' g Hne. rewrite topo_get_setdefault.
      by rewrite decide_False by (intros [-> ->]; done).
    + intros k Hk. by rewrite lookup_insert_ne.
  - unfold make_UE, new_AIMMeeUE, AIMMeeUE__init__, AIMM_UE__init__, SimObject__init__,
      add_to_sim.
    eexists. split; [apply run_inv; msteps; reflexivity|].
    split; [done|].
    unfold new_isolated_node, node, registered, neighbors, attr_of.
    cbn [objects guid_map topology]. lk. cbn [attrs mbind option_bind]. lk.
    rewrite topo_get_setdefault, decide_True, Hreg by done. cbn [default].
    repeat split; try done; try (by eexists).
    + intros c' g Hne. rewrite topo_get_setdefault.
      by rewrite decide_False by (intros [-> ->]; done).
    + intros k Hk. by rewrite lookup_insert_ne.
Qed.

Lemma factories_add_isolated_nodes_witness :
  (∃ s', make_cell 900 deployment = (Ok (VObj 900), s')
         ∧ cells s' = (cells deployment ++ [900])%list
         ∧ new_isolated_node deployment s' 900 "AIMMeeCell")
  ∧ (∃ s', make_UE 900 2.0 deployment = (Ok (VObj 900), s')
           ∧ UEs s' = (UEs deployment ++ [900])%list
           ∧ attr_of s' 900 "serving_cell" = Some VNone
           ∧ new_isolated_node deployment s' 900 "AIMMeeUE").
Proof.
  apply (factories_add_isolated_nodes deployment 900 2.0).
  - apply reachable_deployment.
  - vm_compute. reflexivity.
Defined.

(** ** GUID uniqueness *)

Lemma registered_topo_upd_inv s c g f c' g' :
  registered (set_topology (fun t => topo_upd t c g f) s) c' g' → registered s c' g'.
Proof.
  unfold registered, neighbors. cbn [topology set_topology]. rewrite topo_get_upd.
  destruct (decide (c' = c ∧ g' = g)) as [[-> ->]|_]; [|done].
  destruct (topo_get (topology s) c g); [by eexists|by intros [? [=]]].
Qed.

Lemma stable_registered_have_entries : stable registered_have_entries.
Proof.
  split.
  - intros s s' Ht Hg _ H c g. unfold registered, neighbors. rewrite Ht, Hg. apply H.
  - intros c a s _ H. exact H.
  - intros a n v s _ H. exact H.
  - intros s ob cn g self _ _ _ H c x. unfold registered.
    rewrite neighbors_registered_state. unfold registered_state.
    cbn [guid_map set_guid_map set_topology].
    destruct (decide (c = cn ∧ x = g)) as [[-> ->]|_].
    + intros _. destruct (guid_map s !! g) as [y|] eqn:Hy; [by rewrite Hy|].
      rewrite lookup_insert_eq. by eexists.
    + intros Hr. destruct (H c x Hr) as [y Hy].
      destruct (guid_map s !! g) as [z|] eqn:Hz; [by rewrite Hy|].
      destruct (decide (x = g)) as [->|Hne]; [congruence|].
      rewrite lookup_insert_ne by done. by rewrite Hy.
  - intros c g x s H c' g' Hr. apply (H c' g'). by eapply registered_topo_upd_inv.
  - intros c g x s H c' g' Hr. apply (H c' g'). by eapply registered_topo_upd_inv.
Qed.

Lemma guid_map_exact_WF s : WF s → guid_map_exact s.
Proof.
  intros Hwf k a Hk. pose proof (wf_gmap s Hwf k a Hk) as Hg.
  split; [|done]. unfold attr_of in Hg.
  destruct (objects s !! a) as [ob|] eqn:Hob; [|done]. cbn in Hg.
  by pose proof (wf_guid s Hwf a ob _ Hob Hg) as [= ->].
Qed.

Lemma guids_distinct_WF s : WF s → guids_distinct s.
Proof.
  intros Hwf a1 a2 g1 g2 Hne H1 H2 Heq. unfold attr_of in H1, H2.
  destruct (objects s !! a1) as [ob1|] eqn:Hob1; [|done].
  destruct (objects s !! a2) as [ob2|] eqn:Hob2; [|done]. cbn in H1, H2.
  pose proof (wf_guid s Hwf a1 ob1 _ Hob1 H1).
  pose proof (wf_guid s Hwf a2 ob2 _ Hob2 H2). congruence.
Qed.

Lemma enters_under_own_id_fresh s c a :
  WF s → objects s !! a = None → enters_under_own_id s c a.
Proof.
  intros Hwf Hfresh. pose proof (fresh_not_mapped s a Hwf Hfresh) as Hmap.
  unfold enters_under_own_id. cbv zeta. rewrite exec_run.
  destruct s as [tp gm cl ue rp ru rh ob dc nd ii out]. cbn [guid_map] in Hmap.
  unfold SimObject__init__, add_to_sim. msteps. cbn [snd].
  unfold attr_of, registered, neighbors. cbn [objects guid_map topology]. lk.
  cbn [attrs mbind option_bind]. lk.
  rewrite topo_get_setdefault, decide_True by done. by eauto.
Qed.

(** C7: GUID uniqueness.  In every state reached by factory and method
    calls no two instances share a GUID: the [guid] attributes of two
    distinct instances differ.  Every node filed in the topology is
    the instance whose [id] is its GUID and is bound to that GUID in
    the GUID map; the GUID map binds each GUID to the one instance that
    carries it, so two distinct nodes of the map have different GUIDs;
    and the base initialiser files a new instance of any class under
    its own [id]. *)
Theorem guid_uniqueness (s : State) :
  reachable s →
  guids_distinct s
  ∧ registered_nodes_mapped s
  ∧ guid_map_exact s
  ∧ guid_unique s
  ∧ ∀ c a, objects s !! a = None → enters_under_own_id s c a.
Proof.
  intros Hr. pose proof (reachable_WF s Hr) as Hwf.
  pose proof (guid_map_exact_WF s Hwf) as Hexact.
  split; [by apply guids_distinct_WF|]. split; [|split; [done|split]].
  - intros c g Hreg.
    assert (Hentry : registered_have_entries s).
    { apply (stable_reachable _ stable_registered_have_entries); [|done].
      intros c' g' [l Hl]. by rewrite neighbors_init in Hl. }
    destruct (Hentry c g Hreg) as [x Hx].
    destruct (Hexact g x Hx) as [-> Hg].
    split; [by apply (wf_reg s Hwf)|]. done.
  - intros k1 k2 a1 a2 H1 H2 Hne Heq.
    destruct (Hexact k1 a1 H1) as [_ Hg1]. destruct (Hexact k2 a2 H2) as [_ Hg2].
    apply (guids_distinct_WF s Hwf a1 a2 _ _ Hne Hg1 Hg2).
    rewrite Hg1, Hg2 in Heq. by injection Heq as ->.
  - intros c a Hfresh. by apply enters_under_own_id_fresh.
Qed.

Lemma guid_uniqueness_witness :
  guids_distinct deployment
  ∧ registered_nodes_mapped deployment
  ∧ guid_map_exact deployment
  ∧ guid_unique deployment
  ∧ ∀ c a, objects deployment !! a = None → enters_under_own_id deployment c a.
Proof. apply guid_uniqueness, reachable_deployment. Defined.
